(** * rejig pattern-match prototype: AST builder, scopes, evaluator, joins

    Shallow embedding of [pattern-match/define-and-run.py]: the AST classes,
    [toast] (parse tree to AST), [SymbolTable], [ID], [obj], [Matching] with
    its [Placeholder], [run] and the [builtins] table.

    Python objects that the program mutates and shares ([SymbolTable]s and
    [Matching]s) live in an explicit state that every operation threads.
    Python's own operators, which the builtins table and the [Subscript] and
    [Attribute] branches delegate to, are a parameter of the development
    (record [PyHost]). *)

From Stdlib Require Import List String Ascii ZArith Lia Bool PeanoNat Permutation.
From Stdlib Require Import PrimFloat DecimalString.
Import ListNotations.
Open Scope string_scope.
Set Implicit Arguments.
Set Warnings "-register-all,-inexact-float".

(** ** Exceptions and outcomes *)

(** A raised Python exception: the name of its class, [str(err)], and the
    implicit [__context__] that Python 3 attaches to an exception raised
    while another one is being handled. *)
Inductive exn : Type :=
| Exn (kind : string) (msg : string) (context : option exn).

Definition exn_kind (e : exn) : string := let 'Exn k _ _ := e in k.
Definition exn_msg (e : exn) : string := let 'Exn _ m _ := e in m.
Definition exn_context (e : exn) : option exn := let 'Exn _ _ c := e in c.

(** The error at the bottom of a chain of [__context__] links. *)
Fixpoint root_cause (e : exn) : exn :=
  match e with
  | Exn _ _ (Some c) => root_cause c
  | Exn _ _ None => e
  end.

(** Ways in which the model, and not the program, gives up. *)
Inductive halt : Type :=
| OutOfFuel   (* the evaluator's recursion budget is exhausted *)
| Malformed   (* an object graph Python's references or lark's grammar rule out *)
| Unmodelled. (* a host operation outside the finite part a host instance covers *)

Inductive outcome (A : Type) : Type :=
| Ok (a : A)
| Raise (e : exn)
| Halt (r : halt).
Arguments Ok {A} a.
Arguments Raise {A} e.
Arguments Halt {A} r.

Definition is_ok {A} (r : outcome A) : bool :=
  match r with Ok _ => true | _ => false end.

(** State and exception monad. *)
Definition M (S A : Type) : Type := S -> S * outcome A.

Definition ret {S A} (a : A) : M S A := fun s => (s, Ok a).
Definition raise {S A} (e : exn) : M S A := fun s => (s, Raise e).
Definition stop {S A} (r : halt) : M S A := fun s => (s, Halt r).
Definition lift {S A} (r : outcome A) : M S A := fun s => (s, r).
Definition bind {S A B} (m : M S A) (k : A -> M S B) : M S B :=
  fun s =>
    match m s with
    | (s', Ok a) => k a s'
    | (s', Raise e) => (s', Raise e)
    | (s', Halt r) => (s', Halt r)
    end.

Declare Scope monad_scope.
Delimit Scope monad_scope with monad.
Notation "x <- m ;; k" := (bind m (fun x => k))
  (at level 61, m at next level, right associativity) : monad_scope.
Notation "m ;;; k" := (bind m (fun _ => k))
  (at level 61, right associativity) : monad_scope.
Open Scope monad_scope.

(** ** Text helpers *)

(** [str(n)] for a non-negative integer. *)
Definition str_nat (n : nat) : string := NilEmpty.string_of_uint (Nat.to_uint n).

Fixpoint contains_char (c : ascii) (s : string) : bool :=
  match s with
  | EmptyString => false
  | String d r => Ascii.eqb c d || contains_char c r
  end.

Definition hex_digit (n : nat) : ascii :=
  match nth_error (list_ascii_of_string "0123456789abcdef") n with
  | Some c => c
  | None => "0"%char
  end.

(** Body of [repr] of a [str] for the quote character [q]; characters
    above 127 are taken as printable. *)
Fixpoint repr_body (q : ascii) (s : string) : string :=
  match s with
  | EmptyString => EmptyString
  | String c r =>
      let n := nat_of_ascii c in
      let rest := repr_body q r in
      if Ascii.eqb c "\"%char then String "\"%char (String "\"%char rest)
      else if Ascii.eqb c q then String "\"%char (String c rest)
      else if Nat.eqb n 9 then String "\"%char (String "t"%char rest)
      else if Nat.eqb n 10 then String "\"%char (String "n"%char rest)
      else if Nat.eqb n 13 then String "\"%char (String "r"%char rest)
      else if Nat.ltb n 32 || Nat.eqb n 127 then
        String "\"%char (String "x"%char
          (String (hex_digit (n / 16)) (String (hex_digit (n mod 16)) rest)))
      else String c rest
  end.

(** [repr(s)] for a [str]: single quotes unless the text has a single quote
    and no double quote. *)
Definition repr_str (s : string) : string :=
  let dq := ascii_of_nat 34 in
  let q := if contains_char "'"%char s && negb (contains_char dq s)
           then dq else "'"%char in
  String q (repr_body q s ++ String q EmptyString).

Definition starts_with_underscore (s : string) : bool :=
  match s with
  | String c _ => Ascii.eqb c "_"%char
  | EmptyString => false
  end.

(** ** The AST classes *)

Inductive literal : Type :=
| LInt (z : Z)
| LFloat (f : float).

(** One constructor per AST class, fields in the order of [_fields], with
    the [line] attribute last; [Pattern] also carries the identity of the
    class [Pattern.__init__] creates for it. [Placeholder m n] is
    [Matching.Placeholder] of the [Matching] at address [m]; it is not an
    AST class, but [toast] stores it in [Assignment.expression]. *)
Inductive ast : Type :=
| Module (statements : list ast) (line : option nat)
| Assignment (symbol : string) (operator : string) (expression : ast) (line : option nat)
| Pattern (assignments : list ast) (matching : option nat) (ID : nat) (line : option nat)
| Join (expression : ast) (matching : nat) (line : option nat)
| Function (parameters : list string) (body : ast) (line : option nat)
| Block (statements : list ast) (expression : ast) (line : option nat)
| Call (function : ast) (arguments : list ast) (line : option nat)
| Subscript (object : ast) (index : ast) (line : option nat)
| Attribute (object : ast) (field : string) (line : option nat)
| Slice (start : option ast) (stop : option ast) (line : option nat)
| Symbol (symbol : string) (line : option nat)
| Literal (value : literal) (line : option nat)
| Placeholder (m : nat) (n : nat).

(** [getattr(x, "line", None)]. *)
Definition line_of (x : ast) : option nat :=
  match x with
  | Module _ l | Assignment _ _ _ l | Pattern _ _ _ l | Join _ _ l
  | Function _ _ l | Block _ _ l | Call _ _ l | Subscript _ _ l
  | Attribute _ _ l | Slice _ _ l | Symbol _ l | Literal _ l => l
  | Placeholder _ _ => None
  end.

(** The loop of [AST.__init__]: the first line found among the arguments. *)
Fixpoint first_line (ls : list (option nat)) : option nat :=
  match ls with
  | [] => None
  | Some l :: _ => Some l
  | None :: r => first_line r
  end.

(** ** Values *)

(** An instance of a subclass of [ID]: the class (its identity and its
    [__name__]) and the attribute [n]. *)
Record ID : Type := mkID {
  ID_type : nat;
  ID_name : string;
  ID_n : option nat
}.

(** [ID.__eq__]. *)
Definition ID_eq (a b : ID) : bool :=
  Nat.eqb (ID_type a) (ID_type b) &&
  match ID_n a, ID_n b with
  | None, None => true
  | Some x, Some y => Nat.eqb x y
  | _, _ => false
  end.

(** The Python values the evaluator handles. [VObj] is an instance of
    [obj] ([_id] and the ordered [_fields]); [VFunction] is the closure
    [function] that the [Function] branch of [run] returns, which captures
    [node] only; [VBuiltin name] is the lambda stored under [name] in
    [builtins]. *)
Inductive value : Type :=
| VNone
| VBool (b : bool)
| VInt (z : Z)
| VFloat (f : float)
| VStr (s : string)
| VList (l : list value)
| VSlice (start : value) (stop : value)
| VObj (_id : ID) (_fields : list (string * value))
| VFunction (parameters : list string) (body : ast) (line : option nat)
| VBuiltin (name : string).

Definition value_of_literal (l : literal) : value :=
  match l with
  | LInt z => VInt z
  | LFloat f => VFloat f
  end.

(** [type(v).__name__]. *)
Definition type_name (v : value) : string :=
  match v with
  | VNone => "NoneType"
  | VBool _ => "bool"
  | VInt _ => "int"
  | VFloat _ => "float"
  | VStr _ => "str"
  | VList _ => "list"
  | VSlice _ _ => "slice"
  | VObj _ _ => "obj"
  | VFunction _ _ _ => "function"
  | VBuiltin _ => "function"
  end.

(** [bool(v)]: [obj] defines neither [__bool__] nor [__len__]. *)
Definition truthy (v : value) : bool :=
  match v with
  | VNone => false
  | VBool b => b
  | VInt z => negb (z =? 0)%Z
  | VFloat f => negb (PrimFloat.eqb f 0%float)
  | VStr s => negb (String.eqb s "")
  | VList l => match l with [] => false | _ => true end
  | VSlice _ _ | VObj _ _ | VFunction _ _ _ | VBuiltin _ => true
  end.

(** ** Dictionaries *)

(** A Python [dict] (or the [OrderedDict] of an [obj]) with [str] keys, in
    insertion order. *)
Definition dict : Type := list (string * value).

(** [d.get(k)]: the value under the first entry for [k]. *)
Fixpoint dict_get (d : dict) (k : string) : option value :=
  match d with
  | [] => None
  | (k', v) :: r => if String.eqb k' k then Some v else dict_get r k
  end.

(** [k in d]. *)
Definition dict_mem (d : dict) (k : string) : bool :=
  match dict_get d k with Some _ => true | None => false end.

(** [d[k] = v]: an existing key keeps its position, a new one goes last. *)
Fixpoint dict_set (d : dict) (k : string) (v : value) : dict :=
  match d with
  | [] => [(k, v)]
  | (k', v') :: r =>
      if String.eqb k' k then (k', v) :: r else (k', v') :: dict_set r k v
  end.

Definition keys (d : dict) : list string := map fst d.

(** ** class SymbolTable *)

(** [parent] is a reference to the enclosing table. Tables are only ever
    created on top of the table in use and dropped when the construct that
    made them returns, so a table is passed along together with its chain
    of parents. [symbols] is a [dict], or the [obj] a [Pattern] is filling
    (whose [__contains__], [__getitem__] and [__setitem__] act on its
    [_fields]). *)
Inductive SymbolTable : Type :=
| mkSymbolTable (parent : option SymbolTable) (symbols : dict).

Definition parent (self : SymbolTable) : option SymbolTable :=
  let 'mkSymbolTable p _ := self in p.
Definition symbols (self : SymbolTable) : dict :=
  let 'mkSymbolTable _ d := self in d.

(** [SymbolTable.__getitem__]; [str(KeyError(symbol))] is [repr(symbol)]. *)
Fixpoint SymbolTable_getitem (self : SymbolTable) (symbol : string) : outcome value :=
  match self with
  | mkSymbolTable p d =>
      match dict_get d symbol with
      | Some v => Ok v
      | None =>
          match p with
          | Some up => SymbolTable_getitem up symbol
          | None => Raise (Exn "KeyError" (repr_str symbol) None)
          end
      end
  end.

Definition multiple_definitions (symbol : string) : exn :=
  Exn "TypeError"
      ("symbol " ++ repr_str symbol ++ " has multiple definitions at this scope") None.

(** [SymbolTable.__setitem__]. *)
Definition SymbolTable_setitem (self : SymbolTable) (symbol : string) (v : value)
  : outcome SymbolTable :=
  if dict_mem (symbols self) symbol
  then Raise (multiple_definitions symbol)
  else Ok (mkSymbolTable (parent self) (dict_set (symbols self) symbol v)).

(** ** class Matching and the object store *)

(** A [Matching] object: [collections], and the attributes [i] and [row],
    which exist only once [Matching.run] has assigned them. *)
Record Matching : Type := mkMatching {
  collections : list ast;
  Matching_i : option nat;
  Matching_row : option (list value)
}.

(** The objects with identity: the [Matching] instances, addressed by
    allocation order, and the number of [ID] subclasses created so far. *)
Record heap : Type := mkHeap {
  matchings : list Matching;
  classes : nat
}.

(** What [run(node, symbols)] works on: the table [symbols] and the store. *)
Record state : Type := mkState {
  st_symbols : SymbolTable;
  st_heap : heap
}.

Fixpoint list_set {A} (l : list A) (k : nat) (x : A) : list A :=
  match l, k with
  | [], _ => []
  | _ :: r, 0 => x :: r
  | y :: r, S k' => y :: list_set r k' x
  end.

Definition heap_set (h : heap) (m : nat) (x : Matching) : heap :=
  mkHeap (list_set (matchings h) m x) (classes h).

(** ** The host language *)

(** Python operations the source applies to values without defining them:
    [int] and [float] of a token, the prefix operations ([len], [abs],
    [float], unary [+] and [-], the [math] functions), the infix
    operators, [a[b]] and [getattr] where the receiver is not handled by
    [obj]'s own methods; and [repr] of a [CNAME] token of the parser,
    given by its text. *)
Record PyHost : Type := mkPyHost {
  py_int : string -> outcome Z;
  py_float : string -> outcome float;
  py_unary : string -> value -> outcome value;
  py_binary : string -> value -> value -> outcome value;
  py_getitem : value -> value -> outcome value;
  py_getattr : value -> string -> outcome value;
  py_repr_token : string -> string
}.

(** ** itertools.product *)

(** [tuple(pool)], as [itertools.product] applies it to each argument.
    An [obj] has [__getitem__] but no [__iter__]: iteration asks for
    [self._fields[0]]. *)
Definition iterate (v : value) : outcome (list value) :=
  match v with
  | VList l => Ok l
  | VStr s => Ok (map (fun c => VStr (String c EmptyString)) (list_ascii_of_string s))
  | VObj _ _ => Raise (Exn "KeyError" "0" None)
  | _ => Raise (Exn "TypeError" ("'" ++ type_name v ++ "' object is not iterable") None)
  end.

Fixpoint iterate_all (vs : list value) : outcome (list (list value)) :=
  match vs with
  | [] => Ok []
  | v :: r =>
      match iterate v with
      | Ok pool =>
          match iterate_all r with
          | Ok pools => Ok (pool :: pools)
          | Raise e => Raise e
          | Halt a => Halt a
          end
      | Raise e => Raise e
      | Halt a => Halt a
      end
  end.

(** The documented equivalent of [itertools.product]:
    [result = [[]]], then for each pool
    [result = [x + [y] for x in result for y in pool]]. *)
Definition product_step {A} (result : list (list A)) (pool : list A) : list (list A) :=
  flat_map (fun x => map (fun y => (x ++ [y])%list) pool) result.

Definition product {A} (pools : list (list A)) : list (list A) :=
  fold_left product_step pools [[]].

(** ** The evaluator *)

(** The handler shared by the [Call], [Subscript], [Attribute] and [Symbol]
    branches: a [RuntimeError] built from the node's line, the class name
    and text of the error caught. Raised inside the [except] block, it
    gets the error caught as its [__context__]. *)
Definition wrap (line : option nat) (err : exn) : exn :=
  Exn "RuntimeError"
      ("on line " ++ (match line with None => "???" | Some l => str_nat l end)
       ++ ", encountered " ++ exn_kind err ++ ": " ++ exn_msg err)
      (Some err).

(** [try: m except Exception as err: raise RuntimeError(...)]. *)
Definition try_except {A} (line : option nat) (m : M state A) : M state A :=
  fun st =>
    match m st with
    | (st', Raise err) => (st', Raise (wrap line err))
    | other => other
    end.

(** [symbols[symbol]]. *)
Definition lookup (symbol : string) : M state value :=
  fun st => (st, SymbolTable_getitem (st_symbols st) symbol).

(** [symbols[symbol] = v]. *)
Definition assign (symbol : string) (v : value) : M state unit :=
  fun st =>
    match SymbolTable_setitem (st_symbols st) symbol v with
    | Ok t => (mkState t (st_heap st), Ok tt)
    | Raise e => (st, Raise e)
    | Halt a => (st, Halt a)
    end.

(** Runs [m] with [SymbolTable(symbols, d)] as the table, then goes back
    to [symbols]; on success also hands back what [d] has become. *)
Definition with_child {A} (d : dict) (m : M state A) : M state (dict * A) :=
  fun st =>
    let '(st', r) := m (mkState (mkSymbolTable (Some (st_symbols st)) d) (st_heap st)) in
    let back := match parent (st_symbols st') with
                | Some up => up
                | None => st_symbols st
                end in
    (mkState back (st_heap st'),
     match r with
     | Ok a => Ok (symbols (st_symbols st'), a)
     | Raise e => Raise e
     | Halt a => Halt a
     end).

(** Dereferences the [Matching] at address [m]. *)
Definition the_matching (m : nat) : M state Matching :=
  fun st =>
    match nth_error (matchings (st_heap st)) m with
    | Some x => (st, Ok x)
    | None => (st, Halt Malformed)
    end.

Definition no_attribute (attr : string) : exn :=
  Exn "AttributeError" ("'Matching' object has no attribute " ++ repr_str attr) None.

(** [matching.i]. *)
Definition current_index (m : nat) : M state nat :=
  x <- the_matching m ;;
  match Matching_i x with
  | Some i => ret i
  | None => raise (no_attribute "i")
  end.

(** [Matching.Placeholder.value]: [self.m.row[self.n]]. *)
Definition Placeholder_value (m n : nat) : M state value :=
  x <- the_matching m ;;
  match Matching_row x with
  | None => raise (no_attribute "row")
  | Some row =>
      match nth_error row n with
      | Some v => ret v
      | None => raise (Exn "IndexError" "tuple index out of range" None)
      end
  end.

(** [self.i, self.row = i, row]. *)
Definition set_current (m i : nat) (row : list value) : M state unit :=
  fun st =>
    match nth_error (matchings (st_heap st)) m with
    | Some x =>
        (mkState (st_symbols st)
                 (heap_set (st_heap st) m (mkMatching (collections x) (Some i) (Some row))),
         Ok tt)
    | None => (st, Halt Malformed)
    end.

(** [arguments[k]]. *)
Definition argument (arguments : list ast) (k : nat) : M state ast :=
  match nth_error arguments k with
  | Some a => ret a
  | None => raise (Exn "IndexError" "list index out of range" None)
  end.

Definition opt_value {A} (o : option A) (f : A -> M state value) : M state value :=
  match o with
  | None => ret VNone
  | Some a => f a
  end.

Section Evaluator.

Variable host : PyHost.

(** [obj.__getitem__] for a [str] key; every other [a[b]] is the host's. *)
Definition getitem (o ix : value) : outcome value :=
  match o, ix with
  | VObj _ fields, VStr k =>
      match dict_get fields k with
      | Some v => Ok v
      | None => Raise (Exn "KeyError" (repr_str k) None)
      end
  | _, _ => py_getitem host o ix
  end.

(** [getattr(o, field)]. On an [obj], names found by the ordinary lookup
    ([_id], [_fields] and what the classes define) all start with an
    underscore and are left to the host; the others reach
    [obj.__getattr__]. The name is the [field] of an [Attribute] node,
    which [toast] leaves as the parser made it: a token, a [str] as a
    key of [_fields], with the [repr] of a token in the error. *)
Definition getattr (o : value) (field : string) : outcome value :=
  match o with
  | VObj _ fields =>
      if starts_with_underscore field then py_getattr host o field
      else
        match dict_get fields field with
        | Some v => Ok v
        | None =>
            Raise (Exn "AttributeError"
                       (repr_str "obj" ++ " object has no attribute "
                        ++ py_repr_token host field) None)
        end
  | _ => py_getattr host o field
  end.

(** The evaluator is defined over [rec], the evaluator for the nested
    calls of [run]. *)
Section Body.

Variable rec : ast -> M state value.

(** [for x in nodes: run(x, symbols)]. *)
Fixpoint run_each (nodes : list ast) : M state unit :=
  match nodes with
  | [] => ret tt
  | x :: r => rec x ;;; run_each r
  end.

(** [[run(x, symbols) for x in nodes]]. *)
Fixpoint run_list (nodes : list ast) : M state (list value) :=
  match nodes with
  | [] => ret []
  | x :: r => v <- rec x ;; vs <- run_list r ;; ret (v :: vs)
  end.

(** The loop of [Matching.run] over [enumerate(itertools.product(...))],
    from index [i] on, collected by [list(...)] in the [Join] branch. *)
Fixpoint run_rows (m : nat) (node : ast) (i : nat) (rows : list (list value))
  : M state (list value) :=
  match rows with
  | [] => ret []
  | row :: r =>
      set_current m i row ;;;
      v <- rec node ;;
      vs <- run_rows m node (S i) r ;;
      ret (v :: vs)
  end.

(** [list(matching.run(node, symbols))]. *)
Definition Matching_run (m : nat) (node : ast) : M state (list value) :=
  x <- the_matching m ;;
  evaluated <- run_list (collections x) ;;
  pools <- lift (iterate_all evaluated) ;;
  run_rows m node 0 (product pools).

(** [run(arguments[k], symbols)]. *)
Definition run_argument (arguments : list ast) (k : nat) : M state value :=
  a <- argument arguments k ;; rec a.

(** The loop of the closure [function]:
    [for param, arg in zip(node.parameters, arguments): scope[param] = run(arg, symbols)]. *)
Fixpoint bind_parameters (params : list string) (arguments : list ast) (scope : dict)
  : M state dict :=
  match params, arguments with
  | param :: ps, a :: r =>
      v <- rec a ;; bind_parameters ps r (dict_set scope param v)
  | _, _ => ret scope
  end.

(** [sum((run(x, symbols) for x in arguments), [])], from the running
    total [acc] on. *)
Fixpoint union_from (acc : value) (arguments : list ast) : M state value :=
  match arguments with
  | [] => ret acc
  | x :: r =>
      v <- rec x ;;
      acc' <- lift (py_binary host "+" acc v) ;;
      union_from acc' r
  end.

Definition unary_names : list string :=
  ["len"; "abs"; "sqrt"; "exp"; "sin"; "cos"; "tan"; "sinh"; "cosh"; "tanh"].

Definition binary_names : list string :=
  ["=="; "!="; ">"; ">="; "<"; "<="; "*"; "**"].

Definition mem_string (s : string) (l : list string) : bool :=
  existsb (String.eqb s) l.

(** The lambda stored under [name] in [builtins], applied to
    [(arguments, symbols)]; no other name has a lambda. *)
Definition builtin (name : string) (arguments : list ast) : M state value :=
  if mem_string name unary_names then
    v <- run_argument arguments 0 ;; lift (py_unary host name v)
  else if mem_string name binary_names then
    x <- run_argument arguments 0 ;;
    y <- run_argument arguments 1 ;;
    lift (py_binary host name x y)
  else if String.eqb name "and" then
    x <- run_argument arguments 0 ;;
    if truthy x then run_argument arguments 1 else ret x
  else if String.eqb name "or" then
    x <- run_argument arguments 0 ;;
    if truthy x then ret x else run_argument arguments 1
  else if String.eqb name "not" then
    x <- run_argument arguments 0 ;; ret (VBool (negb (truthy x)))
  else if String.eqb name "+" || String.eqb name "-" then
    if Nat.eqb (List.length arguments) 1 then
      v <- run_argument arguments 0 ;; lift (py_unary host name v)
    else
      x <- run_argument arguments 0 ;;
      y <- run_argument arguments 1 ;;
      lift (py_binary host name x y)
  else if String.eqb name "/" then
    x <- run_argument arguments 0 ;;
    fx <- lift (py_unary host "float" x) ;;
    y <- run_argument arguments 1 ;;
    fy <- lift (py_unary host "float" y) ;;
    lift (py_binary host "/" fx fy)
  else if String.eqb name "union" then
    union_from (VList []) arguments
  else stop Malformed.

Definition arity_error (line : option nat) (expected got : nat) : exn :=
  Exn "TypeError"
      ("on line " ++ (match line with None => "None" | Some l => str_nat l end)
       ++ ", function expects " ++ str_nat expected
       ++ " arguments, got " ++ str_nat got) None.

(** [f(arguments, symbols)]: the closure [function] of the [Function]
    branch, a lambda of [builtins], or a value that cannot be called. *)
Definition call (f : value) (arguments : list ast) : M state value :=
  match f with
  | VFunction parameters body line =>
      if negb (Nat.eqb (List.length parameters) (List.length arguments))
      then raise (arity_error line (List.length parameters) (List.length arguments))
      else
        scope <- bind_parameters parameters arguments [] ;;
        r <- with_child scope (rec body) ;;
        ret (snd r)
  | VBuiltin name => builtin name arguments
  | _ => raise (Exn "TypeError" ("'" ++ type_name f ++ "' object is not callable") None)
  end.

Definition assertion_error (node : string) : exn :=
  Exn "AssertionError" ("<class '__main__." ++ node ++ "'>") None.

(** The body of [run(node, symbols)]. *)
Definition run_body (node : ast) : M state value :=
  match node with
  | Module statements _ =>
      run_each statements ;;; ret VNone
  | Assignment symbol _ expression _ =>
      v <- match expression with
           | Placeholder m n => Placeholder_value m n
           | _ => rec expression
           end ;;
      assign symbol v ;;; ret VNone
  | Join expression matching _ =>
      vs <- Matching_run matching expression ;; ret (VList vs)
  | Pattern assignments matching cls line =>
      n <- match matching with
           | None => ret None
           | Some m => i <- current_index m ;; ret (Some i)
           end ;;
      let id := mkID cls ("Line" ++ match line with None => "None" | Some l => str_nat l end) n in
      out <- with_child [] (run_each assignments) ;;
      ret (VObj id (fst out))
  | Function parameters body line =>
      ret (VFunction parameters body line)
  | Block statements expression _ =>
      r <- with_child [] (run_each statements ;;; rec expression) ;;
      ret (snd r)
  | Call function arguments line =>
      try_except line (f <- rec function ;; call f arguments)
  | Subscript object index line =>
      try_except line (o <- rec object ;; ix <- rec index ;; lift (getitem o ix))
  | Attribute object field line =>
      try_except line (o <- rec object ;; lift (getattr o field))
  | Slice start stop _ =>
      a <- opt_value start rec ;;
      b <- opt_value stop rec ;;
      ret (VSlice a b)
  | Symbol symbol line =>
      try_except line (lookup symbol)
  | Literal v _ =>
      ret (value_of_literal v)
  | Placeholder _ _ =>
      raise (assertion_error "Matching.Placeholder")
  end.

End Body.

(** [run(node, symbols)], with a bound [fuel] on the depth of nested
    calls in place of Python's recursion limit: a program may call a
    function from its own body. *)
Fixpoint run (fuel : nat) (node : ast) : M state value :=
  match fuel with
  | 0 => stop OutOfFuel
  | S n => run_body (run n) node
  end.

End Evaluator.

(** The table [builtins], in the order of the source. *)
Definition builtins : SymbolTable :=
  mkSymbolTable None
    (map (fun name => (name, VBuiltin name))
       ["len"; "abs"; "and"; "or"; "not"; "=="; "!="; ">"; ">="; "<"; "<=";
        "+"; "-"; "*"; "/"; "**"; "sqrt"; "exp"; "sin"; "cos"; "tan";
        "sinh"; "cosh"; "tanh"; "union"]).

(** ** Parse trees and [toast] *)

(** What lark hands to [toast]: a [Tree] with its [data] label and its
    children, or a [Token] (a [str] with a [line]). *)
Inductive parse : Type :=
| Token (text : string) (line : option nat)
| Tree (data : string) (children : list parse).

Definition opname : list (string * string) :=
  [("and", "and"); ("or", "or"); ("not", "not");
   ("eq", "=="); ("ne", "!="); ("gt", ">"); ("ge", ">="); ("lt", "<"); ("le", "<=");
   ("add", "+"); ("sub", "-"); ("mul", "*"); ("div", "/"); ("pos", "+"); ("neg", "-");
   ("pow", "**");
   ("symmetric", "~"); ("allsymmetric", "~~"); ("asymmetric", "!~");
   ("allasymmetric", "!~~")].

Fixpoint opname_get (l : list (string * string)) (k : string) : option string :=
  match l with
  | [] => None
  | (k', v) :: r => if String.eqb k' k then Some v else opname_get r k
  end.

(** What a call of [toast] returns: a node, the list of nodes of an
    [arglist], or the list of names of a [paramlist]. *)
Inductive built : Type :=
| BNode (a : ast)
| BNodes (l : list ast)
| BNames (l : list string).

Definition as_node (b : built) : M heap ast :=
  match b with BNode a => ret a | _ => stop Malformed end.
Definition as_nodes (b : built) : M heap (list ast) :=
  match b with BNodes l => ret l | _ => stop Malformed end.
Definition as_names (b : built) : M heap (list string) :=
  match b with BNames l => ret l | _ => stop Malformed end.

(** [str(x)] of a child that the grammar makes a token. *)
Definition token_text (x : parse) : M heap string :=
  match x with Token s _ => ret s | Tree _ _ => stop Malformed end.
Definition token_line (x : parse) : option nat :=
  match x with Token _ l => l | Tree _ _ => None end.

Fixpoint token_texts (l : list parse) : M heap (list string) :=
  match l with
  | [] => ret []
  | x :: r => s <- token_text x ;; ss <- token_texts r ;; ret (s :: ss)
  end.

(** [Matching()]. *)
Definition new_Matching : M heap nat :=
  fun h => (mkHeap (matchings h ++ [mkMatching [] None None])%list (classes h),
            Ok (List.length (matchings h))).

(** The second half of [Matching.replace]:
    [self.collections.append(a)] and [len(self.collections) - 1]. *)
Definition register (m : nat) (a : ast) : M heap nat :=
  fun h =>
    match nth_error (matchings h) m with
    | Some x =>
        let cs := (collections x ++ [a])%list in
        (heap_set h m (mkMatching cs (Matching_i x) (Matching_row x)),
         Ok (List.length cs - 1))
    | None => (h, Halt Malformed)
    end.

(** [type("Line{0}".format(self.line), (ID,), {})]: a class that did not
    exist before. *)
Definition new_class : M heap nat :=
  fun h => (mkHeap (matchings h) (S (classes h)), Ok (classes h)).

Definition index_error {A} : M heap A :=
  raise (Exn "IndexError" "list index out of range" None).

(** [str.format] rejects the text that the [~] branch of [toast] formats
    for its [SyntaxError]: after the numbered field [{0}], the braces of
    [{...}] open a field that asks for automatic numbering. This is the
    exception that leaves [toast] there. *)
Definition format_error : exn :=
  Exn "ValueError"
      "cannot switch from manual field specification to automatic field numbering" None.

Definition pattern_operators : list string :=
  ["symmetric"; "allsymmetric"; "asymmetric"; "allasymmetric"].

(** [[f(x) for x in l if not isinstance(x, lark.lexer.Token)]], each
    result being a node. *)
Definition toast_trees (f : parse -> M heap built) : list parse -> M heap (list ast) :=
  fix trees (l : list parse) : M heap (list ast) :=
    match l with
    | [] => ret []
    | Token _ _ :: r => trees r
    | x :: r =>
        b <- f x ;; a <- as_node b ;;
        rest <- trees r ;; ret (a :: rest)
    end.

(** [[f(x) for x in l]], each result being a node. *)
Definition toast_every (f : parse -> M heap built) : list parse -> M heap (list ast) :=
  fix every (l : list parse) : M heap (list ast) :=
    match l with
    | [] => ret []
    | x :: r =>
        b <- f x ;; a <- as_node b ;;
        rest <- every r ;; ret (a :: rest)
    end.

(** [f(l[-1])]. *)
Definition toast_last (f : parse -> M heap built) : list parse -> M heap built :=
  fix last_of (l : list parse) : M heap built :=
    match l with
    | [] => index_error
    | [x] => f x
    | _ :: r => last_of r
    end.

(** [f(l[0])] and [f(l[1])]. *)
Definition toast_first (f : parse -> M heap built) (l : list parse) : M heap built :=
  match l with
  | c0 :: _ => f c0
  | [] => index_error
  end.

Definition toast_second (f : parse -> M heap built) (l : list parse) : M heap built :=
  match l with
  | _ :: c1 :: _ => f c1
  | _ => index_error
  end.

(** [l[0]] and [l[1]]. *)
Definition first_child (l : list parse) : M heap parse :=
  match l with
  | c0 :: _ => ret c0
  | [] => index_error
  end.

Definition second_child (l : list parse) : M heap parse :=
  match l with
  | _ :: c1 :: _ => ret c1
  | _ => index_error
  end.

Section Builder.

Variable host : PyHost.

Fixpoint toast (node : parse) (matching : option nat) {struct node} : M heap built :=
  match node with
  | Token _ _ =>
      raise (Exn "AttributeError" "'Token' object has no attribute 'data'" None)
  | Tree data children =>
      let trees := toast_trees (fun x => toast x matching) in
      let every := toast_every (fun x => toast x matching) in
      let last_of := toast_last (fun x => toast x matching) in
      let child0 (mc : option nat) := toast_first (fun x => toast x mc) children in
      let child1 (mc : option nat) := toast_second (fun x => toast x mc) children in
      let token0 := first_child children in
      if String.eqb data "pass" then
        child0 matching
      else if String.eqb data "start" then
        items <- trees children ;;
        ret (BNode (Module items (first_line (map line_of items))))
      else if String.eqb data "funcassign" then
        c0 <- token0 ;;
        name <- token_text c0 ;;
        b <- last_of children ;; body <- as_node b ;;
        let params := removelast (tl children) in
        names <- token_texts params ;;
        let f := Function names body
                   (first_line (map token_line params ++ [line_of body])%list) in
        ret (BNode (Assignment name "=" f (line_of f)))
      else if String.eqb data "assignment" || String.eqb data "patassign" then
        c0 <- token0 ;;
        name <- token_text c0 ;;
        b <- child1 matching ;; e <- as_node b ;;
        ret (BNode (Assignment name "=" e (line_of e)))
      else if mem_string data pattern_operators then
        match matching with
        | None => raise format_error
        | Some m =>
            c0 <- token0 ;;
            name <- token_text c0 ;;
            op <- match opname_get opname data with
                  | Some op => ret op
                  | None => stop Malformed
                  end ;;
            (* matching.replace(node.children[1]) *)
            b <- child1 (Some m) ;; e <- as_node b ;;
            n <- register m e ;;
            ret (BNode (Assignment name op (Placeholder m n) None))
        end
      else if String.eqb data "pattern" then
        items <- trees children ;;
        let line := first_line (map line_of items) in
        cls <- new_class ;;
        ret (BNode (Pattern items matching cls line))
      else if String.eqb data "join" then
        m <- new_Matching ;;
        b <- child0 (Some m) ;; e <- as_node b ;;
        ret (BNode (Join e m (line_of e)))
      else if String.eqb data "function" then
        b0 <- child0 matching ;; names <- as_names b0 ;;
        b1 <- child1 None ;; body <- as_node b1 ;;
        ret (BNode (Function names body (line_of body)))
      else if String.eqb data "paramlist" then
        names <- token_texts children ;;
        ret (BNames names)
      else if String.eqb data "block" then
        items <- trees children ;;
        match items with
        | [x] => ret (BNode x)
        | [] => index_error
        | _ =>
            let statements := removelast items in
            let expression := last items (Placeholder 0 0) in
            ret (BNode (Block statements expression
                          (first_line (map line_of statements ++ [line_of expression])%list)))
        end
      else if String.eqb data "call" then
        b0 <- child0 matching ;; f <- as_node b0 ;;
        b1 <- child1 matching ;; args <- as_nodes b1 ;;
        ret (BNode (Call f args (first_line (line_of f :: map line_of args))))
      else if String.eqb data "arglist" then
        items <- every children ;;
        ret (BNodes items)
      else if String.eqb data "subscript" then
        b0 <- child0 matching ;; o <- as_node b0 ;;
        b1 <- child1 matching ;; ix <- as_node b1 ;;
        ret (BNode (Subscript o ix (first_line [line_of o; line_of ix])))
      else if String.eqb data "attribute" then
        b0 <- child0 matching ;; o <- as_node b0 ;;
        c1 <- second_child children ;;
        field <- token_text c1 ;;
        ret (BNode (Attribute o field (first_line [line_of o; token_line c1])))
      else if String.eqb data "slice1" then
        b0 <- child0 matching ;; a <- as_node b0 ;;
        ret (BNode (Slice (Some a) None (line_of a)))
      else if String.eqb data "slice2" then
        b0 <- child0 matching ;; a <- as_node b0 ;;
        ret (BNode (Slice None (Some a) (line_of a)))
      else if String.eqb data "slice12" then
        b0 <- child0 matching ;; a <- as_node b0 ;;
        b1 <- child1 matching ;; b <- as_node b1 ;;
        ret (BNode (Slice (Some a) (Some b) (first_line [line_of a; line_of b])))
      else if String.eqb data "symbol" then
        c0 <- token0 ;;
        name <- token_text c0 ;;
        ret (BNode (Symbol name (token_line c0)))
      else if String.eqb data "int" then
        c0 <- token0 ;;
        text <- token_text c0 ;;
        z <- lift (py_int host text) ;;
        ret (BNode (Literal (LInt z) (token_line c0)))
      else if String.eqb data "float" then
        c0 <- token0 ;;
        text <- token_text c0 ;;
        f <- lift (py_float host text) ;;
        ret (BNode (Literal (LFloat f) (token_line c0)))
      else
        match opname_get opname data with
        | Some op =>
            items <- every children ;;
            ret (BNode (Call (Symbol op None) items (first_line (map line_of items))))
        | None => raise (Exn "AssertionError" data None)
        end
  end.

End Builder.

(** ** A host instance for running programs *)

(** A finite part of Python's operators, enough to run the examples
    below: exact integer arithmetic and comparisons, binary64 arithmetic,
    [len], list concatenation and list indexing. Everything else is
    [Unmodelled]. *)
Module PyCore.

Fixpoint digits (s : string) (acc : Z) : option Z :=
  match s with
  | EmptyString => Some acc
  | String c r =>
      let n := nat_of_ascii c in
      if Nat.leb 48 n && Nat.leb n 57
      then digits r (10 * acc + Z.of_nat (n - 48))%Z
      else None
  end.

Definition int_of (text : string) : outcome Z :=
  match text with
  | EmptyString => Halt Unmodelled
  | _ => match digits text 0%Z with Some z => Ok z | None => Halt Unmodelled end
  end.

Definition float_of (text : string) : outcome float := Halt Unmodelled.

Definition unary (op : string) (v : value) : outcome value :=
  match v with
  | VInt z =>
      if String.eqb op "abs" then Ok (VInt (Z.abs z))
      else if String.eqb op "-" then Ok (VInt (- z))
      else if String.eqb op "+" then Ok (VInt z)
      else Halt Unmodelled
  | VFloat f =>
      if String.eqb op "abs" then Ok (VFloat (PrimFloat.abs f))
      else if String.eqb op "-" then Ok (VFloat (- f)%float)
      else if String.eqb op "+" then Ok (VFloat f)
      else if String.eqb op "float" then Ok (VFloat f)
      else Halt Unmodelled
  | VList l =>
      if String.eqb op "len" then Ok (VInt (Z.of_nat (List.length l)))
      else Halt Unmodelled
  | _ => Halt Unmodelled
  end.

Definition binary (op : string) (a b : value) : outcome value :=
  match a, b with
  | VInt x, VInt y =>
      if String.eqb op "+" then Ok (VInt (x + y))
      else if String.eqb op "-" then Ok (VInt (x - y))
      else if String.eqb op "*" then Ok (VInt (x * y))
      else if String.eqb op "==" then Ok (VBool (x =? y)%Z)
      else if String.eqb op "!=" then Ok (VBool (negb (x =? y)%Z))
      else if String.eqb op "<" then Ok (VBool (x <? y)%Z)
      else if String.eqb op "<=" then Ok (VBool (x <=? y)%Z)
      else if String.eqb op ">" then Ok (VBool (y <? x)%Z)
      else if String.eqb op ">=" then Ok (VBool (y <=? x)%Z)
      else Halt Unmodelled
  | VFloat x, VFloat y =>
      if String.eqb op "+" then Ok (VFloat (x + y)%float)
      else if String.eqb op "-" then Ok (VFloat (x - y)%float)
      else if String.eqb op "*" then Ok (VFloat (x * y)%float)
      else if String.eqb op "/" then
        if PrimFloat.eqb y 0%float
        then Raise (Exn "ZeroDivisionError" "float division by zero" None)
        else Ok (VFloat (x / y)%float)
      else Halt Unmodelled
  | VList x, VList y =>
      if String.eqb op "+" then Ok (VList (x ++ y)%list) else Halt Unmodelled
  | _, _ => Halt Unmodelled
  end.

Definition item (a ix : value) : outcome value :=
  match a, ix with
  | VList l, VInt z =>
      let n := Z.of_nat (List.length l) in
      let k := if (z <? 0)%Z then (z + n)%Z else z in
      if ((0 <=? k) && (k <? n))%Z
      then match nth_error l (Z.to_nat k) with
           | Some v => Ok v
           | None => Halt Unmodelled
           end
      else Raise (Exn "IndexError" "list index out of range" None)
  | _, _ => Halt Unmodelled
  end.

Definition attr (a : value) (field : string) : outcome value := Halt Unmodelled.

(** [Token.__repr__], with the type printed bare. *)
Definition repr_token (text : string) : string :=
  "Token(CNAME, " ++ repr_str text ++ ")".

Definition host : PyHost := mkPyHost int_of float_of unary binary item attr repr_token.

End PyCore.

Definition empty_heap : heap := mkHeap [] 0.

(** ** Notions used by the statements *)

(** What [run] may do to the table it is given: keep its parent, keep
    every binding of its own [symbols], and keep the keys of [symbols]
    distinct. *)
Definition table_grows (t t' : SymbolTable) : Prop :=
  parent t' = parent t
  /\ (forall k v, dict_get (symbols t) k = Some v -> dict_get (symbols t') k = Some v)
  /\ (NoDup (keys (symbols t)) -> NoDup (keys (symbols t'))).

Definition grows {A} (m : M state A) : Prop :=
  forall st st' r, m st = (st', r) -> table_grows (st_symbols st) (st_symbols st').

(** The product of the lengths of the pools. *)
Definition cardinality {A} (pools : list (list A)) : nat :=
  fold_right (fun pool n => List.length pool * n) 1 pools.

(** The [i]-th tuple of the Cartesian product in row-major order, if
    there is one: the index of a slot is [i] divided by the number of
    combinations of the slots after it, the remainder going to those
    slots. *)
Fixpoint row_major {A} (pools : list (list A)) (i : nat) : option (list A) :=
  match pools with
  | [] => match i with 0 => Some [] | S _ => None end
  | pool :: rest =>
      let stride := cardinality rest in
      match nth_error pool (i / stride), row_major rest (i mod stride) with
      | Some x, Some r => Some (x :: r)
      | _, _ => None
      end
  end.

(** [enumerated rec m node i rows st out st']: starting in [st], for each
    row in turn, counted from [i], the index and the row are stored in
    the [Matching] at [m], [node] is evaluated by [rec] and succeeds;
    [out] lists the results and [st'] is the final state. *)
Inductive enumerated (rec : ast -> M state value) (m : nat) (node : ast)
  : nat -> list (list value) -> state -> list value -> state -> Prop :=
| enumerated_nil : forall i st, enumerated rec m node i [] st [] st
| enumerated_cons : forall i row rows st x st1 v out st',
    nth_error (matchings (st_heap st)) m = Some x ->
    rec node (mkState (st_symbols st)
                (heap_set (st_heap st) m (mkMatching (collections x) (Some i) (Some row))))
      = (st1, Ok v) ->
    enumerated rec m node (S i) rows st1 out st' ->
    enumerated rec m node i (row :: rows) st (v :: out) st'.

(** [in_turn rec nodes st vs st']: starting in [st], the nodes are
    evaluated by [rec] one after the other, each once and each from the
    state the one before it left; all succeed, [vs] lists the results in
    the order of the nodes and [st'] is the final state. *)
Inductive in_turn (rec : ast -> M state value)
  : list ast -> state -> list value -> state -> Prop :=
| in_turn_nil : forall st, in_turn rec [] st [] st
| in_turn_cons : forall x r st s1 v vs st',
    rec x st = (s1, Ok v) ->
    in_turn rec r s1 vs st' ->
    in_turn rec (x :: r) st (v :: vs) st'.

(** [row[k]] for the tuple [row]. *)
Definition selected (row : list value) (k : nat) : outcome value :=
  match nth_error row k with
  | Some e => Ok e
  | None => Raise (Exn "IndexError" "tuple index out of range" None)
  end.

(** The [Matching] objects of the [Join] nodes of a tree, the bodies of
    its [Function] nodes included. *)
Fixpoint joins (a : ast) : list nat :=
  match a with
  | Module statements _ => flat_map joins statements
  | Assignment _ _ expression _ => joins expression
  | Pattern assignments _ _ _ => flat_map joins assignments
  | Join expression matching _ => matching :: joins expression
  | Function _ body _ => joins body
  | Block statements expression _ => (flat_map joins statements ++ joins expression)%list
  | Call function arguments _ => (joins function ++ flat_map joins arguments)%list
  | Subscript object index _ => (joins object ++ joins index)%list
  | Attribute object _ _ => joins object
  | Slice start stop _ =>
      (match start with Some a => joins a | None => [] end
       ++ match stop with Some b => joins b | None => [] end)%list
  | Symbol _ _ | Literal _ _ | Placeholder _ _ => []
  end.

(** The [Join] nodes a value can lead evaluation to: those of the bodies
    of the functions found in it. *)
Fixpoint value_joins (v : value) : list nat :=
  match v with
  | VList l => flat_map value_joins l
  | VSlice a b => (value_joins a ++ value_joins b)%list
  | VObj _ fields => flat_map (fun kv => value_joins (snd kv)) fields
  | VFunction _ body _ => joins body
  | VNone | VBool _ | VInt _ | VFloat _ | VStr _ | VBuiltin _ => []
  end.

Definition dict_joins (d : dict) : list nat :=
  flat_map (fun kv => value_joins (snd kv)) d.

(** Those of the values of a table and of its ancestors. *)
Fixpoint table_joins (t : SymbolTable) : list nat :=
  match t with
  | mkSymbolTable p d =>
      (dict_joins d ++ match p with Some up => table_joins up | None => [] end)%list
  end.

(** Those of the candidate expressions of a [Matching] and of the row it
    holds. *)
Definition Matching_joins (x : Matching) : list nat :=
  (flat_map joins (collections x)
   ++ match Matching_row x with
      | Some row => flat_map value_joins row
      | None => []
      end)%list.

Definition store_joins (h : heap) : list nat := flat_map Matching_joins (matchings h).

(** The [Join] nodes that evaluation can reach from a state without being
    handed them: through a function of the table, a candidate expression
    or an element of a stored row. *)
Definition state_joins (st : state) : list nat :=
  (table_joins (st_symbols st) ++ store_joins (st_heap st))%list.

(** The host's operations build no functions of this language: what a
    result can lead to, an operand could lead to. *)
Definition host_adds_no_join (host : PyHost) : Prop :=
  (forall op v w, py_unary host op v = Ok w -> incl (value_joins w) (value_joins v))
  /\ (forall op a b w, py_binary host op a b = Ok w ->
        incl (value_joins w) (value_joins a ++ value_joins b))
  /\ (forall a b w, py_getitem host a b = Ok w ->
        incl (value_joins w) (value_joins a ++ value_joins b))
  /\ (forall a f w, py_getattr host a f = Ok w -> incl (value_joins w) (value_joins a)).

(** [undisturbed m P Q]: from a state that cannot reach the [Join] of the
    [Matching] at [m], the step [P] ends in such a state again, leaves
    that [Matching] as it was, and what it returns satisfies [Q]. *)
Definition undisturbed (m : nat) {A} (P : M state A) (Q : A -> Prop) : Prop :=
  forall st st' r,
    ~ In m (state_joins st) ->
    P st = (st', r) ->
    ~ In m (state_joins st')
    /\ nth_error (matchings (st_heap st')) m = nth_error (matchings (st_heap st)) m
    /\ forall a, r = Ok a -> Q a.

(** The classes of the [Pattern] nodes of a tree, one entry per node. *)
Fixpoint pattern_tags (a : ast) : list nat :=
  match a with
  | Module statements _ => flat_map pattern_tags statements
  | Assignment _ _ expression _ => pattern_tags expression
  | Pattern assignments _ cls _ => cls :: flat_map pattern_tags assignments
  | Join expression _ _ => pattern_tags expression
  | Function _ body _ => pattern_tags body
  | Block statements expression _ =>
      (flat_map pattern_tags statements ++ pattern_tags expression)%list
  | Call function arguments _ =>
      (pattern_tags function ++ flat_map pattern_tags arguments)%list
  | Subscript object index _ => (pattern_tags object ++ pattern_tags index)%list
  | Attribute object _ _ => pattern_tags object
  | Slice start stop _ =>
      (match start with Some a => pattern_tags a | None => [] end
       ++ match stop with Some b => pattern_tags b | None => [] end)%list
  | Symbol _ _ | Literal _ _ | Placeholder _ _ => []
  end.

Definition built_tags (b : built) : list nat :=
  match b with
  | BNode a => pattern_tags a
  | BNodes l => flat_map pattern_tags l
  | BNames _ => []
  end.

(** The classes of the [Pattern] nodes held in the [collections] of the
    [Matching] objects. *)
Definition heap_tags (h : heap) : list nat :=
  flat_map (fun x => flat_map pattern_tags (collections x)) (matchings h).

(** The line a node of one of the three wrapping classes reports. *)
Definition wrapping_line (node : ast) : option (option nat) :=
  match node with
  | Call _ _ l | Subscript _ _ l | Attribute _ _ l => Some l
  | _ => None
  end.

(** [scope] after the loop of the closure, for the argument values [vs]. *)
Fixpoint bound_parameters (params : list string) (vs : list value) (scope : dict) : dict :=
  match params, vs with
  | param :: ps, v :: r => bound_parameters ps r (dict_set scope param v)
  | _, _ => scope
  end.

(** The value an [Assignment] binds: the selected element for a
    [Placeholder], the result of evaluation otherwise. *)
Definition assigned (rec : ast -> M state value) (expression : ast) : M state value :=
  match expression with
  | Placeholder m n => Placeholder_value m n
  | _ => rec expression
  end.

(** The sub-expression a wrapping node evaluates first. *)
Definition first_operand (node : ast) : option ast :=
  match node with
  | Call function _ _ => Some function
  | Subscript object _ _ => Some object
  | Attribute object _ _ => Some object
  | _ => None
  end.

(** What [except Exception as err: raise RuntimeError(...)] turns an
    outcome into. *)
Definition annotated {A} (line : option nat) (r : outcome A) : outcome A :=
  match r with
  | Raise err => Raise (wrap line err)
  | other => other
  end.

(** The number of entries [t] in a list of classes. *)
Definition tally (l : list nat) (t : nat) : nat := count_occ Nat.eq_dec l t.

(** [accounts c m T]: when [m] returns [a], no class is forgotten and
    none is made up: the classes of [a] (given by [T]) and of the store
    afterwards are those of [c], of the store before, and the classes
    created in between, each as often. *)
Definition accounts {A} (c : list nat) (m : M heap A) (T : A -> list nat) : Prop :=
  forall h h' a,
    m h = (h', Ok a) ->
    classes h <= classes h'
    /\ forall t,
         tally (T a) t + tally (heap_tags h') t
         = tally c t + tally (heap_tags h) t
           + tally (seq (classes h) (classes h' - classes h)) t.

(** A step that leaves the store alone. *)
Definition pure {A} (m : M heap A) : Prop :=
  forall h h' a, m h = (h', Ok a) -> h' = h.

(** ** Example programs *)

Module Examples.

Definition tok (s : string) (l : nat) : parse := Token s (Some l).
Definition pass (x : parse) : parse := Tree "pass" [x].
Definition name (s : string) (l : nat) : parse := pass (pass (Tree "symbol" [tok s l])).
Definition num (s : string) (l : nat) : parse := pass (pass (Tree "int" [tok s l])).
Definition newline : parse := Token (String (ascii_of_nat 10) EmptyString) None.

(** [z = join { xi ~ x ; yi ~ y }], the second program the source runs
    (runs of [pass] nodes shortened). *)
Definition join_text : parse :=
  Tree "start"
    [newline;
     pass (Tree "assignment"
             [tok "z" 2;
              pass (Tree "join"
                      [pass (Tree "pattern"
                               [newline;
                                Tree "symmetric" [tok "xi" 3; name "x" 3]; newline;
                                Tree "symmetric" [tok "yi" 4; name "y" 4]; newline])])]);
     newline].

Definition join_scope : SymbolTable :=
  mkSymbolTable (Some builtins)
    [("x", VList [VFloat 1.1; VFloat 2.2; VFloat 3.3]);
     ("y", VList [VStr "A"; VStr "B"])].

(** [a = 1; f(x) = a; q = { a = 2; f(0) }]. *)
Definition scoping_text : parse :=
  Tree "start"
    [pass (Tree "assignment" [tok "a" 1; num "1" 1]);
     pass (Tree "funcassign" [tok "f" 2; tok "x" 2; Tree "block" [name "a" 2]]);
     pass (Tree "assignment"
             [tok "q" 3;
              pass (Tree "block"
                      [pass (Tree "assignment" [tok "a" 3; num "2" 3]);
                       pass (Tree "call" [name "f" 3; Tree "arglist" [num "0" 3]])])])].

Definition scoping_module : ast :=
  Module
    [Assignment "a" "=" (Literal (LInt 1) (Some 1)) (Some 1);
     Assignment "f" "=" (Function ["x"] (Symbol "a" (Some 2)) (Some 2)) (Some 2);
     Assignment "q" "="
       (Block [Assignment "a" "=" (Literal (LInt 2) (Some 3)) (Some 3)]
              (Call (Symbol "f" (Some 3)) [Literal (LInt 0) (Some 3)] (Some 3))
              (Some 3))
       (Some 3)]
    (Some 1).

Definition fresh_state : state := mkState (mkSymbolTable (Some builtins) []) empty_heap.

(** [f(n) = join {a ~ xs; r = n == 0 or f(n - 1); b ~ ys}; z = f(1)]:
    the body of the join calls the function that holds the join. *)
Definition reentrant_text : parse :=
  Tree "start"
    [pass (Tree "funcassign"
             [tok "f" 1; tok "n" 1;
              Tree "block"
                [pass (Tree "join"
                   [pass (Tree "pattern"
                      [Tree "symmetric" [tok "a" 1; name "xs" 1];
                       Tree "patassign"
                         [tok "r" 1;
                          pass (Tree "or"
                                  [pass (Tree "eq" [name "n" 1; num "0" 1]);
                                   pass (Tree "call"
                                           [name "f" 1;
                                            Tree "arglist"
                                              [pass (Tree "sub" [name "n" 1; num "1" 1])]])])];
                       Tree "symmetric" [tok "b" 1; name "ys" 1]])])]]);
     pass (Tree "assignment"
             [tok "z" 1; pass (Tree "call" [name "f" 1; Tree "arglist" [num "1" 1]])])].

Definition reentrant_module : ast :=
  Module
    [Assignment "f" "="
       (Function ["n"]
          (Join
             (Pattern
                [Assignment "a" "~" (Placeholder 0 0) None;
                 Assignment "r" "="
                   (Call (Symbol "or" None)
                      [Call (Symbol "==" None)
                         [Symbol "n" (Some 1); Literal (LInt 0) (Some 1)] (Some 1);
                       Call (Symbol "f" (Some 1))
                         [Call (Symbol "-" None)
                            [Symbol "n" (Some 1); Literal (LInt 1) (Some 1)] (Some 1)]
                         (Some 1)]
                      (Some 1))
                   (Some 1);
                 Assignment "b" "~" (Placeholder 0 1) None]
                (Some 0) 0 (Some 1))
             0 (Some 1))
          (Some 1))
       (Some 1);
     Assignment "z" "="
       (Call (Symbol "f" (Some 1)) [Literal (LInt 1) (Some 1)] (Some 1))
       (Some 1)]
    (Some 1).

(** The store [toast] leaves for it: the one [Matching], with the two
    candidate expressions, and the one class of the pattern. *)
Definition reentrant_heap : heap :=
  mkHeap [mkMatching [Symbol "xs" (Some 1); Symbol "ys" (Some 1)] None None] 1.

Definition reentrant_scope : SymbolTable :=
  mkSymbolTable (Some builtins)
    [("xs", VList [VInt 1; VInt 2]); ("ys", VList [VInt 10; VInt 20])].

(** Two textually identical pattern blocks on one line:
    [a = {x = 1}; b = {x = 1}]. *)
Definition twin_text : parse :=
  Tree "start"
    [Tree "pass" [Tree "assignment"
       [Token "a" (Some 1);
        Tree "pass" [Tree "pattern"
          [Tree "patassign" [Token "x" (Some 1);
                             Tree "pass" [Tree "int" [Token "1" (Some 1)]]]]]]];
     Tree "pass" [Tree "assignment"
       [Token "b" (Some 1);
        Tree "pass" [Tree "pattern"
          [Tree "patassign" [Token "x" (Some 1);
                             Tree "pass" [Tree "int" [Token "1" (Some 1)]]]]]]]].

End Examples.

(** ** Further notions: the rest of the file *)

(** The [symbols] of a table and of its ancestors, innermost first. *)
Fixpoint chain (t : SymbolTable) : list dict :=
  match t with
  | mkSymbolTable None d => [d]
  | mkSymbolTable (Some up) d => d :: chain up
  end.

(** What [run] may do to the store: nothing to the classes, nothing to
    the number of [Matching] objects or to their [collections]. *)
Definition heap_kept (h h' : heap) : Prop :=
  classes h' = classes h
  /\ map collections (matchings h') = map collections (matchings h).

(** What [toast] under the matching context [mc] may do to the store:
    every [Matching] it finds is still there, with its [i] and [row], and
    with its [collections] extended at the end; only the context's own
    [collections] may have grown. *)
Definition heap_extends (mc : option nat) (h h' : heap) : Prop :=
  classes h <= classes h'
  /\ forall k x,
       nth_error (matchings h) k = Some x ->
       exists x' suffix,
         nth_error (matchings h') k = Some x'
         /\ collections x' = (collections x ++ suffix)%list
         /\ Matching_i x' = Matching_i x
         /\ Matching_row x' = Matching_row x
         /\ (mc <> Some k -> suffix = []).

Definition frames {A} (mc : option nat) (m : M heap A) : Prop :=
  forall h h' r, m h = (h', r) -> heap_extends mc h h'.

(** [respects R m]: the states before and after [m] are related by [R]. *)
Definition respects (R : state -> state -> Prop) {A} (m : M state A) : Prop :=
  forall st st' r, m st = (st', r) -> R st st'.

(** The name [Pattern.__init__] gives the class it creates. *)
Definition Line_name (line : option nat) : string :=
  "Line" ++ match line with None => "None" | Some l => str_nat l end.

(** The assignments [toast] builds for [name1 ~ ...; name2 ~ ...; ...]
    when the right-hand sides take the slots from [j] on: each name with
    its operator and the [Placeholder] of its slot. *)
Fixpoint slot_bindings (m j : nat) (names : list (string * string)) : list ast :=
  match names with
  | [] => []
  | (name, op) :: r => Assignment name op (Placeholder m j) None :: slot_bindings m (S j) r
  end.

(** One record per row, counted from [i]: the fields are the names with
    the elements of the row. *)
Fixpoint labelled (cls : nat) (cname : string) (i : nat) (names : list string)
                  (rows : list (list value)) : list value :=
  match rows with
  | [] => []
  | row :: r =>
      VObj (mkID cls cname (Some i)) (combine names row)
      :: labelled cls cname (S i) names r
  end.

(** [type(node).__name__]. *)
Definition class_of (a : ast) : string :=
  match a with
  | Module _ _ => "Module"
  | Assignment _ _ _ _ => "Assignment"
  | Pattern _ _ _ _ => "Pattern"
  | Join _ _ _ => "Join"
  | Function _ _ _ => "Function"
  | Block _ _ _ => "Block"
  | Call _ _ _ => "Call"
  | Subscript _ _ _ => "Subscript"
  | Attribute _ _ _ => "Attribute"
  | Slice _ _ _ => "Slice"
  | Symbol _ _ => "Symbol"
  | Literal _ _ => "Literal"
  | Placeholder _ _ => "Placeholder"
  end.

(** What [getattr(self, n)] gives for a field, as far as [str.join] looks
    at it: a [str], or a value of another type, by the name of the type. *)
Inductive field : Type :=
| FStr (s : string)
| FOther (type : string).

Definition optional_class (o : option ast) : string :=
  match o with
  | None => "NoneType"
  | Some a => class_of a
  end.

(** [[getattr(self, n) for n in self._fields]]. *)
Definition fields_of (a : ast) : option (list field) :=
  match a with
  | Module _ _ => Some [FOther "list"]
  | Assignment symbol operator expression _ =>
      Some [FStr symbol; FStr operator; FOther (class_of expression)]
  | Pattern _ matching _ _ =>
      Some [FOther "list";
            FOther (match matching with None => "NoneType" | Some _ => "Matching" end)]
  | Join expression _ _ => Some [FOther (class_of expression); FOther "Matching"]
  | Function _ body _ => Some [FOther "list"; FOther (class_of body)]
  | Block _ expression _ => Some [FOther "list"; FOther (class_of expression)]
  | Call function _ _ => Some [FOther (class_of function); FOther "list"]
  | Subscript object index _ => Some [FOther (class_of object); FOther (class_of index)]
  | Attribute object name _ => Some [FOther (class_of object); FStr name]
  | Slice start stop _ => Some [FOther (optional_class start); FOther (optional_class stop)]
  | Symbol symbol _ => Some [FStr symbol]
  | Literal (LInt _) _ => Some [FOther "int"]
  | Literal (LFloat _) _ => Some [FOther "float"]
  | Placeholder _ _ => None
  end.

(** [sep.join(items)], the items counted from [k]: the first item that is
    not a [str] is a [TypeError]. *)
Fixpoint str_join (sep : string) (k : nat) (items : list field) : outcome string :=
  match items with
  | [] => Ok ""
  | FOther type :: _ =>
      Raise (Exn "TypeError"
               ("sequence item " ++ str_nat k ++ ": expected str instance, "
                ++ type ++ " found") None)
  | FStr s :: r =>
      match r with
      | [] => Ok s
      | _ =>
          match str_join sep (S k) r with
          | Ok rest => Ok (s ++ sep ++ rest)
          | other => other
          end
      end
  end.

(** [AST.__repr__]. A [Placeholder] has a [__repr__] of its own, which
    prints the address of its [Matching]. *)
Definition AST_repr (a : ast) : outcome string :=
  match fields_of a with
  | None => Halt Unmodelled
  | Some items =>
      match str_join ", " 0 items with
      | Ok inner => Ok (class_of a ++ "(" ++ inner ++ ")")
      | other => other
      end
  end.

Definition not_supported (a b : string) : exn :=
  Exn "TypeError"
      ("'<' not supported between instances of '" ++ a ++ "' and '" ++ b ++ "'") None.

(** [ID.__lt__]: by [n] within a class, by the names of the classes
    otherwise. *)
Definition ID_lt (a b : ID) : outcome bool :=
  if Nat.eqb (ID_type a) (ID_type b) then
    match ID_n a, ID_n b with
    | Some x, Some y => Ok (Nat.ltb x y)
    | None, None => Raise (not_supported "NoneType" "NoneType")
    | None, Some _ => Raise (not_supported "NoneType" "int")
    | Some _, None => Raise (not_supported "int" "NoneType")
    end
  else Ok (String.ltb (ID_name a) (ID_name b)).

(** * Properties *)

Unset Implicit Arguments.

(** ** Dictionaries and tables *)

Lemma dict_get_set_same : forall d k v, dict_get (dict_set d k v) k = Some v.
Proof.
  induction d as [|[k' v'] r IH]; intros k v; simpl.
  - now rewrite String.eqb_refl.
  - destruct (String.eqb k' k) eqn:E; simpl; rewrite E; auto.
Qed.

Lemma dict_get_set_other : forall d k v k',
  k' <> k -> dict_get (dict_set d k v) k' = dict_get d k'.
Proof.
  induction d as [|[k0 v0] r IH]; intros k v k' Hne; simpl.
  - destruct (String.eqb k k') eqn:E; auto.
    apply String.eqb_eq in E. congruence.
  - destruct (String.eqb k0 k) eqn:E; simpl.
    + apply String.eqb_eq in E. subst k0.
      destruct (String.eqb k k') eqn:E'; auto.
      apply String.eqb_eq in E'. congruence.
    + destruct (String.eqb k0 k'); auto.
Qed.

Lemma dict_get_in_keys : forall d k, dict_get d k <> None <-> In k (keys d).
Proof.
  induction d as [|[k' v'] r IH]; intros k; simpl.
  - split; [congruence | tauto].
  - destruct (String.eqb k' k) eqn:E.
    + apply String.eqb_eq in E. split; [auto | congruence].
    + apply String.eqb_neq in E. rewrite IH. split; [auto | intros [H|H]; congruence].
Qed.

Lemma dict_mem_in_keys : forall d k, dict_mem d k = true <-> In k (keys d).
Proof.
  intros d k. unfold dict_mem. rewrite <- dict_get_in_keys.
  destruct (dict_get d k); split; congruence.
Qed.

Lemma keys_set_new : forall d k v,
  dict_mem d k = false -> keys (dict_set d k v) = (keys d ++ [k])%list.
Proof.
  unfold dict_mem.
  induction d as [|[k' v'] r IH]; intros k v H; simpl in *; auto.
  destruct (String.eqb k' k); [discriminate|].
  simpl. f_equal. now apply IH.
Qed.

Lemma keys_set_old : forall d k v,
  dict_mem d k = true -> keys (dict_set d k v) = keys d.
Proof.
  unfold dict_mem.
  induction d as [|[k' v'] r IH]; intros k v H; simpl in *; [discriminate|].
  destruct (String.eqb k' k) eqn:E; simpl; auto.
  f_equal. now apply IH.
Qed.

Lemma dict_set_nodup : forall d k v, NoDup (keys d) -> NoDup (keys (dict_set d k v)).
Proof.
  intros d k v H. destruct (dict_mem d k) eqn:E.
  - now rewrite keys_set_old.
  - rewrite keys_set_new by assumption.
    apply NoDup_app; auto.
    + constructor; [simpl; tauto | constructor].
    + intros a Ha [Hb|[]]. subst a.
      apply dict_mem_in_keys in Ha. congruence.
Qed.

Lemma table_grows_refl : forall t, table_grows t t.
Proof. intros t. repeat split; auto. Qed.

Lemma table_grows_trans : forall a b c,
  table_grows a b -> table_grows b c -> table_grows a c.
Proof.
  intros a b c (P1 & G1 & N1) (P2 & G2 & N2). repeat split; auto.
  congruence.
Qed.

Lemma setitem_grows : forall t k v t',
  SymbolTable_setitem t k v = Ok t' -> table_grows t t'.
Proof.
  intros [p d] k v t'. unfold SymbolTable_setitem. simpl.
  destruct (dict_mem d k) eqn:E; [discriminate|].
  intros H. inversion H; subst t'; clear H.
  repeat split; simpl; auto.
  - intros k' v' Hg. rewrite dict_get_set_other; auto.
    intros ->. unfold dict_mem in E. rewrite Hg in E. discriminate.
  - apply dict_set_nodup.
Qed.

(** C6. Binding a name in a scope fails, with the redefinition error and
    whatever the value, exactly when the scope itself already binds the
    name. Otherwise it succeeds, also when an ancestor binds the name:
    the scope then resolves the name to the new value, other names
    resolve as before, and the ancestors are the same tables as before. *)
Theorem single_assignment_per_scope :
  forall (t : SymbolTable) (name : string) (v : value),
    ((exists e, SymbolTable_setitem t name v = Raise e)
     <-> dict_mem (symbols t) name = true)
    /\ (dict_mem (symbols t) name = true ->
        forall w, SymbolTable_setitem t name w = Raise (multiple_definitions name))
    /\ (dict_mem (symbols t) name = false ->
        exists t',
          SymbolTable_setitem t name v = Ok t'
          /\ SymbolTable_getitem t' name = Ok v
          /\ parent t' = parent t
          /\ (forall k, k <> name -> SymbolTable_getitem t' k = SymbolTable_getitem t k)).
Proof.
  intros [p d] name v. unfold SymbolTable_setitem. simpl.
  destruct (dict_mem d name) eqn:E.
  - split; [|split].
    + split; [reflexivity | intros _; eexists; reflexivity].
    + intros _ w. reflexivity.
    + discriminate.
  - split; [|split].
    + split; [intros [e He]; discriminate | discriminate].
    + discriminate.
    + intros _. eexists. split; [reflexivity|]. simpl.
      rewrite dict_get_set_same. repeat split.
      intros k Hk. now rewrite dict_get_set_other.
Qed.

(** Shadowing at work: [x] is bound to 1 in the parent and gets bound to 2
    in the child. *)
Lemma single_assignment_per_scope_witness :
  let up := mkSymbolTable None [("x", VInt 1)] in
  let t := mkSymbolTable (Some up) [] in
  exists t',
    SymbolTable_setitem t "x" (VInt 2) = Ok t'
    /\ SymbolTable_getitem t' "x" = Ok (VInt 2)
    /\ parent t' = Some up
    /\ SymbolTable_getitem up "x" = Ok (VInt 1)
    /\ SymbolTable_setitem t' "x" (VInt 2) = Raise (multiple_definitions "x").
Proof.
  intros up t.
  destruct (single_assignment_per_scope t "x" (VInt 2)) as (_ & _ & H).
  destruct (H eq_refl) as (t' & H1 & H2 & H3 & _).
  exists t'. repeat split; auto.
  destruct (single_assignment_per_scope t' "x" (VInt 2)) as (_ & H4 & _).
  apply H4. unfold dict_mem.
  assert (E : dict_get (symbols t') "x" = Some (VInt 2)).
  { vm_compute in H1. inversion H1. reflexivity. }
  now rewrite E.
Defined.

(** ** What evaluation does to the table *)

Lemma grows_ret : forall A (a : A), grows (ret a).
Proof. intros A a st st' r H. inversion H. apply table_grows_refl. Qed.

Lemma grows_raise : forall A e, grows (@raise state A e).
Proof. intros A e st st' r H. inversion H. apply table_grows_refl. Qed.

Lemma grows_stop : forall A a, grows (@stop state A a).
Proof. intros A a st st' r H. inversion H. apply table_grows_refl. Qed.

Lemma grows_lift : forall A (o : outcome A), grows (lift o).
Proof. intros A o st st' r H. inversion H. apply table_grows_refl. Qed.

Lemma grows_bind : forall A B (m : M state A) (k : A -> M state B),
  grows m -> (forall a, grows (k a)) -> grows (bind m k).
Proof.
  intros A B m k Hm Hk st st' r. unfold bind.
  destruct (m st) as [s1 [a|e|x]] eqn:E; intros H.
  - eapply table_grows_trans; [eapply Hm; eauto | eapply Hk; eauto].
  - inversion H; subst. eapply Hm; eauto.
  - inversion H; subst. eapply Hm; eauto.
Qed.

Lemma grows_try_except : forall A line (m : M state A),
  grows m -> grows (try_except line m).
Proof.
  intros A line m Hm st st' r. unfold try_except.
  destruct (m st) as [s1 [a|e|x]] eqn:E; intros H; inversion H; subst;
    eapply Hm; eauto.
Qed.

Lemma grows_lookup : forall k, grows (lookup k).
Proof. intros k st st' r H. inversion H. apply table_grows_refl. Qed.

Lemma grows_assign : forall k v, grows (assign k v).
Proof.
  intros k v st st' r. unfold assign.
  destruct (SymbolTable_setitem (st_symbols st) k v) eqn:E; intros H;
    inversion H; subst; simpl; try apply table_grows_refl.
  eapply setitem_grows; eauto.
Qed.

Lemma with_child_restores : forall A d (m : M state A) st st' r,
  grows m -> with_child d m st = (st', r) -> st_symbols st' = st_symbols st.
Proof.
  intros A d m st st' r Hm. unfold with_child.
  destruct (m _) as [s1 o] eqn:E. intros H. inversion H; subst; clear H. simpl.
  apply Hm in E. destruct E as (P & _). simpl in P. now rewrite P.
Qed.

Lemma grows_with_child : forall A d (m : M state A),
  grows m -> grows (with_child d m).
Proof.
  intros A d m Hm st st' r H.
  rewrite (with_child_restores A d m st st' r Hm H). apply table_grows_refl.
Qed.

Lemma grows_the_matching : forall m, grows (the_matching m).
Proof.
  intros m st st' r. unfold the_matching.
  destruct (nth_error _ m); intros H; inversion H; apply table_grows_refl.
Qed.

Lemma grows_set_current : forall m i row, grows (set_current m i row).
Proof.
  intros m i row st st' r. unfold set_current.
  destruct (nth_error _ m); intros H; inversion H; apply table_grows_refl.
Qed.

Lemma grows_current_index : forall m, grows (current_index m).
Proof.
  intros m. unfold current_index. apply grows_bind.
  - apply grows_the_matching.
  - intros x. destruct (Matching_i x); [apply grows_ret | apply grows_raise].
Qed.

Lemma grows_Placeholder_value : forall m n, grows (Placeholder_value m n).
Proof.
  intros m n. unfold Placeholder_value. apply grows_bind.
  - apply grows_the_matching.
  - intros x. destruct (Matching_row x) as [row|]; [|apply grows_raise].
    destruct (nth_error row n); [apply grows_ret | apply grows_raise].
Qed.

Lemma grows_argument : forall l k, grows (argument l k).
Proof.
  intros l k. unfold argument.
  destruct (nth_error l k); [apply grows_ret | apply grows_raise].
Qed.

Create HintDb grows.
#[export] Hint Resolve grows_ret grows_raise grows_stop grows_lift grows_lookup
  grows_assign grows_the_matching grows_set_current grows_current_index
  grows_Placeholder_value grows_argument grows_with_child grows_try_except : grows.

Ltac grows_step :=
  match goal with
  | |- grows (bind _ _) => apply grows_bind; [|intro]
  | |- grows (if ?b then _ else _) => destruct b
  | |- grows (match ?x with _ => _ end) => destruct x
  | |- grows _ => solve [auto with grows]
  end.

Section Growth.

Variable host : PyHost.

Section GrowthBody.

Variable rec : ast -> M state value.
Hypothesis rec_grows : forall x, grows (rec x).

Lemma grows_run_each : forall l, grows (run_each rec l).
Proof. induction l; simpl; repeat grows_step. Qed.

Lemma grows_run_list : forall l, grows (run_list rec l).
Proof. induction l; simpl; repeat grows_step. Qed.

Lemma grows_run_rows : forall m node rows i, grows (run_rows rec m node i rows).
Proof. induction rows; intros i; simpl; repeat grows_step. Qed.

Lemma grows_Matching_run : forall m node, grows (Matching_run rec m node).
Proof.
  intros m node. unfold Matching_run.
  repeat grows_step; auto using grows_run_list, grows_run_rows.
Qed.

Lemma grows_run_argument : forall l k, grows (run_argument rec l k).
Proof. intros l k. unfold run_argument. repeat grows_step. Qed.

Lemma grows_bind_parameters : forall ps l d, grows (bind_parameters rec ps l d).
Proof.
  induction ps as [|p ps IH]; intros [|a l] d; simpl; repeat grows_step.
Qed.

Lemma grows_union_from : forall l acc, grows (union_from host rec acc l).
Proof. induction l; intros acc; simpl; repeat grows_step. Qed.

Lemma grows_builtin : forall name l, grows (builtin host rec name l).
Proof.
  intros name l. unfold builtin.
  repeat grows_step; auto using grows_run_argument, grows_union_from.
Qed.

Lemma grows_call : forall f l, grows (call host rec f l).
Proof.
  intros f l. unfold call.
  destruct f; auto with grows.
  - repeat grows_step; auto using grows_bind_parameters.
  - apply grows_builtin.
Qed.

Lemma grows_run_body : forall node, grows (run_body host rec node).
Proof.
  intros node. destruct node; simpl.
  - repeat grows_step; auto using grows_run_each.
  - apply grows_bind; [|intro; repeat grows_step].
    destruct node; auto with grows.
  - apply grows_bind; [|intro; apply grows_bind; [|intro; auto with grows]].
    + destruct matching; repeat grows_step.
    + apply grows_with_child, grows_run_each.
  - repeat grows_step; auto using grows_Matching_run.
  - auto with grows.
  - apply grows_bind; [|intro; auto with grows].
    apply grows_with_child. repeat grows_step; auto using grows_run_each.
  - apply grows_try_except. repeat grows_step; auto using grows_call.
  - apply grows_try_except. repeat grows_step.
  - apply grows_try_except. repeat grows_step.
  - unfold opt_value. repeat grows_step.
  - auto with grows.
  - auto with grows.
  - auto with grows.
Qed.

End GrowthBody.

Lemma grows_run : forall fuel node, grows (run host fuel node).
Proof.
  induction fuel as [|n IH]; intros node; simpl.
  - apply grows_stop.
  - apply grows_run_body. exact IH.
Qed.

End Growth.

(** ** Sequencing *)

Lemma bind_ok : forall S A B (m : M S A) (k : A -> M S B) st s1 a,
  m st = (s1, Ok a) -> bind m k st = k a s1.
Proof. intros. unfold bind. now rewrite H. Qed.

Lemma bind_raise : forall S A B (m : M S A) (k : A -> M S B) st s1 e,
  m st = (s1, Raise e) -> bind m k st = (s1, Raise e).
Proof. intros. unfold bind. now rewrite H. Qed.

Lemma bind_inv_ok : forall S A B (m : M S A) (k : A -> M S B) st st' b,
  bind m k st = (st', Ok b) ->
  exists s1 a, m st = (s1, Ok a) /\ k a s1 = (st', Ok b).
Proof.
  intros S A B m k st st' b. unfold bind.
  destruct (m st) as [s1 [a|e|x]]; intros H; try discriminate.
  eauto.
Qed.

Lemma run_each_app : forall rec l1 l2 st,
  run_each rec (l1 ++ l2) st = bind (run_each rec l1) (fun _ => run_each rec l2) st.
Proof.
  intros rec l1. induction l1 as [|x l1 IH]; intros l2 st; simpl.
  - reflexivity.
  - unfold bind in *. destruct (rec x st) as [s1 [a|e|y]]; auto.
Qed.

Lemma the_matching_state : forall m st st' r,
  the_matching m st = (st', r) -> st' = st.
Proof.
  intros m st st' r. unfold the_matching.
  destruct (nth_error _ m); intros H; now inversion H.
Qed.

Lemma current_index_spec : forall m st st' r,
  current_index m st = (st', r) ->
  st' = st
  /\ forall i, r = Ok i ->
       exists x, nth_error (matchings (st_heap st)) m = Some x /\ Matching_i x = Some i.
Proof.
  intros m st st' r. unfold current_index, bind, the_matching.
  destruct (nth_error _ m) as [x|] eqn:E.
  - destruct (Matching_i x) as [i|] eqn:Ei; intros H; inversion H; subst; split; auto.
    + intros j Hj. inversion Hj; subst. eauto.
    + discriminate.
  - intros H; inversion H; split; auto. discriminate.
Qed.

Lemma Placeholder_value_state : forall m n st st' r,
  Placeholder_value m n st = (st', r) -> st' = st.
Proof.
  intros m n st st' r. unfold Placeholder_value, bind, the_matching.
  destruct (nth_error _ m) as [x|].
  - destruct (Matching_row x) as [row|]; [destruct (nth_error row n)|];
      intros H; now inversion H.
  - intros H; now inversion H.
Qed.

(** ** Statements and the scope they bind in *)

Section Statements.

Variable host : PyHost.

Lemma run_body_assignment : forall rec k op e l,
  run_body host rec (Assignment k op e l)
  = bind (assigned rec e) (fun v => bind (assign k v) (fun _ => ret VNone)).
Proof. intros. simpl. unfold assigned. destruct e; reflexivity. Qed.

Lemma grows_assigned : forall rec e,
  (forall x, grows (rec x)) -> grows (assigned rec e).
Proof. intros rec e H. destruct e; simpl; auto with grows. Qed.

Lemma rebinding_fails : forall rec k op e l st s1 v,
  (forall x, grows (rec x)) ->
  dict_mem (symbols (st_symbols st)) k = true ->
  assigned rec e st = (s1, Ok v) ->
  run_body host rec (Assignment k op e l) st = (s1, Raise (multiple_definitions k)).
Proof.
  intros rec k op e l st s1 v Hrec Hk He.
  rewrite run_body_assignment. rewrite (bind_ok _ _ _ _ _ _ _ _ He).
  assert (Hk1 : dict_mem (symbols (st_symbols s1)) k = true).
  { apply (grows_assigned rec e Hrec) in He. destruct He as (_ & G & _).
    unfold dict_mem in *.
    destruct (dict_get (symbols (st_symbols st)) k) eqn:E; [|discriminate].
    now rewrite (G _ _ E). }
  unfold bind, assign, SymbolTable_setitem. now rewrite Hk1.
Qed.

Lemma rebinding_never_ok : forall rec k op e l st st' r,
  (forall x, grows (rec x)) ->
  dict_mem (symbols (st_symbols st)) k = true ->
  run_body host rec (Assignment k op e l) st = (st', r) ->
  is_ok r = false.
Proof.
  intros rec k op e l st st' r Hrec Hk H.
  destruct (assigned rec e st) as [s1 [v|err|a]] eqn:He.
  - rewrite (rebinding_fails rec k op e l st s1 v Hrec Hk He) in H.
    now inversion H.
  - rewrite run_body_assignment in H. unfold bind in H. rewrite He in H.
    now inversion H.
  - rewrite run_body_assignment in H. unfold bind in H. rewrite He in H.
    now inversion H.
Qed.

Lemma assignment_binds : forall rec k op e l st st' v,
  run_body host rec (Assignment k op e l) st = (st', Ok v) ->
  dict_mem (symbols (st_symbols st')) k = true.
Proof.
  intros rec k op e l st st' v H. rewrite run_body_assignment in H.
  apply bind_inv_ok in H. destruct H as (s1 & w & _ & H).
  apply bind_inv_ok in H. destruct H as (s2 & u & Ha & H).
  inversion H; subst; clear H.
  unfold assign in Ha.
  destruct (SymbolTable_setitem (st_symbols s1) k w) as [t| |] eqn:E;
    inversion Ha; subst; clear Ha. simpl.
  unfold SymbolTable_setitem in E.
  destruct (dict_mem (symbols (st_symbols s1)) k); inversion E. simpl.
  unfold dict_mem. now rewrite dict_get_set_same.
Qed.

Lemma dict_mem_grows : forall t t' k,
  table_grows t t' -> dict_mem (symbols t) k = true -> dict_mem (symbols t') k = true.
Proof.
  intros t t' k (_ & G & _). unfold dict_mem.
  destruct (dict_get (symbols t) k) eqn:E; [|discriminate].
  now rewrite (G _ _ E).
Qed.

(** A statement list in which [k] is assigned binds [k] if it runs to
    its end. *)
Lemma run_each_binds : forall n l k op e line st st',
  In (Assignment k op e line) l ->
  run_each (run host n) l st = (st', Ok tt) ->
  dict_mem (symbols (st_symbols st')) k = true.
Proof.
  intros n l k op e line. induction l as [|x l IH]; intros st st' Hin H.
  - destruct Hin.
  - simpl in H. apply bind_inv_ok in H. destruct H as (s1 & v & Hx & Hl).
    destruct Hin as [->|Hin].
    + apply (dict_mem_grows (st_symbols s1)).
      * exact (grows_run_each (run host n) (grows_run host n) l _ _ _ Hl).
      * destruct n as [|n]; [discriminate|].
        exact (assignment_binds (run host n) k op e line st s1 v Hx).
    + exact (IH s1 st' Hin Hl).
Qed.

End Statements.

(** C8. When the statements [pre] of a [Module] have run and the next
    statement [s] raises [e], evaluation of the [Module] ends there with
    the same [e]: the statements after [s] are not run, the table keeps
    every binding it had when [s] started (nothing is rolled back), and
    each name assigned by a statement of [pre] is bound. *)
Theorem module_failure_keeps_bindings :
  forall (host : PyHost) (n : nat) (pre : list ast) (s : ast) (post : list ast)
         (line : option nat) (st st1 st2 : state) (e : exn),
    run_each (run host n) pre st = (st1, Ok tt) ->
    run host n s st1 = (st2, Raise e) ->
    run host (S n) (Module (pre ++ s :: post) line) st = (st2, Raise e)
    /\ (forall k v, dict_get (symbols (st_symbols st1)) k = Some v ->
                    dict_get (symbols (st_symbols st2)) k = Some v)
    /\ (forall k op ex l, In (Assignment k op ex l) pre ->
                          dict_mem (symbols (st_symbols st2)) k = true)
    /\ parent (st_symbols st2) = parent (st_symbols st).
Proof.
  intros host n pre s post line st st1 st2 e Hpre Hs.
  pose proof (grows_run_each (run host n) (grows_run host n) pre _ _ _ Hpre) as G1.
  pose proof (grows_run host n s _ _ _ Hs) as G2.
  split; [|split; [|split]].
  - simpl. unfold bind at 1. rewrite run_each_app.
    rewrite (bind_ok _ _ _ _ _ _ _ _ Hpre). simpl.
    rewrite (bind_raise _ _ _ _ _ _ _ _ Hs). reflexivity.
  - destruct G2 as (_ & G & _). exact G.
  - intros k op ex l Hin.
    apply (dict_mem_grows (st_symbols st1)); auto.
    exact (run_each_binds host n pre k op ex l st st1 Hin Hpre).
  - destruct G1 as (P1 & _). destruct G2 as (P2 & _). congruence.
Qed.

(** [a = 1] runs, then [b = missing] fails: [a] stays bound to 1 and the
    lookup error of [missing], annotated by the [Symbol] branch, is what
    the caller gets. *)
Lemma module_failure_keeps_bindings_witness :
  let pre := [Assignment "a" "=" (Literal (LInt 1) (Some 1)) (Some 1)] in
  let s := Assignment "b" "=" (Symbol "missing" (Some 2)) (Some 2) in
  let post := [Assignment "c" "=" (Literal (LInt 3) (Some 3)) (Some 3)] in
  exists st2,
    run PyCore.host 3 (Module (pre ++ s :: post) (Some 1)) Examples.fresh_state
    = (st2, Raise (wrap (Some 2) (Exn "KeyError" "'missing'" None)))
    /\ dict_get (symbols (st_symbols st2)) "a" = Some (VInt 1)
    /\ dict_mem (symbols (st_symbols st2)) "c" = false.
Proof.
  intros pre s post.
  destruct (module_failure_keeps_bindings PyCore.host 2 pre s post (Some 1)
              Examples.fresh_state
              (mkState (mkSymbolTable (Some builtins) [("a", VInt 1)]) empty_heap)
              (mkState (mkSymbolTable (Some builtins) [("a", VInt 1)]) empty_heap)
              (wrap (Some 2) (Exn "KeyError" "'missing'" None))
              eq_refl eq_refl) as (H1 & H2 & _).
  eexists. split; [exact H1|]. split; [apply H2|]; reflexivity.
Defined.

(** C10. A [Pattern] runs its assignments in [SymbolTable(symbols, out)]:
    when it returns, the value is the [obj] whose fields are the
    [symbols] of that child table as the assignments left them, and the
    field names are pairwise distinct. A pattern that assigns one name
    twice never returns a value; and an assignment to a name its scope
    already binds, once its right-hand side has been obtained, raises
    the redefinition error. *)
Theorem record_fields_assigned_once :
  forall (host : PyHost) (n : nat) (assignments : list ast) (matching : option nat)
         (cls : nat) (line : option nat) (st st' : state) (r : outcome value),
    run host (S n) (Pattern assignments matching cls line) st = (st', r) ->
    (forall v, r = Ok v ->
       exists id fields,
         v = VObj id fields
         /\ NoDup (keys fields)
         /\ st_symbols st' = st_symbols st
         /\ run_each (run host n) assignments
              (mkState (mkSymbolTable (Some (st_symbols st)) []) (st_heap st))
            = (mkState (mkSymbolTable (Some (st_symbols st)) fields) (st_heap st'), Ok tt))
    /\ (forall pre k op1 e1 l1 mid op2 e2 l2 post,
          assignments
          = (pre ++ Assignment k op1 e1 l1 :: mid ++ Assignment k op2 e2 l2 :: post)%list ->
          is_ok r = false)
    /\ (forall k op e l s s1 v,
          dict_mem (symbols (st_symbols s)) k = true ->
          assigned (run host n) e s = (s1, Ok v) ->
          run host (S n) (Assignment k op e l) s = (s1, Raise (multiple_definitions k))).
Proof.
  intros host n assignments matching cls line st st' r H.
  assert (Hchild : forall v, r = Ok v ->
     exists id fields,
         v = VObj id fields
         /\ NoDup (keys fields)
         /\ st_symbols st' = st_symbols st
         /\ run_each (run host n) assignments
              (mkState (mkSymbolTable (Some (st_symbols st)) []) (st_heap st))
            = (mkState (mkSymbolTable (Some (st_symbols st)) fields) (st_heap st'), Ok tt)).
  { intros v ->. simpl in H.
    apply bind_inv_ok in H. destruct H as (s0 & idx & H0 & H).
    assert (s0 = st) as ->.
    { destruct matching as [m|].
      - apply bind_inv_ok in H0. destruct H0 as (s' & i & Hi & Hr).
        apply current_index_spec in Hi. destruct Hi as (-> & _). now inversion Hr.
      - now inversion H0. }
    apply bind_inv_ok in H. destruct H as (s1 & out & Hw & H).
    inversion H; subst; clear H.
    unfold with_child in Hw.
    destruct (run_each (run host n) assignments _) as [sc rc] eqn:Hc.
    pose proof (grows_run_each (run host n) (grows_run host n) assignments _ _ _ Hc)
      as (P & _ & N).
    simpl in P, N.
    destruct rc as [[]| |]; inversion Hw; subst; clear Hw. simpl.
    eexists. eexists. split; [reflexivity|].
    split; [apply N; constructor|].
    rewrite P. split; [reflexivity|].
    destruct sc as [[p d] h]. simpl in *. now subst p. }
  split; [exact Hchild|]. split.
  - intros pre k op1 e1 l1 mid op2 e2 l2 post ->.
    destruct r as [v| |]; auto. exfalso.
    destruct (Hchild v eq_refl) as (id & fields & _ & _ & _ & Hrun).
    rewrite run_each_app in Hrun.
    apply bind_inv_ok in Hrun. destruct Hrun as (sa & [] & _ & Hrun).
    simpl in Hrun.
    apply bind_inv_ok in Hrun. destruct Hrun as (sb & v1 & H1 & Hrun).
    rewrite run_each_app in Hrun.
    apply bind_inv_ok in Hrun. destruct Hrun as (sc & [] & Hmid & Hrun).
    simpl in Hrun.
    apply bind_inv_ok in Hrun. destruct Hrun as (sd & v2 & H2 & _).
    destruct n as [|n]; [discriminate|].
    pose proof (assignment_binds host (run host n) k op1 e1 l1 sa sb v1 H1) as Hk.
    pose proof (grows_run_each (run host (S n)) (grows_run host (S n)) mid _ _ _ Hmid) as G.
    pose proof (dict_mem_grows _ _ k G Hk) as Hk'.
    pose proof (rebinding_never_ok host (run host n) k op2 e2 l2 sc sd (Ok v2)
                  (grows_run host n) Hk' H2).
    discriminate.
  - intros k op e l s s1 v Hk He. simpl run.
    apply (rebinding_fails host (run host n) k op e l s s1 v (grows_run host n) Hk He).
Qed.

(** A pattern with fields [a] and [b], and the second binding of [a] in
    a scope that already has it. *)
Lemma record_fields_assigned_once_witness :
  let pattern := Pattern [Assignment "a" "=" (Literal (LInt 1) None) None;
                          Assignment "b" "=" (Symbol "a" None) None] None 7 (Some 4) in
  let twice := Pattern [Assignment "a" "=" (Literal (LInt 1) None) None;
                        Assignment "a" "=" (Literal (LInt 1) None) None] None 7 (Some 4) in
  (exists id fields,
     snd (run PyCore.host 3 pattern Examples.fresh_state) = Ok (VObj id fields)
     /\ NoDup (keys fields))
  /\ is_ok (snd (run PyCore.host 3 twice Examples.fresh_state)) = false
  /\ snd (run PyCore.host 3 twice Examples.fresh_state)
     = Raise (multiple_definitions "a").
Proof.
  intros pattern twice. split; [|split].
  - destruct (run PyCore.host 3 pattern Examples.fresh_state) as [st' r] eqn:E.
    destruct (record_fields_assigned_once PyCore.host 2 _ _ _ _ _ _ _ E) as (H & _).
    assert (Hr : r = Ok (VObj (mkID 7 "Line4" None) [("a", VInt 1); ("b", VInt 1)])).
    { vm_compute in E. now inversion E. }
    destruct (H _ Hr) as (id & fields & Hv & Hn & _).
    exists id, fields. simpl. split; [congruence | exact Hn].
  - destruct (run PyCore.host 3 twice Examples.fresh_state) as [st' r] eqn:E.
    destruct (record_fields_assigned_once PyCore.host 2 _ _ _ _ _ _ _ E) as (_ & H & _).
    simpl. apply (H [] "a" "=" (Literal (LInt 1) None) None []
                    "=" (Literal (LInt 1) None) None []). reflexivity.
  - reflexivity.
Defined.

(** ** Closures *)

Lemma bind_parameters_run_list : forall rec ps args d st st1 vs,
  List.length ps = List.length args ->
  run_list rec args st = (st1, Ok vs) ->
  bind_parameters rec ps args d st = (st1, Ok (bound_parameters ps vs d)).
Proof.
  intros rec ps. induction ps as [|p ps IH]; intros [|a args] d st st1 vs Hl H;
    try discriminate.
  - inversion H; subst. reflexivity.
  - simpl in H. apply bind_inv_ok in H. destruct H as (s1 & v & Ha & H).
    apply bind_inv_ok in H. destruct H as (s2 & ws & Hr & H).
    inversion H; subst; clear H. simpl.
    rewrite (bind_ok _ _ _ _ _ _ _ _ Ha).
    apply IH; auto.
Qed.

(** C1, as the code has it. A [Function] node evaluates to a value that
    holds the node and no table. A call from a table [T] with as many
    arguments as parameters evaluates the arguments in [T], binds the
    parameters to the results in a fresh [dict], and evaluates the body
    in a new table whose parent is [T], the caller's table: a name of
    the body that is not a parameter is looked up in [T]. *)
Theorem function_body_runs_under_caller :
  forall (host : PyHost) (n : nat) (params : list string) (body : ast)
         (line : option nat) (S0 T T1 : state) (args : list ast) (vs : list value),
    List.length params = List.length args ->
    run_list (run host n) args T = (T1, Ok vs) ->
    let scope := bound_parameters params vs [] in
    let inner := mkSymbolTable (Some (st_symbols T1)) scope in
    run host (S n) (Function params body line) S0 = (S0, Ok (VFunction params body line))
    /\ call host (run host n) (VFunction params body line) args T
       = (let '(st', r) := run host n body (mkState inner (st_heap T1)) in
          (mkState (st_symbols T1) (st_heap st'), r))
    /\ (forall x l h,
          dict_mem scope x = false ->
          run host (S n) (Symbol x l) (mkState inner h)
          = (mkState inner h, annotated l (SymbolTable_getitem (st_symbols T1) x))).
Proof.
  intros host n params body line S0 T T1 args vs Hlen Hargs scope inner.
  split; [reflexivity|]. split.
  - unfold call. rewrite (proj2 (Nat.eqb_eq _ _) Hlen).
    change (negb true) with false. cbv iota.
    rewrite (bind_ok _ _ _ _ _ _ _ _
               (bind_parameters_run_list _ _ _ [] _ _ _ Hlen Hargs)).
    fold scope.
    destruct (with_child scope (run host n body) T1) as [s2 r2] eqn:Hw.
    pose proof (with_child_restores _ _ _ _ _ _ (grows_run host n body) Hw) as Hs.
    unfold bind. rewrite Hw.
    unfold with_child in Hw. fold inner in Hw.
    destruct (run host n body (mkState inner (st_heap T1))) as [s3 r3].
    inversion Hw; subst; clear Hw. simpl in Hs.
    destruct r3; simpl; rewrite Hs; reflexivity.
  - intros x l h Hx. simpl. unfold try_except, lookup. simpl.
    unfold dict_mem in Hx. fold scope.
    destruct (dict_get scope x); [discriminate|].
    destruct (SymbolTable_getitem (st_symbols T1) x); reflexivity.
Qed.

(** The function of the second example called from a table that binds
    [a] to 2: its body [a] gives 2. *)
Lemma function_body_runs_under_caller_witness :
  let T := mkState (mkSymbolTable (Some builtins) [("a", VInt 2)]) empty_heap in
  call PyCore.host (run PyCore.host 2) (VFunction ["x"] (Symbol "a" (Some 2)) (Some 2))
       [Literal (LInt 0) (Some 3)] T
  = (T, Ok (VInt 2)).
Proof.
  intros T.
  destruct (function_body_runs_under_caller PyCore.host 2 ["x"] (Symbol "a" (Some 2))
              (Some 2) T T T [Literal (LInt 0) (Some 3)] [VInt 0] eq_refl eq_refl)
    as (_ & H & _).
  rewrite H. reflexivity.
Defined.

(** C1 fails on the code. [f] is built while the module's table, where
    [a] is 1, is current, and is called from the table of a block, where
    [a] is 2: the call gives 2, the value in the caller's table. *)
Lemma lexical_closure_counterexample :
  toast PyCore.host Examples.scoping_text None empty_heap
  = (empty_heap, Ok (BNode Examples.scoping_module))
  /\ exists st',
       run PyCore.host 6 Examples.scoping_module Examples.fresh_state = (st', Ok VNone)
       /\ dict_get (symbols (st_symbols st')) "a" = Some (VInt 1)
       /\ dict_get (symbols (st_symbols st')) "f"
          = Some (VFunction ["x"] (Symbol "a" (Some 2)) (Some 2))
       /\ dict_get (symbols (st_symbols st')) "q" = Some (VInt 2).
Proof.
  split; [reflexivity|].
  eexists. split; [reflexivity|]. repeat split.
Qed.

(** ** Error annotation *)

Lemma try_except_raise : forall A line (m : M state A) st st' e,
  m st = (st', Raise e) -> try_except line m st = (st', Raise (wrap line e)).
Proof. intros. unfold try_except. now rewrite H. Qed.

Lemma try_except_inv : forall A line (m : M state A) st st' e,
  try_except line m st = (st', Raise e) ->
  exists cause, m st = (st', Raise cause) /\ e = wrap line cause.
Proof.
  intros A line m st st' e. unfold try_except.
  destruct (m st) as [s1 [a|c|x]]; intros H; inversion H; subst. eauto.
Qed.

Lemma run_wrapping_node : forall host n node line,
  wrapping_line node = Some line ->
  exists m, run host (S n) node = try_except line m.
Proof.
  intros host n node line H.
  destruct node; try discriminate; inversion H; subst; simpl; eauto.
Qed.

(** C4. For a [Call], [Subscript] or [Attribute] node: every error that
    leaves its evaluation is a [RuntimeError] built by the node's handler
    from an error [cause] - its text gives the node's line ([???] when
    the node has none), the class name of [cause] and the text of
    [cause], and [cause] is its context; the failure of the first
    operand, of the index of a [Subscript] and of the call of the callee
    all leave annotated in this way; and below a chain [Attribute] over
    [Call] over [Subscript], a failure leaves with the line of the
    [Attribute] outermost and the original error at the end of the chain
    of contexts. *)
Theorem failures_leave_annotated :
  forall (host : PyHost) (n : nat) (node : ast) (line : option nat),
    wrapping_line node = Some line ->
    (forall st st' e,
       run host (S n) node st = (st', Raise e) ->
       exists cause,
         e = wrap line cause
         /\ exn_kind e = "RuntimeError"
         /\ exn_msg e
            = "on line " ++ match line with None => "???" | Some l => str_nat l end
              ++ ", encountered " ++ exn_kind cause ++ ": " ++ exn_msg cause
         /\ exn_context e = Some cause
         /\ root_cause e = root_cause cause)
    /\ (forall sub st st' cause,
          first_operand node = Some sub ->
          run host n sub st = (st', Raise cause) ->
          run host (S n) node st = (st', Raise (wrap line cause)))
    /\ (forall o ix st s1 st' v cause,
          node = Subscript o ix line ->
          run host n o st = (s1, Ok v) ->
          run host n ix s1 = (st', Raise cause) ->
          run host (S n) node st = (st', Raise (wrap line cause)))
    /\ (forall f args st s1 st' v cause,
          node = Call f args line ->
          run host n f st = (s1, Ok v) ->
          call host (run host n) v args s1 = (st', Raise cause) ->
          run host (S n) node st = (st', Raise (wrap line cause)))
    /\ (forall o ix args field l2 l3 st st' cause,
          node = Attribute (Call (Subscript o ix l3) args l2) field line ->
          run host n o st = (st', Raise cause) ->
          run host (S (S (S n))) node st
          = (st', Raise (wrap line (wrap l2 (wrap l3 cause))))
          /\ root_cause (wrap line (wrap l2 (wrap l3 cause))) = root_cause cause).
Proof.
  intros host n node line Hn.
  split; [|split; [|split; [|split]]].
  - intros st st' e H.
    destruct (run_wrapping_node host n node line Hn) as (m & Hm).
    rewrite Hm in H. apply try_except_inv in H. destruct H as (cause & _ & ->).
    exists cause. repeat split.
  - intros sub st st' cause Hsub H.
    destruct node; try discriminate; inversion Hn; inversion Hsub; subst;
      simpl; apply try_except_raise; apply bind_raise; exact H.
  - intros o ix st s1 st' v cause -> Ho Hix. simpl.
    apply try_except_raise. rewrite (bind_ok _ _ _ _ _ _ _ _ Ho).
    apply bind_raise. exact Hix.
  - intros f args st s1 st' v cause -> Hf Hc. simpl.
    apply try_except_raise. rewrite (bind_ok _ _ _ _ _ _ _ _ Hf). exact Hc.
  - intros o ix args field l2 l3 st st' cause -> Ho. split; [|reflexivity].
    assert (H3 : run host (S n) (Subscript o ix l3) st = (st', Raise (wrap l3 cause))).
    { simpl. apply try_except_raise. apply bind_raise. exact Ho. }
    assert (H2 : run host (S (S n)) (Call (Subscript o ix l3) args l2) st
                 = (st', Raise (wrap l2 (wrap l3 cause)))).
    { change (try_except l2 (bind (run host (S n) (Subscript o ix l3))
                (fun f => call host (run host (S n)) f args)) st
              = (st', Raise (wrap l2 (wrap l3 cause)))).
      apply try_except_raise. apply bind_raise. exact H3. }
    change (try_except line (bind (run host (S (S n)) (Call (Subscript o ix l3) args l2))
              (fun o => lift (getattr host o field))) st
            = (st', Raise (wrap line (wrap l2 (wrap l3 cause))))).
    apply try_except_raise. apply bind_raise. exact H2.
Qed.

(** [missing[0](1).px] on lines 7, 8 and 9: the lookup error comes out
    under three annotations, the line of the [Attribute] first. *)
Lemma failures_leave_annotated_witness :
  let sub := Subscript (Symbol "missing" (Some 9)) (Literal (LInt 0) (Some 9)) (Some 9) in
  let node := Attribute (Call sub [Literal (LInt 1) (Some 8)] (Some 8)) "px" (Some 7) in
  let cause := wrap (Some 9) (Exn "KeyError" "'missing'" None) in
  run PyCore.host 4 node Examples.fresh_state
  = (Examples.fresh_state, Raise (wrap (Some 7) (wrap (Some 8) (wrap (Some 9) cause))))
  /\ exn_msg (wrap (Some 7) (wrap (Some 8) (wrap (Some 9) cause)))
     = "on line 7, encountered RuntimeError: on line 8, encountered RuntimeError: on line 9, encountered RuntimeError: on line 9, encountered KeyError: 'missing'"
  /\ root_cause (wrap (Some 7) (wrap (Some 8) (wrap (Some 9) cause)))
     = Exn "KeyError" "'missing'" None.
Proof.
  intros sub node cause.
  destruct (failures_leave_annotated PyCore.host 1 node (Some 7) eq_refl)
    as (_ & _ & _ & _ & H).
  destruct (H (Symbol "missing" (Some 9)) (Literal (LInt 0) (Some 9))
              [Literal (LInt 1) (Some 8)] "px" (Some 8) (Some 9)
              Examples.fresh_state Examples.fresh_state cause eq_refl eq_refl)
    as (H1 & _).
  split; [exact H1|]. split; reflexivity.
Defined.

(** ** The boolean builtins *)

(** C9. Through a [Call], the lambdas under [and], [or] and [not] get the
    argument nodes, not their values. With the first operand evaluated
    to [x]: [and] with [x] false and [or] with [x] true return [x] in the
    state the first operand left, whatever the other argument nodes are;
    [and] with [x] true and [or] with [x] false are the evaluation of the
    second operand; [not] returns the negation of the truth value of [x]. *)
Theorem boolean_builtins_short_circuit :
  forall (host : PyHost) (n : nat) (a : ast) (rest : list ast)
         (st st1 : state) (x : value) (line sline : option nat),
    run host (S n) a st = (st1, Ok x) ->
    (truthy x = false ->
       call host (run host (S n)) (VBuiltin "and") (a :: rest) st = (st1, Ok x))
    /\ (truthy x = true ->
       call host (run host (S n)) (VBuiltin "or") (a :: rest) st = (st1, Ok x))
    /\ (truthy x = true -> forall b more,
       call host (run host (S n)) (VBuiltin "and") (a :: b :: more) st
       = run host (S n) b st1)
    /\ (truthy x = false -> forall b more,
       call host (run host (S n)) (VBuiltin "or") (a :: b :: more) st
       = run host (S n) b st1)
    /\ call host (run host (S n)) (VBuiltin "not") (a :: rest) st
       = (st1, Ok (VBool (negb (truthy x))))
    /\ (forall name,
          (name = "and" /\ truthy x = false) \/ (name = "or" /\ truthy x = true) ->
          SymbolTable_getitem (st_symbols st) name = Ok (VBuiltin name) ->
          run host (S (S n)) (Call (Symbol name sline) (a :: rest) line) st
          = (st1, Ok x)).
Proof.
  intros host n a rest st st1 x line sline Ha.
  assert (Hand : truthy x = false ->
       call host (run host (S n)) (VBuiltin "and") (a :: rest) st = (st1, Ok x)).
  { intros Hx. unfold call, builtin. cbn -[run].
    unfold run_argument at 1. cbn -[run]. unfold bind at 1 2. cbn -[run].
    rewrite Ha, Hx. reflexivity. }
  assert (Hor : truthy x = true ->
       call host (run host (S n)) (VBuiltin "or") (a :: rest) st = (st1, Ok x)).
  { intros Hx. unfold call, builtin. cbn -[run].
    unfold run_argument at 1. cbn -[run]. unfold bind at 1 2. cbn -[run].
    rewrite Ha, Hx. reflexivity. }
  split; [exact Hand|]. split; [exact Hor|]. split; [|split; [|split]].
  - intros Hx b more. unfold call, builtin. cbn -[run].
    unfold run_argument at 1. cbn -[run]. unfold bind at 1 2. cbn -[run].
    rewrite Ha, Hx. unfold run_argument. cbn -[run]. reflexivity.
  - intros Hx b more. unfold call, builtin. cbn -[run].
    unfold run_argument at 1. cbn -[run]. unfold bind at 1 2. cbn -[run].
    rewrite Ha, Hx. unfold run_argument. cbn -[run]. reflexivity.
  - unfold call, builtin. cbn -[run].
    unfold run_argument at 1. cbn -[run]. unfold bind at 1 2. cbn -[run].
    rewrite Ha. reflexivity.
  - intros name Hname Hlook.
    change (try_except line (bind (run host (S n) (Symbol name sline))
              (fun f => call host (run host (S n)) f (a :: rest))) st = (st1, Ok x)).
    assert (Hs : run host (S n) (Symbol name sline) st = (st, Ok (VBuiltin name))).
    { simpl. unfold try_except, lookup. now rewrite Hlook. }
    unfold try_except. rewrite (bind_ok _ _ _ _ _ _ _ _ Hs).
    destruct Hname as [[-> Hx]|[-> Hx]].
    + now rewrite (Hand Hx).
    + now rewrite (Hor Hx).
Qed.

(** [0 and missing] is 0 and [1 or missing] is 1, although evaluating
    [missing] would fail. *)
Lemma boolean_builtins_short_circuit_witness :
  let missing := Symbol "missing" (Some 1) in
  run PyCore.host 3 (Call (Symbol "and" None) [Literal (LInt 0) (Some 1); missing] (Some 1))
      Examples.fresh_state
  = (Examples.fresh_state, Ok (VInt 0))
  /\ run PyCore.host 3 (Call (Symbol "or" None) [Literal (LInt 1) (Some 1); missing] (Some 1))
         Examples.fresh_state
     = (Examples.fresh_state, Ok (VInt 1))
  /\ is_ok (snd (run PyCore.host 3 missing Examples.fresh_state)) = false.
Proof.
  intros missing. split; [|split].
  - destruct (boolean_builtins_short_circuit PyCore.host 1 (Literal (LInt 0) (Some 1))
                [missing] Examples.fresh_state Examples.fresh_state (VInt 0)
                (Some 1) None eq_refl) as (_ & _ & _ & _ & _ & H).
    apply (H "and"); [left; split; reflexivity | reflexivity].
  - destruct (boolean_builtins_short_circuit PyCore.host 1 (Literal (LInt 1) (Some 1))
                [missing] Examples.fresh_state Examples.fresh_state (VInt 1)
                (Some 1) None eq_refl) as (_ & _ & _ & _ & _ & H).
    apply (H "or"); [right; split; reflexivity | reflexivity].
  - reflexivity.
Defined.

(** ** The [~] family in [toast] *)

Lemma pattern_operator_cases : forall data,
  In data pattern_operators ->
  data = "symmetric" \/ data = "allsymmetric" \/ data = "asymmetric"
  \/ data = "allasymmetric".
Proof. intros data H. simpl in H. intuition. Qed.

(** C3, as the code has it. For a parse node of one of the four [~]
    operators: with no matching context [toast] raises an error and
    leaves the store as it was; with the [Matching] at [m] as context,
    once the right-hand side has built to a node [e], [e] is appended to
    the [collections] of that [Matching] and the result is an
    [Assignment] of the same name whose operator is the operator of the
    parse node ([~], [~~], [!~] or [!~~]) and whose expression is the
    [Placeholder] of [m] for the position [e] was appended at. *)
Theorem pattern_operator_registers :
  forall (host : PyHost) (data name : string) (nline : option nat)
         (rhs : parse) (more : list parse),
    In data pattern_operators ->
    let node := Tree data (Token name nline :: rhs :: more) in
    (forall h, exists err, toast host node None h = (h, Raise err))
    /\ (forall m h h1 e x,
          toast host rhs (Some m) h = (h1, Ok (BNode e)) ->
          nth_error (matchings h1) m = Some x ->
          exists op,
            opname_get opname data = Some op
            /\ In op ["~"; "~~"; "!~"; "!~~"]
            /\ toast host node (Some m) h
               = (heap_set h1 m (mkMatching (collections x ++ [e])
                                            (Matching_i x) (Matching_row x)),
                  Ok (BNode (Assignment name op
                               (Placeholder m (List.length (collections x))) None)))).
Proof.
  intros host data name nline rhs more Hin node.
  apply pattern_operator_cases in Hin.
  split.
  - intros h. exists format_error.
    destruct Hin as [-> | [-> | [-> | ->]]]; reflexivity.
  - intros m h h1 e x Hrhs Hx.
    assert (Hlen : List.length (collections x ++ [e]) - 1 = List.length (collections x)).
    { rewrite length_app. simpl. lia. }
    destruct Hin as [-> | [-> | [-> | ->]]]; eexists; (split; [reflexivity|]);
      (split; [simpl; tauto|]);
      unfold node; simpl; unfold bind, ret; simpl; rewrite Hrhs; simpl;
      unfold register; rewrite Hx, Hlen; reflexivity.
Qed.

(** [xi ~ x] under the [Matching] at address 0, which has no candidate
    yet. *)
Lemma pattern_operator_registers_witness :
  let node := Tree "symmetric" [Token "xi" (Some 3); Examples.name "x" 3] in
  let h := mkHeap [mkMatching [] None None] 0 in
  toast PyCore.host node (Some 0) h
  = (mkHeap [mkMatching [Symbol "x" (Some 3)] None None] 0,
     Ok (BNode (Assignment "xi" "~" (Placeholder 0 0) None))).
Proof.
  intros node h.
  destruct (pattern_operator_registers PyCore.host "symmetric" "xi" (Some 3)
              (Examples.name "x" 3) [] (or_introl eq_refl)) as (_ & H).
  destruct (H 0 h h (Symbol "x" (Some 3)) (mkMatching [] None None) eq_refl eq_refl)
    as (op & Hop & _ & Ht).
  inversion Hop; subst op. exact Ht.
Defined.

(** C3 fails on the code. Under a matching context the [Assignment]
    built for [xi ~ x] has the operator [~], not [=]; and without one the
    error that leaves [toast] is the [ValueError] of [str.format], whose
    text does not name the operator. *)
Lemma pattern_operator_counterexample :
  let node := Tree "symmetric" [Token "xi" (Some 3); Examples.name "x" 3] in
  let h := mkHeap [mkMatching [] None None] 0 in
  (exists h', toast PyCore.host node (Some 0) h
              = (h', Ok (BNode (Assignment "xi" "~" (Placeholder 0 0) None))))
  /\ "~" <> "="
  /\ toast PyCore.host node None h
     = (h, Raise (Exn "ValueError"
                    "cannot switch from manual field specification to automatic field numbering"
                    None))
  /\ "ValueError" <> "SyntaxError".
Proof.
  intros node h. split; [eexists; vm_compute; reflexivity|].
  split; [discriminate|]. split; [reflexivity | discriminate].
Qed.

(** ** The product of the pools *)

Section Product.

Variable A : Type.

Lemma product_from : forall (pools : list (list A)) (acc : list (list A)),
  fold_left (@product_step A) pools acc
  = flat_map (fun a => map (app a) (product pools)) acc.
Proof.
  induction pools as [|p rest IH]; intros acc.
  - change (product (@nil (list A))) with [@nil A]. simpl.
    induction acc as [|a acc IHa]; simpl; [reflexivity|].
    rewrite app_nil_r. now f_equal.
  - change (fold_left (@product_step A) (p :: rest) acc)
      with (fold_left (@product_step A) rest (product_step acc p)).
    change (product (p :: rest))
      with (fold_left (@product_step A) rest (product_step [[]] p)).
    rewrite (IH (product_step acc p)), (IH (product_step [[]] p)).
    set (R := product rest). unfold product_step.
    induction acc as [|a acc IHa]; [reflexivity|].
    simpl. rewrite flat_map_app, IHa. f_equal. rewrite app_nil_r.
    clear. induction p as [|y p IHp]; [reflexivity|].
    simpl. rewrite map_app, IHp. f_equal.
    rewrite map_map. apply map_ext. intros r. now rewrite <- app_assoc.
Qed.

Lemma product_cons : forall (p : list A) (rest : list (list A)),
  product (p :: rest) = flat_map (fun y => map (cons y) (product rest)) p.
Proof.
  intros p rest.
  change (product (p :: rest))
    with (fold_left (@product_step A) rest (product_step [[]] p)).
  rewrite product_from. unfold product_step. simpl. rewrite app_nil_r.
  induction p as [|y p IH]; [reflexivity|].
  simpl. now rewrite IH.
Qed.

Lemma length_blocks : forall (R : list (list A)) (p : list A),
  List.length (flat_map (fun y => map (cons y) R) p) = List.length p * List.length R.
Proof.
  intros R p. induction p as [|y p IH]; [reflexivity|].
  simpl. rewrite length_app, length_map, IH. reflexivity.
Qed.

Lemma product_length : forall pools : list (list A),
  List.length (product pools) = cardinality pools.
Proof.
  induction pools as [|p rest IH]; [reflexivity|].
  rewrite product_cons, length_blocks, IH. reflexivity.
Qed.

Lemma nth_error_blocks : forall (R : list (list A)) (p : list A) (i : nat),
  nth_error (flat_map (fun y => map (cons y) R) p) i
  = match nth_error p (i / List.length R), nth_error R (i mod List.length R) with
    | Some y, Some r => Some (y :: r)
    | _, _ => None
    end.
Proof.
  intros R. set (m := List.length R).
  induction p as [|y p IH]; intros i.
  - simpl. rewrite !nth_error_nil. reflexivity.
  - simpl flat_map. destruct (Nat.lt_ge_cases i m) as [Hlt|Hge].
    + rewrite nth_error_app1 by now rewrite length_map.
      rewrite Nat.div_small, Nat.mod_small by assumption. simpl.
      rewrite nth_error_map. now destruct (nth_error R i).
    + rewrite nth_error_app2 by now rewrite length_map.
      rewrite length_map, IH. fold m.
      destruct (Nat.eq_dec m 0) as [Hz|Hnz].
      * assert (HR : R = []) by (destruct R; [reflexivity | discriminate]).
        subst R. rewrite !nth_error_nil.
        destruct (nth_error p _); destruct (nth_error (y :: p) _); reflexivity.
      * assert (E : i = (i - m) + 1 * m) by lia.
        assert (Hd : i / m = S ((i - m) / m)).
        { rewrite E at 1. rewrite Nat.div_add by assumption. lia. }
        assert (Hm : i mod m = (i - m) mod m).
        { rewrite E at 1. now rewrite Nat.Div0.mod_add. }
        rewrite Hd, Hm. reflexivity.
Qed.

Lemma product_row_major : forall (pools : list (list A)) (i : nat),
  nth_error (product pools) i = row_major pools i.
Proof.
  induction pools as [|p rest IH]; intros i.
  - destruct i as [|[|i]]; reflexivity.
  - rewrite product_cons, nth_error_blocks, product_length, IH. reflexivity.
Qed.

Lemma cardinality_empty_pool : forall pools : list (list A),
  In [] pools -> cardinality pools = 0.
Proof.
  induction pools as [|p rest IH]; intros H; [destruct H|].
  simpl. destruct H as [->|H]; [reflexivity|].
  rewrite (IH H). lia.
Qed.

Lemma row_major_length : forall (pools : list (list A)) (i : nat) (row : list A),
  row_major pools i = Some row -> List.length row = List.length pools.
Proof.
  induction pools as [|p rest IH]; intros i row H; simpl in H.
  - destruct i; now inversion H.
  - destruct (nth_error p _); [|discriminate].
    destruct (row_major rest _) eqn:E; [|discriminate].
    inversion H; subst. simpl. f_equal. eapply IH; eauto.
Qed.

End Product.

(** ** Joins *)

Section Joins.

Variable rec : ast -> M state value.

Lemma set_current_spec : forall m i row st x,
  nth_error (matchings (st_heap st)) m = Some x ->
  set_current m i row st
  = (mkState (st_symbols st)
             (heap_set (st_heap st) m (mkMatching (collections x) (Some i) (Some row))),
     Ok tt).
Proof. intros. unfold set_current. now rewrite H. Qed.

Lemma run_rows_enumerated : forall m node rows i st st' out,
  run_rows rec m node i rows st = (st', Ok out)
  <-> enumerated rec m node i rows st out st'.
Proof.
  intros m node rows. induction rows as [|row rows IH]; intros i st st' out.
  - simpl. split.
    + intros H. inversion H; subst. constructor.
    + intros H. inversion H; subst. reflexivity.
  - simpl. split.
    + intros H. apply bind_inv_ok in H. destruct H as (s0 & [] & Hs & H).
      apply bind_inv_ok in H. destruct H as (s1 & v & Hv & H).
      apply bind_inv_ok in H. destruct H as (s2 & vs & Hr & H).
      inversion H; subst; clear H.
      unfold set_current in Hs.
      destruct (nth_error (matchings (st_heap st)) m) as [x|] eqn:Ex;
        [|discriminate].
      inversion Hs; subst; clear Hs.
      econstructor; eauto. now apply IH.
    + intros H.
      inversion H as [|? ? ? ? x s1 v out' ? Hx Hv He]; subst.
      rewrite (bind_ok _ _ _ _ _ _ _ _ (set_current_spec m i row st x Hx)).
      rewrite (bind_ok _ _ _ _ _ _ _ _ Hv).
      apply IH in He. rewrite (bind_ok _ _ _ _ _ _ _ _ He). reflexivity.
Qed.

Lemma enumerated_length : forall m node rows i st out st',
  enumerated rec m node i rows st out st' -> List.length out = List.length rows.
Proof. induction 1; simpl; auto. Qed.

Lemma enumerated_nth : forall m node rows i st out st',
  enumerated rec m node i rows st out st' ->
  forall k row, nth_error rows k = Some row ->
    exists s x s1 v,
      nth_error (matchings (st_heap s)) m = Some x
      /\ rec node (mkState (st_symbols s)
                     (heap_set (st_heap s) m
                        (mkMatching (collections x) (Some (i + k)) (Some row))))
         = (s1, Ok v)
      /\ nth_error out k = Some v.
Proof.
  induction 1 as [|i row rows st x st1 v out st' Hx Hv He IH]; intros k r Hk.
  - now destruct k.
  - destruct k as [|k]; simpl in Hk.
    + inversion Hk; subst. exists st, x, st1, v.
      rewrite Nat.add_0_r. auto.
    + destruct (IH k r Hk) as (s & y & s1 & w & H1 & H2 & H3).
      exists s, y, s1, w. rewrite Nat.add_succ_r. auto.
Qed.

Lemma Matching_run_rows : forall m node st st1 x evaluated pools,
  nth_error (matchings (st_heap st)) m = Some x ->
  run_list rec (collections x) st = (st1, Ok evaluated) ->
  iterate_all evaluated = Ok pools ->
  Matching_run rec m node st = run_rows rec m node 0 (product pools) st1.
Proof.
  intros m node st st1 x evaluated pools Hx Hl Hi. unfold Matching_run.
  assert (Hm : the_matching m st = (st, Ok x)) by (unfold the_matching; now rewrite Hx).
  rewrite (bind_ok _ _ _ _ _ _ _ _ Hm), (bind_ok _ _ _ _ _ _ _ _ Hl).
  unfold bind, lift. now rewrite Hi.
Qed.

Lemma Matching_run_inv : forall m node st st' out,
  Matching_run rec m node st = (st', Ok out) ->
  exists x st1 evaluated pools,
    nth_error (matchings (st_heap st)) m = Some x
    /\ run_list rec (collections x) st = (st1, Ok evaluated)
    /\ iterate_all evaluated = Ok pools
    /\ run_rows rec m node 0 (product pools) st1 = (st', Ok out).
Proof.
  intros m node st st' out H. unfold Matching_run in H.
  apply bind_inv_ok in H. destruct H as (s0 & x & Hm & H).
  apply bind_inv_ok in H. destruct H as (s1 & evaluated & Hl & H).
  apply bind_inv_ok in H. destruct H as (s2 & pools & Hi & H).
  unfold the_matching in Hm.
  destruct (nth_error (matchings (st_heap st)) m) as [y|] eqn:Ey; [|discriminate].
  inversion Hm; subst; clear Hm.
  unfold lift in Hi. inversion Hi; subst; clear Hi.
  exists x, s2, evaluated, pools. auto.
Qed.

End Joins.

(** C2. Let the candidate expressions of a [Matching], evaluated in the
    given table, give collections with the elements [pools]. Then the
    rows [itertools.product] makes are the tuples of the Cartesian
    product in row-major order, as many as the product of the lengths;
    [Matching.run] returns [out] exactly when the body, evaluated for
    each row in that order with the index and the row stored in the
    [Matching], gives the elements of [out] in turn; [out] then has as
    many elements as the product of the lengths, its [i]-th element
    being the result for index [i] and the [i]-th tuple, and the [Join]
    node evaluates to the list [out]; and with an empty collection the
    result is the empty list. *)
Theorem join_enumerates_product :
  forall (host : PyHost) (n m : nat) (node : ast) (line : option nat)
         (st st1 : state) (x : Matching)
         (evaluated : list value) (pools : list (list value)),
    nth_error (matchings (st_heap st)) m = Some x ->
    run_list (run host n) (collections x) st = (st1, Ok evaluated) ->
    iterate_all evaluated = Ok pools ->
    List.length (product pools) = cardinality pools
    /\ (forall i, nth_error (product pools) i = row_major pools i)
    /\ (forall st' out,
          Matching_run (run host n) m node st = (st', Ok out)
          <-> enumerated (run host n) m node 0 (product pools) st1 out st')
    /\ (forall st' out,
          Matching_run (run host n) m node st = (st', Ok out) ->
          run host (S n) (Join node m line) st = (st', Ok (VList out))
          /\ List.length out = cardinality pools
          /\ forall i, i < cardinality pools ->
               exists row s y s1 v,
                 row_major pools i = Some row
                 /\ nth_error (matchings (st_heap s)) m = Some y
                 /\ run host n node
                      (mkState (st_symbols s)
                         (heap_set (st_heap s) m
                            (mkMatching (collections y) (Some i) (Some row))))
                    = (s1, Ok v)
                 /\ nth_error out i = Some v)
    /\ (In [] pools ->
          cardinality pools = 0
          /\ Matching_run (run host n) m node st = (st1, Ok [])).
Proof.
  intros host n m node line st st1 x evaluated pools Hx Hl Hi.
  pose proof (Matching_run_rows (run host n) m node st st1 x evaluated pools Hx Hl Hi)
    as Hrun.
  split; [apply product_length|]. split; [apply product_row_major|].
  split; [|split].
  - intros st' out. rewrite Hrun. apply run_rows_enumerated.
  - intros st' out H. split; [|split].
    + simpl. now rewrite (bind_ok _ _ _ _ _ _ _ _ H).
    + rewrite Hrun in H. apply run_rows_enumerated in H.
      rewrite (enumerated_length _ _ _ _ _ _ _ _ H). apply product_length.
    + intros i Hlt. rewrite Hrun in H. apply run_rows_enumerated in H.
      destruct (nth_error (product pools) i) as [row|] eqn:Er.
      * destruct (enumerated_nth _ _ _ _ _ _ _ _ H i row Er)
          as (s & y & s1 & v & H1 & H2 & H3).
        exists row, s, y, s1, v. rewrite <- product_row_major. auto.
      * apply nth_error_None in Er. rewrite product_length in Er. lia.
  - intros Hin.
    pose proof (cardinality_empty_pool _ pools Hin) as Hc.
    split; [exact Hc|]. rewrite Hrun.
    pose proof (product_length _ pools) as Hp. rewrite Hc in Hp.
    destruct (product pools); [reflexivity | discriminate].
Qed.

(** The second program of the source: [x] has three elements and [y] two;
    the join gives six records, [y] varying fastest. *)
Lemma join_enumerates_product_witness :
  let heap := mkHeap [mkMatching [Symbol "x" (Some 3); Symbol "y" (Some 4)] None None] 1 in
  let body := Pattern [Assignment "xi" "~" (Placeholder 0 0) None;
                       Assignment "yi" "~" (Placeholder 0 1) None] (Some 0) 0 None in
  let pair (i : nat) (a b : value) :=
    VObj (mkID 0 "LineNone" (Some i)) [("xi", a); ("yi", b)] in
  toast PyCore.host Examples.join_text None empty_heap
  = (heap, Ok (BNode (Module [Assignment "z" "=" (Join body 0 None) None] None)))
  /\ exists st' out,
       run PyCore.host 4 (Join body 0 None) (mkState Examples.join_scope heap)
       = (st', Ok (VList out))
       /\ List.length out = 6
       /\ out = [pair 0 (VFloat 1.1) (VStr "A"); pair 1 (VFloat 1.1) (VStr "B");
                 pair 2 (VFloat 2.2) (VStr "A"); pair 3 (VFloat 2.2) (VStr "B");
                 pair 4 (VFloat 3.3) (VStr "A"); pair 5 (VFloat 3.3) (VStr "B")].
Proof.
  intros heap body pair. split; [reflexivity|].
  destruct (Matching_run (run PyCore.host 3) 0 body (mkState Examples.join_scope heap))
    as [st' r] eqn:E.
  assert (Hr : r = Ok [pair 0 (VFloat 1.1) (VStr "A"); pair 1 (VFloat 1.1) (VStr "B");
                       pair 2 (VFloat 2.2) (VStr "A"); pair 3 (VFloat 2.2) (VStr "B");
                       pair 4 (VFloat 3.3) (VStr "A"); pair 5 (VFloat 3.3) (VStr "B")]).
  { vm_compute in E. inversion E. reflexivity. }
  subst r.
  destruct (join_enumerates_product PyCore.host 3 0 body None
              (mkState Examples.join_scope heap) (mkState Examples.join_scope heap)
              (mkMatching [Symbol "x" (Some 3); Symbol "y" (Some 4)] None None)
              [VList [VFloat 1.1; VFloat 2.2; VFloat 3.3]; VList [VStr "A"; VStr "B"]]
              [[VFloat 1.1; VFloat 2.2; VFloat 3.3]; [VStr "A"; VStr "B"]]
              eq_refl eq_refl eq_refl) as (_ & _ & _ & H & _).
  destruct (H _ _ E) as (H1 & H2 & _).
  eexists. eexists. split; [exact H1|]. split; [exact H2 | reflexivity].
Defined.

(** ** Classes of patterns *)

Arguments tally : simpl never.

Lemma tally_app : forall l1 l2 t, tally (l1 ++ l2) t = tally l1 t + tally l2 t.
Proof. intros. apply count_occ_app. Qed.

Lemma tally_nil : forall t, tally [] t = 0.
Proof. reflexivity. Qed.

Lemma tally_cons : forall x l t, tally (x :: l) t = tally [x] t + tally l t.
Proof. intros. change (x :: l) with ([x] ++ l)%list. apply tally_app. Qed.

Lemma tally_seq_split : forall a b c t,
  a <= b -> b <= c ->
  tally (seq a (c - a)) t = tally (seq a (b - a)) t + tally (seq b (c - b)) t.
Proof.
  intros a b c t Hab Hbc.
  replace (c - a) with ((b - a) + (c - b)) by lia.
  rewrite seq_app, tally_app. now replace (a + (b - a)) with b by lia.
Qed.

Lemma tally_permutation : forall l1 l2,
  (forall t, tally l1 t = tally l2 t) -> Permutation l1 l2.
Proof. intros l1 l2 H. apply (Permutation_count_occ Nat.eq_dec). exact H. Qed.

Lemma tally_last : forall (f : ast -> list nat) (l : list ast) (d : ast) t,
  l <> [] ->
  tally (flat_map f l) t = tally (flat_map f (removelast l)) t + tally (f (last l d)) t.
Proof.
  intros f l d t Hl.
  rewrite (app_removelast_last d Hl) at 1.
  rewrite flat_map_app, tally_app. simpl. now rewrite app_nil_r.
Qed.

Lemma heap_tags_new : forall h x,
  collections x = [] ->
  heap_tags (mkHeap (matchings h ++ [x]) (classes h)) = heap_tags h.
Proof.
  intros h x Hx. unfold heap_tags. simpl.
  rewrite flat_map_app. simpl. rewrite Hx. simpl. now rewrite app_nil_r.
Qed.

Lemma heap_tags_register : forall l m x e i r t,
  nth_error l m = Some x ->
  tally (flat_map (fun y => flat_map pattern_tags (collections y))
           (list_set l m (mkMatching (collections x ++ [e]) i r))) t
  = tally (pattern_tags e) t
    + tally (flat_map (fun y => flat_map pattern_tags (collections y)) l) t.
Proof.
  induction l as [|y l IH]; intros m x e i r t H.
  - now destruct m.
  - destruct m as [|m]; simpl in H.
    + inversion H; subst. simpl.
      rewrite !tally_app, flat_map_app, tally_app. simpl.
      rewrite app_nil_r. lia.
    + simpl. rewrite !tally_app, (IH m x e i r t H). lia.
Qed.

Lemma accounts_ret : forall A (c : list nat) (a : A) (T : A -> list nat),
  (forall t, tally (T a) t = tally c t) -> accounts c (ret a) T.
Proof.
  intros A c a T H h h' b E. inversion E; subst. split; [lia|].
  intros t. rewrite Nat.sub_diag, H. simpl. rewrite ?tally_nil. lia.
Qed.

Lemma accounts_raise : forall A c e (T : A -> list nat), accounts c (raise e) T.
Proof. intros A c e T h h' a E. discriminate. Qed.

Lemma accounts_stop : forall A c r (T : A -> list nat), accounts c (stop r) T.
Proof. intros A c r T h h' a E. discriminate. Qed.

Lemma accounts_index_error : forall A c (T : A -> list nat), accounts c index_error T.
Proof. intros. apply accounts_raise. Qed.

Lemma accounts_bind : forall A B (c1 c2 : list nat) (m : M heap A) (k : A -> M heap B)
                             (T : A -> list nat) (U : B -> list nat),
  accounts c1 m T ->
  (forall a, accounts (T a ++ c2) (k a) U) ->
  accounts (c1 ++ c2) (bind m k) U.
Proof.
  intros A B c1 c2 m k T U Hm Hk h h' b E.
  apply bind_inv_ok in E. destruct E as (h1 & a & E1 & E2).
  destruct (Hm _ _ _ E1) as (L1 & P1). destruct (Hk a _ _ _ E2) as (L2 & P2).
  split; [lia|]. intros t.
  specialize (P1 t). specialize (P2 t).
  rewrite tally_app in *.
  rewrite (tally_seq_split (classes h) (classes h1) (classes h') t L1 L2). lia.
Qed.

Lemma accounts_bind0 : forall A B (c : list nat) (m : M heap A) (k : A -> M heap B)
                              (T : A -> list nat) (U : B -> list nat),
  accounts [] m T ->
  (forall a, accounts (T a ++ c) (k a) U) ->
  accounts c (bind m k) U.
Proof. intros. apply (accounts_bind A B [] c m k T U); assumption. Qed.

Lemma accounts_pure : forall A (m : M heap A), pure m -> accounts [] m (fun _ => []).
Proof.
  intros A m Hm h h' a E. rewrite (Hm _ _ _ E). split; [lia|].
  intros t. rewrite Nat.sub_diag. simpl. rewrite ?tally_nil. lia.
Qed.

Lemma accounts_bind_pure : forall A B (c : list nat) (m : M heap A) (k : A -> M heap B)
                                  (U : B -> list nat),
  pure m -> (forall a, accounts c (k a) U) -> accounts c (bind m k) U.
Proof.
  intros A B c m k U Hm Hk.
  apply (accounts_bind0 A B c m k (fun _ => []) U); [now apply accounts_pure|].
  exact Hk.
Qed.

Lemma accounts_bind_as_node : forall B (c : list nat) (b : built) (k : ast -> M heap B) U,
  (forall a, accounts (pattern_tags a ++ c) (k a) U) ->
  accounts (built_tags b ++ c) (bind (as_node b) k) U.
Proof.
  intros B c b k U Hk h h' x E. destruct b; try discriminate.
  exact (Hk a h h' x E).
Qed.

Lemma accounts_bind_as_nodes : forall B (c : list nat) (b : built)
                                      (k : list ast -> M heap B) U,
  (forall l, accounts (flat_map pattern_tags l ++ c) (k l) U) ->
  accounts (built_tags b ++ c) (bind (as_nodes b) k) U.
Proof.
  intros B c b k U Hk h h' x E. destruct b; try discriminate.
  exact (Hk l h h' x E).
Qed.

Lemma accounts_bind_as_names : forall B (c : list nat) (b : built)
                                      (k : list string -> M heap B) U,
  (forall l, accounts c (k l) U) ->
  accounts (built_tags b ++ c) (bind (as_names b) k) U.
Proof.
  intros B c b k U Hk h h' x E. destruct b; try discriminate.
  exact (Hk l h h' x E).
Qed.

Lemma accounts_bind_register : forall B (c : list nat) (m : nat) (e : ast)
                                      (k : nat -> M heap B) U,
  (forall n, accounts c (k n) U) ->
  accounts (pattern_tags e ++ c) (bind (register m e) k) U.
Proof.
  intros B c m e k U Hk.
  apply (accounts_bind nat B (pattern_tags e) c (register m e) k (fun _ => []) U);
    [|exact Hk].
  intros h h' n E. unfold register in E.
  destruct (nth_error (matchings h) m) as [x|] eqn:Ex; [|discriminate].
  inversion E; subst; clear E. simpl. split; [lia|].
  intros t. rewrite Nat.sub_diag. simpl. rewrite ?tally_nil.
  unfold heap_tags at 1. simpl.
  rewrite (heap_tags_register _ _ _ _ _ _ t Ex). unfold heap_tags. lia.
Qed.

Lemma accounts_bind_new_class : forall B (c : list nat) (k : nat -> M heap B) U,
  (forall cls, accounts (cls :: c) (k cls) U) ->
  accounts c (bind new_class k) U.
Proof.
  intros B c k U Hk.
  apply (accounts_bind0 nat B c new_class k (fun cls => [cls]) U); [|exact Hk].
  intros h h' cls E. inversion E; subst; clear E. cbn [classes]. split; [lia|].
  intros t. replace (S (classes h) - classes h) with 1 by lia.
  unfold heap_tags. cbn [seq matchings]. rewrite ?tally_nil. lia.
Qed.

Lemma accounts_bind_new_Matching : forall B (c : list nat) (k : nat -> M heap B) U,
  (forall m, accounts c (k m) U) ->
  accounts c (bind new_Matching k) U.
Proof.
  intros B c k U Hk.
  apply (accounts_bind0 nat B c new_Matching k (fun _ => []) U); [|exact Hk].
  intros h h' m E. inversion E; subst; clear E. simpl. split; [lia|].
  intros t. rewrite Nat.sub_diag. simpl.
  rewrite (heap_tags_new h (mkMatching [] None None) eq_refl), ?tally_nil. lia.
Qed.

Lemma pure_token_text : forall x, pure (token_text x).
Proof. intros [s l|d c] h h' a E; now inversion E. Qed.

Lemma pure_token_texts : forall l, pure (token_texts l).
Proof.
  induction l as [|x l IH]; intros h h' a E; simpl in E.
  - now inversion E.
  - apply bind_inv_ok in E. destruct E as (h1 & s & E1 & E).
    apply bind_inv_ok in E. destruct E as (h2 & ss & E2 & E).
    inversion E; subst. apply pure_token_text in E1. apply IH in E2. congruence.
Qed.

Lemma pure_first_child : forall l, pure (first_child l).
Proof. intros [|c l] h h' a E; now inversion E. Qed.

Lemma pure_second_child : forall l, pure (second_child l).
Proof. intros [|c [|c1 l]] h h' a E; now inversion E. Qed.

Lemma pure_lift : forall A (o : outcome A), pure (lift o).
Proof. intros A o h h' a E. now inversion E. Qed.

Lemma parse_induction : forall P : parse -> Prop,
  (forall text line, P (Token text line)) ->
  (forall data children, Forall P children -> P (Tree data children)) ->
  forall node, P node.
Proof.
  intros P Htoken Htree.
  fix IH 1. intros [text line|data children].
  - apply Htoken.
  - apply Htree. induction children as [|c r IHr]; constructor.
    + apply IH.
    + exact IHr.
Qed.

Ltac tally_solve :=
  intros; cbn [built_tags pattern_tags flat_map map];
  repeat (rewrite ?tally_app, ?tally_nil, ?app_nil_r);
  repeat match goal with
         | |- context [tally (?x :: ?l) _] =>
             lazymatch l with
             | [] => fail
             | _ => rewrite (tally_cons x l)
             end
         end;
  repeat (rewrite ?tally_app, ?tally_nil);
  try lia.

Section Classes.

Variable host : PyHost.

Lemma accounts_trees : forall (f : parse -> M heap built) (l : list parse),
  Forall (fun c => accounts [] (f c) built_tags) l ->
  accounts [] (toast_trees f l) (flat_map pattern_tags).
Proof.
  intros f l H. induction H as [|x r Hx Hr IH]; simpl.
  - apply accounts_ret. reflexivity.
  - destruct x as [text line|data children]; [exact IH|].
    apply (accounts_bind0 _ _ _ _ _ built_tags); [exact Hx|intro b].
    apply accounts_bind_as_node. intro a.
    apply (accounts_bind0 _ _ _ _ _ (flat_map pattern_tags)); [exact IH|intro rest].
    apply accounts_ret. tally_solve.
Qed.

Lemma accounts_every : forall (f : parse -> M heap built) (l : list parse),
  Forall (fun c => accounts [] (f c) built_tags) l ->
  accounts [] (toast_every f l) (flat_map pattern_tags).
Proof.
  intros f l H. induction H as [|x r Hx Hr IH]; simpl.
  - apply accounts_ret. reflexivity.
  - apply (accounts_bind0 _ _ _ _ _ built_tags); [exact Hx|intro b].
    apply accounts_bind_as_node. intro a.
    apply (accounts_bind0 _ _ _ _ _ (flat_map pattern_tags)); [exact IH|intro rest].
    apply accounts_ret. tally_solve.
Qed.

Lemma accounts_last : forall (f : parse -> M heap built) (l : list parse),
  Forall (fun c => accounts [] (f c) built_tags) l ->
  accounts [] (toast_last f l) built_tags.
Proof.
  intros f l H. induction H as [|x r Hx Hr IH]; simpl.
  - apply accounts_index_error.
  - destruct r; [exact Hx | exact IH].
Qed.

Lemma accounts_first : forall (f : parse -> M heap built) (l : list parse),
  Forall (fun c => accounts [] (f c) built_tags) l ->
  accounts [] (toast_first f l) built_tags.
Proof.
  intros f l H. destruct H; simpl; [apply accounts_index_error | assumption].
Qed.

Lemma accounts_second : forall (f : parse -> M heap built) (l : list parse),
  Forall (fun c => accounts [] (f c) built_tags) l ->
  accounts [] (toast_second f l) built_tags.
Proof.
  intros f l H. destruct H as [|x r Hx Hr]; simpl; [apply accounts_index_error|].
  destruct Hr; [apply accounts_index_error | assumption].
Qed.

Ltac accounts_step IH :=
  match goal with
  | |- accounts _ (if ?b then _ else _) _ => destruct b
  | |- accounts _ (bind (as_node _) _) _ => apply accounts_bind_as_node; intro
  | |- accounts _ (bind (as_nodes _) _) _ => apply accounts_bind_as_nodes; intro
  | |- accounts _ (bind (as_names _) _) _ => apply accounts_bind_as_names; intro
  | |- accounts _ (bind (register _ _) _) _ => apply accounts_bind_register; intro
  | |- accounts _ (bind new_class _) _ => apply accounts_bind_new_class; intro
  | |- accounts _ (bind new_Matching _) _ => apply accounts_bind_new_Matching; intro
  | |- accounts _ (bind (token_text _) _) _ =>
      apply accounts_bind_pure; [apply pure_token_text | intro]
  | |- accounts _ (bind (token_texts _) _) _ =>
      apply accounts_bind_pure; [apply pure_token_texts | intro]
  | |- accounts _ (bind (first_child _) _) _ =>
      apply accounts_bind_pure; [apply pure_first_child | intro]
  | |- accounts _ (bind (second_child _) _) _ =>
      apply accounts_bind_pure; [apply pure_second_child | intro]
  | |- accounts _ (bind (lift _) _) _ =>
      apply accounts_bind_pure; [apply pure_lift | intro]
  | |- accounts _ (bind (toast_trees _ _) _) _ =>
      apply (accounts_bind0 _ _ _ _ _ (flat_map pattern_tags));
      [apply accounts_trees; apply IH | intro]
  | |- accounts _ (bind (toast_every _ _) _) _ =>
      apply (accounts_bind0 _ _ _ _ _ (flat_map pattern_tags));
      [apply accounts_every; apply IH | intro]
  | |- accounts _ (bind (toast_last _ _) _) _ =>
      apply (accounts_bind0 _ _ _ _ _ built_tags);
      [apply accounts_last; apply IH | intro]
  | |- accounts _ (bind (toast_first _ _) _) _ =>
      apply (accounts_bind0 _ _ _ _ _ built_tags);
      [apply accounts_first; apply IH | intro]
  | |- accounts _ (bind (toast_second _ _) _) _ =>
      apply (accounts_bind0 _ _ _ _ _ built_tags);
      [apply accounts_second; apply IH | intro]
  | |- accounts _ (bind (match ?o with Some _ => _ | None => _ end) _) _ =>
      destruct o; [apply accounts_bind_pure; [intros ? ? ? E; now inversion E | intro]
                  | intros ? ? ? E; discriminate]
  | |- accounts _ (raise _) _ => apply accounts_raise
  | |- accounts _ (stop _) _ => apply accounts_stop
  | |- accounts _ index_error _ => apply accounts_index_error
  | |- accounts _ (ret _) _ => apply accounts_ret; tally_solve
  end.

Lemma toast_accounts : forall node matching,
  accounts [] (toast host node matching) built_tags.
Proof.
  intros node. induction node as [text line|data children IH] using parse_induction;
    intros matching.
  - apply accounts_raise.
  - assert (IHm : forall mc,
               Forall (fun c => accounts [] ((fun x => toast host x mc) c) built_tags)
                      children).
    { intros mc. eapply Forall_impl; [|exact IH]. intros c Hc. apply Hc. }
    cbn [toast].
    repeat accounts_step IHm.
    all: try (apply accounts_first; apply IHm).
    all: try (destruct matching; repeat accounts_step IHm).
    all: try (match goal with
              | |- accounts _ (match opname_get ?a ?b with _ => _ end) _ =>
                  destruct (opname_get a b); repeat accounts_step IHm
              | |- accounts _ (match ?l with _ => _ end) _ =>
                  destruct l as [|? l']; [|destruct l']; repeat accounts_step IHm
              end).
    all: rewrite <- (tally_last pattern_tags _ _ t) by discriminate;
      cbn [flat_map]; rewrite ?tally_app; lia.
Qed.

End Classes.



(** * Further properties *)

(** ** Lookup *)

Lemma SymbolTable_induction : forall P : SymbolTable -> Prop,
  (forall d, P (mkSymbolTable None d)) ->
  (forall up d, P up -> P (mkSymbolTable (Some up) d)) ->
  forall t, P t.
Proof.
  intros P Hroot Hchild. fix IH 1. intros [[up|] d].
  - apply Hchild. apply IH.
  - apply Hroot.
Qed.

Lemma dict_mem_false : forall d k, dict_mem d k = false <-> dict_get d k = None.
Proof. intros d k. unfold dict_mem. destruct (dict_get d k); split; congruence. Qed.

(** X1. [SymbolTable.__getitem__] gives the value of the innermost table
    of the chain that binds the name: it returns [v] exactly when some
    table of the chain binds the name to [v] and no table before it binds
    the name; it raises exactly when no table of the chain binds the
    name, and then the error is the [KeyError] of the name. *)
Theorem lookup_walks_outward :
  forall (t : SymbolTable) (k : string),
    (forall v,
       SymbolTable_getitem t k = Ok v <->
       exists pre d post,
         chain t = (pre ++ d :: post)%list
         /\ Forall (fun d' => dict_mem d' k = false) pre
         /\ dict_get d k = Some v)
    /\ (forall e,
          SymbolTable_getitem t k = Raise e <->
          Forall (fun d => dict_mem d k = false) (chain t)
          /\ e = Exn "KeyError" (repr_str k) None)
    /\ (forall a, SymbolTable_getitem t k <> Halt a).
Proof.
  intros t k. induction t as [d|up d IH] using SymbolTable_induction.
  - simpl. destruct (dict_get d k) as [w|] eqn:E.
    + split; [|split].
      * intros v. split.
        -- intros H. inversion H; subst. exists [], d, []. auto.
        -- intros (pre & d' & post & Hc & Hpre & Hd).
           destruct pre as [|p pre]; simpl in Hc.
           ++ inversion Hc; subst. congruence.
           ++ inversion Hc. now destruct pre.
      * intros e. split; [discriminate|].
        intros (H & _). pose proof (Forall_inv H) as Hm.
        apply dict_mem_false in Hm. congruence.
      * discriminate.
    + split; [|split].
      * intros v. split; [discriminate|].
        intros (pre & d' & post & Hc & Hpre & Hd).
        destruct pre as [|p pre]; simpl in Hc.
        -- inversion Hc; subst. congruence.
        -- inversion Hc. now destruct pre.
      * intros e. split.
        -- intros H. inversion H; subst. split; auto.
           constructor; auto. now apply dict_mem_false.
        -- intros (_ & ->). reflexivity.
      * discriminate.
  - destruct IH as (IHok & IHraise & IHhalt).
    simpl. destruct (dict_get d k) as [w|] eqn:E.
    + split; [|split].
      * intros v. split.
        -- intros H. inversion H; subst. exists [], d, (chain up). auto.
        -- intros (pre & d' & post & Hc & Hpre & Hd).
           destruct pre as [|p pre]; simpl in Hc.
           ++ inversion Hc; subst. congruence.
           ++ inversion Hc; subst. pose proof (Forall_inv Hpre) as Hm.
              apply dict_mem_false in Hm. congruence.
      * intros e. split; [discriminate|].
        intros (H & _). pose proof (Forall_inv H) as Hm.
        apply dict_mem_false in Hm. congruence.
      * discriminate.
    + split; [|split].
      * intros v. rewrite IHok. split.
        -- intros (pre & d' & post & Hc & Hpre & Hd).
           exists (d :: pre), d', post. simpl. rewrite Hc. repeat split; auto.
           constructor; auto. now apply dict_mem_false.
        -- intros (pre & d' & post & Hc & Hpre & Hd).
           destruct pre as [|p pre]; simpl in Hc.
           ++ inversion Hc; subst. congruence.
           ++ inversion Hc; subst.
              exists pre, d', post. repeat split; auto.
              exact (Forall_inv_tail Hpre).
      * intros e. rewrite IHraise. split.
        -- intros (H & ->). split; auto. constructor; auto.
           now apply dict_mem_false.
        -- intros (H & ->). split; auto. exact (Forall_inv_tail H).
      * exact IHhalt.
Qed.

(** [x] is bound in the parent only, [y] nowhere. *)
Lemma lookup_walks_outward_witness :
  let t := mkSymbolTable (Some (mkSymbolTable None [("x", VInt 1)])) [("z", VInt 0)] in
  SymbolTable_getitem t "x" = Ok (VInt 1)
  /\ SymbolTable_getitem t "y" = Raise (Exn "KeyError" "'y'" None).
Proof.
  intros t.
  destruct (lookup_walks_outward t "x") as (Hx & _).
  destruct (lookup_walks_outward t "y") as (_ & Hy & _).
  split.
  - apply Hx. exists [[("z", VInt 0)]], [("x", VInt 1)], []. repeat split.
    repeat constructor.
  - apply Hy. split; [repeat constructor | reflexivity].
Defined.

(** ** Scopes *)

Lemma bind_ret_state : forall A B (m : M state A) (f : A -> B) st st' r,
  bind m (fun a => ret (f a)) st = (st', r) ->
  exists r0, m st = (st', r0).
Proof.
  intros A B m f st st' r. unfold bind.
  destruct (m st) as [s1 [a|e|x]]; intros H; inversion H; subst; eauto.
Qed.

Lemma bind_inv : forall S A B (m : M S A) (k : A -> M S B) st st' r,
  bind m k st = (st', r) ->
  (exists s1 a, m st = (s1, Ok a) /\ k a s1 = (st', r))
  \/ (exists r0, m st = (st', r0)).
Proof.
  intros S A B m k st st' r. unfold bind.
  destruct (m st) as [s1 [a|e|x]]; intros H.
  - left. eauto.
  - right. inversion H; subst. eauto.
  - right. inversion H; subst. eauto.
Qed.

Lemma pattern_index_state : forall (matching : option nat) st st' (r : outcome (option nat)),
  match matching with
  | None => ret None
  | Some m => bind (current_index m) (fun i => ret (Some i))
  end st = (st', r) ->
  st' = st.
Proof.
  intros [m|] st st' r H.
  - apply bind_ret_state in H. destruct H as (r0 & H).
    apply current_index_spec in H. now destruct H.
  - now inversion H.
Qed.

(** X2. Whatever a [Block] or a [Pattern] does, and whether it returns or
    fails, the table it was evaluated in is afterwards the table it was
    before: what the statements inside bind does not reach it. *)
Theorem inner_scopes_do_not_leak :
  forall (host : PyHost) (n : nat) (node : ast) (st st' : state) (r : outcome value),
    class_of node = "Block" \/ class_of node = "Pattern" ->
    run host n node st = (st', r) ->
    st_symbols st' = st_symbols st.
Proof.
  intros host n node st st' r Hnode H.
  destruct n as [|n]; [now inversion H|].
  destruct node; simpl in Hnode; destruct Hnode as [Hn|Hn]; try discriminate.
  - simpl in H. apply bind_inv in H.
    destruct H as [(s1 & idx & H0 & H)|(r0 & H0)].
    + apply pattern_index_state in H0. subst s1.
      apply bind_ret_state in H. destruct H as (r0 & H).
      exact (with_child_restores _ _ _ _ _ _
               (grows_run_each (run host n) (grows_run host n) assignments) H).
    + apply pattern_index_state in H0. now subst.
  - simpl in H. apply bind_ret_state in H. destruct H as (r0 & H).
    refine (with_child_restores _ _ _ _ _ _ _ H).
    apply grows_bind; [apply grows_run_each, grows_run | intro; apply grows_run].
Qed.

(** The block [{a = 2; a}] where [a] is 1 outside: it gives 2 and [a] is
    still 1 afterwards. *)
Lemma inner_scopes_do_not_leak_witness :
  let st := mkState (mkSymbolTable (Some builtins) [("a", VInt 1)]) empty_heap in
  let block := Block [Assignment "a" "=" (Literal (LInt 2) None) None]
                     (Symbol "a" None) None in
  run PyCore.host 3 block st = (st, Ok (VInt 2))
  /\ SymbolTable_getitem (st_symbols st) "a" = Ok (VInt 1).
Proof.
  intros st block.
  destruct (run PyCore.host 3 block st) as [st' r] eqn:E.
  pose proof (inner_scopes_do_not_leak PyCore.host 3 block st st' r
                (or_introl eq_refl) E) as Hs.
  split; [|reflexivity].
  assert (Hr : r = Ok (VInt 2) /\ st_heap st' = st_heap st).
  { vm_compute in E. inversion E. split; reflexivity. }
  destruct Hr as (-> & Hh). destruct st' as [t h]. simpl in *. now subst.
Defined.

(** X3. Once an [Assignment] has bound a name, the name has the value
    assigned - the element of the row for a [Placeholder], the value of
    the expression otherwise - and keeps it through whatever is evaluated
    in that table afterwards: the [Symbol] of the name evaluates to it. *)
Theorem bound_name_keeps_value :
  forall (host : PyHost) (n : nat) (k op : string) (e : ast) (l : option nat)
         (st st1 : state) (w : value),
    run host (S n) (Assignment k op e l) st = (st1, Ok w) ->
    exists s0 v,
      assigned (run host n) e st = (s0, Ok v)
      /\ dict_get (symbols (st_symbols st1)) k = Some v
      /\ forall m node st2 r,
           run host m node st1 = (st2, r) ->
           dict_get (symbols (st_symbols st2)) k = Some v
           /\ forall m' l', run host (S m') (Symbol k l') st2 = (st2, Ok v).
Proof.
  intros host n k op e l st st1 w H.
  change (run_body host (run host n) (Assignment k op e l) st = (st1, Ok w)) in H.
  rewrite run_body_assignment in H.
  apply bind_inv_ok in H. destruct H as (s0 & v & He & H).
  apply bind_inv_ok in H. destruct H as (s1 & u & Ha & H).
  inversion H; subst; clear H.
  assert (Hk : dict_get (symbols (st_symbols st1)) k = Some v).
  { unfold assign, SymbolTable_setitem in Ha.
    destruct (dict_mem (symbols (st_symbols s0)) k); inversion Ha; subst. simpl.
    apply dict_get_set_same. }
  exists s0, v. split; [exact He|]. split; [exact Hk|].
  intros m node st2 r Hrun.
  destruct (grows_run host m node _ _ _ Hrun) as (_ & G & _).
  pose proof (G _ _ Hk) as Hk2. split; [exact Hk2|].
  intros m' l'. simpl. unfold try_except, lookup.
  destruct (st_symbols st2) as [p d]. simpl in *. now rewrite Hk2.
Qed.

(** [a = 1], then a block that binds [a] to 2 in its own table: [a] is
    still 1. *)
Lemma bound_name_keeps_value_witness :
  exists st1 st2,
    run PyCore.host 2 (Assignment "a" "=" (Literal (LInt 1) None) None)
        Examples.fresh_state = (st1, Ok VNone)
    /\ run PyCore.host 3
           (Block [Assignment "a" "=" (Literal (LInt 2) None) None] (Symbol "a" None) None)
           st1 = (st2, Ok (VInt 2))
    /\ run PyCore.host 1 (Symbol "a" None) st2 = (st2, Ok (VInt 1)).
Proof.
  destruct (run PyCore.host 2 (Assignment "a" "=" (Literal (LInt 1) None) None)
              Examples.fresh_state) as [st1 r1] eqn:E1.
  assert (Hr1 : r1 = Ok VNone) by (vm_compute in E1; now inversion E1).
  subst r1.
  destruct (bound_name_keeps_value PyCore.host 1 "a" "=" (Literal (LInt 1) None) None
              Examples.fresh_state st1 VNone E1) as (s0 & v & Hv & _ & Hkeep).
  assert (v = VInt 1) by (vm_compute in Hv; now inversion Hv). subst v.
  destruct (run PyCore.host 3
              (Block [Assignment "a" "=" (Literal (LInt 2) None) None] (Symbol "a" None) None)
              st1) as [st2 r2] eqn:E2.
  destruct (Hkeep _ _ _ _ E2) as (_ & Hsym).
  exists st1, st2. split; [reflexivity|]. split; [|apply Hsym].
  f_equal. vm_compute in E1. inversion E1; subst st1.
  vm_compute in E2. now inversion E2.
Defined.

(** ** What evaluation does to the store *)

(** A relation between the states before and after that holds across
    the steps that change the state holds across [run]. *)
Section Preserved.

Variable host : PyHost.
Variable R : state -> state -> Prop.

Hypothesis R_refl : forall st, R st st.
Hypothesis R_trans : forall a b c, R a b -> R b c -> R a c.
Hypothesis R_assign : forall k v st st' r, assign k v st = (st', r) -> R st st'.
Hypothesis R_set_current :
  forall m i row st st' r, set_current m i row st = (st', r) -> R st st'.
Hypothesis R_child :
  forall A d (m : M state A) st st' r,
    (forall s s' r', m s = (s', r') -> R s s') ->
    with_child d m st = (st', r) -> R st st'.

Lemma respects_same : forall A (m : M state A),
  (forall st st' r, m st = (st', r) -> st' = st) -> respects R m.
Proof. intros A m H st st' r E. rewrite (H _ _ _ E). apply R_refl. Qed.

Lemma respects_bind : forall A B (m : M state A) (k : A -> M state B),
  respects R m -> (forall a, respects R (k a)) -> respects R (bind m k).
Proof.
  intros A B m k Hm Hk st st' r H. apply bind_inv in H.
  destruct H as [(s1 & a & H1 & H2)|(r0 & H1)].
  - eapply R_trans; [eapply Hm | eapply Hk]; eauto.
  - eapply Hm; eauto.
Qed.

Lemma respects_try_except : forall A line (m : M state A),
  respects R m -> respects R (try_except line m).
Proof.
  intros A line m Hm st st' r. unfold try_except.
  destruct (m st) as [s1 [a|e|x]] eqn:E; intros H; inversion H; subst;
    eapply Hm; eauto.
Qed.

Lemma respects_ret : forall A (a : A), respects R (ret a).
Proof. intros A a. apply respects_same. intros st st' r H. now inversion H. Qed.

Lemma respects_raise : forall A e, respects R (@raise state A e).
Proof. intros A e. apply respects_same. intros st st' r H. now inversion H. Qed.

Lemma respects_stop : forall A a, respects R (@stop state A a).
Proof. intros A a. apply respects_same. intros st st' r H. now inversion H. Qed.

Lemma respects_lift : forall A (o : outcome A), respects R (lift o).
Proof. intros A o. apply respects_same. intros st st' r H. now inversion H. Qed.

Lemma respects_lookup : forall k, respects R (lookup k).
Proof. intros k. apply respects_same. intros st st' r H. now inversion H. Qed.

Lemma respects_the_matching : forall m, respects R (the_matching m).
Proof. intros m. apply respects_same. apply the_matching_state. Qed.

Lemma respects_current_index : forall m, respects R (current_index m).
Proof.
  intros m. apply respects_same. intros st st' r H.
  apply current_index_spec in H. now destruct H.
Qed.

Lemma respects_Placeholder_value : forall m n, respects R (Placeholder_value m n).
Proof. intros m n. apply respects_same. apply Placeholder_value_state. Qed.

Lemma respects_argument : forall l k, respects R (argument l k).
Proof.
  intros l k. unfold argument.
  destruct (nth_error l k); [apply respects_ret | apply respects_raise].
Qed.

Lemma respects_with_child : forall A d (m : M state A),
  respects R m -> respects R (with_child d m).
Proof. intros A d m Hm st st' r H. eapply R_child; eauto. Qed.

Ltac respects_step :=
  match goal with
  | |- respects _ (bind _ _) => apply respects_bind; [|intro]
  | |- respects _ (if ?b then _ else _) => destruct b
  | |- respects _ (match ?x with _ => _ end) => destruct x
  | |- respects _ (ret _) => apply respects_ret
  | |- respects _ (raise _) => apply respects_raise
  | |- respects _ (stop _) => apply respects_stop
  | |- respects _ (lift _) => apply respects_lift
  | |- respects _ (lookup _) => apply respects_lookup
  | |- respects _ (assign _ _) => exact (R_assign _ _)
  | |- respects _ (set_current _ _ _) => exact (R_set_current _ _ _)
  | |- respects _ (the_matching _) => apply respects_the_matching
  | |- respects _ (current_index _) => apply respects_current_index
  | |- respects _ (Placeholder_value _ _) => apply respects_Placeholder_value
  | |- respects _ (argument _ _) => apply respects_argument
  | |- respects _ (with_child _ _) => apply respects_with_child
  | |- respects _ (try_except _ _) => apply respects_try_except
  | |- respects _ _ => solve [auto]
  end.

Section PreservedBody.

Variable rec : ast -> M state value.
Hypothesis rec_respects : forall x, respects R (rec x).

Lemma respects_run_each : forall l, respects R (run_each rec l).
Proof. induction l; simpl; repeat respects_step. Qed.

Lemma respects_run_list : forall l, respects R (run_list rec l).
Proof. induction l; simpl; repeat respects_step. Qed.

Lemma respects_run_rows : forall m node rows i, respects R (run_rows rec m node i rows).
Proof. induction rows; intros i; simpl; repeat respects_step. Qed.

Lemma respects_Matching_run : forall m node, respects R (Matching_run rec m node).
Proof.
  intros m node. unfold Matching_run.
  repeat respects_step; auto using respects_run_list, respects_run_rows.
Qed.

Lemma respects_run_argument : forall l k, respects R (run_argument rec l k).
Proof. intros l k. unfold run_argument. repeat respects_step. Qed.

Lemma respects_bind_parameters : forall ps l d, respects R (bind_parameters rec ps l d).
Proof.
  induction ps as [|p ps IH]; intros [|a l] d; simpl; repeat respects_step.
Qed.

Lemma respects_union_from : forall l acc, respects R (union_from host rec acc l).
Proof. induction l; intros acc; simpl; repeat respects_step. Qed.

Lemma respects_builtin : forall name l, respects R (builtin host rec name l).
Proof.
  intros name l. unfold builtin.
  repeat respects_step; auto using respects_run_argument, respects_union_from.
Qed.

Lemma respects_call : forall f l, respects R (call host rec f l).
Proof.
  intros f l. unfold call.
  destruct f; try apply respects_raise.
  - repeat respects_step; auto using respects_bind_parameters.
  - apply respects_builtin.
Qed.

Lemma respects_run_body : forall node, respects R (run_body host rec node).
Proof.
  intros node. destruct node; simpl.
  - repeat respects_step; auto using respects_run_each.
  - apply respects_bind; [|intro; repeat respects_step].
    destruct node; auto; apply respects_Placeholder_value.
  - apply respects_bind; [|intro; apply respects_bind; [|intro; apply respects_ret]].
    + destruct matching; repeat respects_step.
    + apply respects_with_child, respects_run_each.
  - repeat respects_step; auto using respects_Matching_run.
  - apply respects_ret.
  - apply respects_bind; [|intro; apply respects_ret].
    apply respects_with_child. repeat respects_step; auto using respects_run_each.
  - apply respects_try_except. repeat respects_step; auto using respects_call.
  - apply respects_try_except. repeat respects_step.
  - apply respects_try_except. repeat respects_step.
  - unfold opt_value. repeat respects_step.
  - apply respects_try_except, respects_lookup.
  - apply respects_ret.
  - apply respects_raise.
Qed.

End PreservedBody.

Lemma respects_run : forall fuel node, respects R (run host fuel node).
Proof.
  induction fuel as [|n IH]; intros node; simpl.
  - apply respects_stop.
  - apply respects_run_body. exact IH.
Qed.

End Preserved.

Lemma heap_kept_refl : forall h, heap_kept h h.
Proof. intros h. split; reflexivity. Qed.

Lemma heap_kept_trans : forall a b c, heap_kept a b -> heap_kept b c -> heap_kept a c.
Proof. intros a b c (C1 & M1) (C2 & M2). split; congruence. Qed.

Lemma map_list_set : forall A B (f : A -> B) (l : list A) m x y,
  nth_error l m = Some x -> f y = f x -> map f (list_set l m y) = map f l.
Proof.
  intros A B f l. induction l as [|a l IH]; intros m x y H E.
  - reflexivity.
  - destruct m as [|m]; simpl in *.
    + inversion H; subst. now rewrite E.
    + f_equal. eapply IH; eauto.
Qed.

Lemma run_keeps_heap : forall host fuel node st st' r,
  run host fuel node st = (st', r) -> heap_kept (st_heap st) (st_heap st').
Proof.
  intros host.
  apply (respects_run host (fun st st' => heap_kept (st_heap st) (st_heap st'))).
  - intros st. apply heap_kept_refl.
  - intros a b c. apply heap_kept_trans.
  - intros k v st st' r. unfold assign.
    destruct (SymbolTable_setitem (st_symbols st) k v); intros H; inversion H;
      apply heap_kept_refl.
  - intros m i row st st' r. unfold set_current.
    destruct (nth_error (matchings (st_heap st)) m) as [x|] eqn:E; intros H;
      inversion H; subst; simpl; [|apply heap_kept_refl].
    split; [reflexivity|]. simpl. now apply (map_list_set _ _ collections _ m x).
  - intros A d m st st' r Hm. unfold with_child.
    destruct (m _) as [s1 o] eqn:E. intros H. inversion H; subst. simpl.
    exact (Hm _ _ _ E).
Qed.

Lemma heap_kept_nth : forall h h' m x,
  heap_kept h h' ->
  nth_error (matchings h) m = Some x ->
  exists x', nth_error (matchings h') m = Some x' /\ collections x' = collections x.
Proof.
  intros h h' m x (_ & Hm) Hx.
  pose proof (map_nth_error collections m (matchings h) Hx) as H1.
  rewrite <- Hm in H1. rewrite nth_error_map in H1.
  destruct (nth_error (matchings h') m) as [x'|]; [|discriminate].
  inversion H1. eauto.
Qed.

(** X4. Evaluation changes no candidate expression: however [run] ends,
    the store has the same classes and the same [Matching] objects, each
    with the [collections] it had; a [Matching] may only have a new [i]
    and [row]. *)
Theorem evaluation_keeps_candidates :
  forall (host : PyHost) (fuel : nat) (node : ast) (st st' : state) (r : outcome value),
    run host fuel node st = (st', r) ->
    classes (st_heap st') = classes (st_heap st)
    /\ List.length (matchings (st_heap st')) = List.length (matchings (st_heap st))
    /\ forall m x,
         nth_error (matchings (st_heap st)) m = Some x ->
         exists x',
           nth_error (matchings (st_heap st')) m = Some x'
           /\ collections x' = collections x.
Proof.
  intros host fuel node st st' r H.
  pose proof (run_keeps_heap host fuel node st st' r H) as K.
  split; [exact (proj1 K)|]. split.
  - destruct K as (_ & Hm).
    rewrite <- (length_map collections (matchings (st_heap st'))), Hm.
    apply length_map.
  - intros m x Hx. exact (heap_kept_nth _ _ m x K Hx).
Qed.

(** The join of the second program: after its six combinations the
    [Matching] has the candidates [x] and [y] it had, and the last index
    and row. *)
Lemma evaluation_keeps_candidates_witness :
  let heap := mkHeap [mkMatching [Symbol "x" (Some 3); Symbol "y" (Some 4)] None None] 1 in
  let body := Pattern [Assignment "xi" "~" (Placeholder 0 0) None;
                       Assignment "yi" "~" (Placeholder 0 1) None] (Some 0) 0 None in
  exists st' r x',
    run PyCore.host 4 (Join body 0 None) (mkState Examples.join_scope heap) = (st', r)
    /\ nth_error (matchings (st_heap st')) 0 = Some x'
    /\ collections x' = [Symbol "x" (Some 3); Symbol "y" (Some 4)]
    /\ Matching_i x' = Some 5.
Proof.
  intros heap body.
  destruct (run PyCore.host 4 (Join body 0 None) (mkState Examples.join_scope heap))
    as [st' r] eqn:E.
  destruct (evaluation_keeps_candidates PyCore.host 4 _ _ _ _ E) as (_ & _ & H).
  destruct (H 0 _ eq_refl) as (x' & Hx & Hc).
  exists st', r, x'. split; [reflexivity|]. split; [exact Hx|]. split; [exact Hc|].
  vm_compute in E. inversion E; subst st'. vm_compute in Hx. now inversion Hx.
Defined.

(** ** What [toast] does to the store *)

Lemma heap_extends_refl : forall mc h, heap_extends mc h h.
Proof.
  intros mc h. split; [lia|]. intros k x H. exists x, [].
  rewrite app_nil_r. auto.
Qed.

Lemma heap_extends_trans : forall mc a b c,
  heap_extends mc a b -> heap_extends mc b c -> heap_extends mc a c.
Proof.
  intros mc a b c (L1 & E1) (L2 & E2). split; [lia|].
  intros k x H.
  destruct (E1 k x H) as (x1 & s1 & H1 & C1 & I1 & R1 & N1).
  destruct (E2 k x1 H1) as (x2 & s2 & H2 & C2 & I2 & R2 & N2).
  exists x2, (s1 ++ s2)%list. repeat split; try congruence.
  - rewrite C2, C1. now rewrite app_assoc.
  - intros Hk. now rewrite (N1 Hk), (N2 Hk).
Qed.

Lemma heap_extends_weaken : forall mc h h',
  heap_extends None h h' -> heap_extends mc h h'.
Proof.
  intros mc h h' (L & E). split; [exact L|].
  intros k x H. destruct (E k x H) as (x' & s & H1 & C1 & I1 & R1 & N1).
  exists x', s. repeat split; auto. intros _. apply N1. discriminate.
Qed.

Lemma frames_same : forall A mc (m : M heap A),
  (forall h h' r, m h = (h', r) -> h' = h) -> frames mc m.
Proof. intros A mc m H h h' r E. rewrite (H _ _ _ E). apply heap_extends_refl. Qed.

Lemma frames_weaken : forall A mc (m : M heap A), frames None m -> frames mc m.
Proof. intros A mc m H h h' r E. apply heap_extends_weaken. eapply H; eauto. Qed.

Lemma frames_bind : forall A B mc (m : M heap A) (k : A -> M heap B),
  frames mc m -> (forall a, frames mc (k a)) -> frames mc (bind m k).
Proof.
  intros A B mc m k Hm Hk h h' r H. apply bind_inv in H.
  destruct H as [(h1 & a & H1 & H2)|(r0 & H1)].
  - eapply heap_extends_trans; [eapply Hm | eapply Hk]; eauto.
  - eapply Hm; eauto.
Qed.

Lemma frames_ret : forall A mc (a : A), frames mc (ret a).
Proof. intros. apply frames_same. intros h h' r H. now inversion H. Qed.

Lemma frames_raise : forall A mc e, frames mc (@raise heap A e).
Proof. intros. apply frames_same. intros h h' r H. now inversion H. Qed.

Lemma frames_stop : forall A mc a, frames mc (@stop heap A a).
Proof. intros. apply frames_same. intros h h' r H. now inversion H. Qed.

Lemma frames_lift : forall A mc (o : outcome A), frames mc (lift o).
Proof. intros. apply frames_same. intros h h' r H. now inversion H. Qed.

Lemma frames_index_error : forall A mc, frames mc (@index_error A).
Proof. intros. apply frames_raise. Qed.

Lemma frames_as_node : forall mc b, frames mc (as_node b).
Proof. intros mc [a|l|l]; simpl; [apply frames_ret | apply frames_stop ..]. Qed.

Lemma frames_as_nodes : forall mc b, frames mc (as_nodes b).
Proof. intros mc [a|l|l]; simpl; [apply frames_stop | apply frames_ret | apply frames_stop]. Qed.

Lemma frames_as_names : forall mc b, frames mc (as_names b).
Proof. intros mc [a|l|l]; simpl; [apply frames_stop .. | apply frames_ret]. Qed.

Lemma frames_token_text : forall mc x, frames mc (token_text x).
Proof. intros mc [s l|d c]; simpl; [apply frames_ret | apply frames_stop]. Qed.

Lemma frames_token_texts : forall mc l, frames mc (token_texts l).
Proof.
  intros mc l. induction l as [|x l IH]; simpl.
  - apply frames_ret.
  - apply frames_bind; [apply frames_token_text | intro].
    apply frames_bind; [exact IH | intro; apply frames_ret].
Qed.

Lemma frames_first_child : forall mc l, frames mc (first_child l).
Proof. intros mc [|c l]; simpl; [apply frames_index_error | apply frames_ret]. Qed.

Lemma frames_second_child : forall mc l, frames mc (second_child l).
Proof.
  intros mc [|c [|c1 l]]; simpl; [apply frames_index_error .. | apply frames_ret].
Qed.

Lemma frames_new_class : forall mc, frames mc new_class.
Proof.
  intros mc h h' r H. inversion H; subst. split; [simpl; lia|].
  intros k x Hx. exists x, []. rewrite app_nil_r. auto.
Qed.

Lemma nth_error_list_set_same : forall A (l : list A) m x y,
  nth_error l m = Some x -> nth_error (list_set l m y) m = Some y.
Proof.
  intros A l. induction l as [|a l IH]; intros [|m] x y H; simpl in *;
    try discriminate; auto. eapply IH; eauto.
Qed.

Lemma nth_error_list_set_other : forall A (l : list A) m k y,
  k <> m -> nth_error (list_set l m y) k = nth_error l k.
Proof.
  intros A l. induction l as [|a l IH]; intros [|m] [|k] y H; simpl; auto;
    try congruence.
Qed.

Lemma frames_register : forall m e, frames (Some m) (register m e).
Proof.
  intros m e h h' r H. unfold register in H.
  destruct (nth_error (matchings h) m) as [x|] eqn:Ex; inversion H; subst;
    [|apply heap_extends_refl].
  split; [simpl; lia|]. intros k y Hy. simpl.
  destruct (Nat.eq_dec k m) as [->|Hk].
  - rewrite (nth_error_list_set_same _ _ _ x _ Ex).
    assert (y = x) by congruence. subst y.
    eexists. exists [e]. repeat split. congruence.
  - rewrite nth_error_list_set_other by assumption.
    exists y, []. rewrite app_nil_r. auto.
Qed.

(** A [join] gives its operand a [Matching] that did not exist: what the
    operand registers reaches none of those that did. *)
Lemma frames_join : forall B mc (k : nat -> M heap B),
  (forall m, frames (Some m) (k m)) -> frames mc (bind new_Matching k).
Proof.
  intros B mc k Hk. apply frames_weaken. intros h h' r H.
  unfold bind, new_Matching in H.
  set (h1 := mkHeap (matchings h ++ [mkMatching [] None None]) (classes h)) in *.
  destruct (Hk _ _ _ _ H) as (L & E). split; [exact L|].
  intros j x Hx.
  assert (Hj : j < List.length (matchings h)) by (apply nth_error_Some; congruence).
  destruct (E j x) as (x' & s & H1 & C1 & I1 & R1 & N1).
  { simpl. now rewrite nth_error_app1. }
  exists x', s. repeat split; auto. intros _. apply N1.
  intros Heq. inversion Heq. lia.
Qed.

Section Frames.

Variable host : PyHost.

Lemma frames_trees : forall mc (f : parse -> M heap built) (l : list parse),
  Forall (fun c => frames mc (f c)) l -> frames mc (toast_trees f l).
Proof.
  intros mc f l H. induction H as [|x r Hx Hr IH]; simpl.
  - apply frames_ret.
  - destruct x as [text line|data children]; [exact IH|].
    apply frames_bind; [exact Hx | intro].
    apply frames_bind; [apply frames_as_node | intro].
    apply frames_bind; [exact IH | intro; apply frames_ret].
Qed.

Lemma frames_every : forall mc (f : parse -> M heap built) (l : list parse),
  Forall (fun c => frames mc (f c)) l -> frames mc (toast_every f l).
Proof.
  intros mc f l H. induction H as [|x r Hx Hr IH]; simpl.
  - apply frames_ret.
  - apply frames_bind; [exact Hx | intro].
    apply frames_bind; [apply frames_as_node | intro].
    apply frames_bind; [exact IH | intro; apply frames_ret].
Qed.

Lemma frames_last : forall mc (f : parse -> M heap built) (l : list parse),
  Forall (fun c => frames mc (f c)) l -> frames mc (toast_last f l).
Proof.
  intros mc f l H. induction H as [|x r Hx Hr IH]; simpl.
  - apply frames_index_error.
  - destruct r; [exact Hx | exact IH].
Qed.

Lemma frames_first : forall mc (f : parse -> M heap built) (l : list parse),
  Forall (fun c => frames mc (f c)) l -> frames mc (toast_first f l).
Proof.
  intros mc f l H. destruct H; simpl; [apply frames_index_error | assumption].
Qed.

Lemma frames_second : forall mc (f : parse -> M heap built) (l : list parse),
  Forall (fun c => frames mc (f c)) l -> frames mc (toast_second f l).
Proof.
  intros mc f l H. destruct H as [|x r Hx Hr]; simpl; [apply frames_index_error|].
  destruct Hr; [apply frames_index_error | assumption].
Qed.

Ltac frames_child IH :=
  first [ apply frames_trees; apply IH
        | apply frames_every; apply IH
        | apply frames_last; apply IH
        | apply frames_first; apply IH
        | apply frames_second; apply IH ].

Ltac frames_step IH :=
  match goal with
  | |- frames _ (if ?b then _ else _) => destruct b
  | |- frames _ (bind new_Matching _) => apply frames_join; intro
  | |- frames _ (bind (register _ _) _) =>
      apply frames_bind; [apply frames_register | intro]
  | |- frames _ (bind _ _) =>
      apply frames_bind;
      [ first [ apply frames_as_node | apply frames_as_nodes | apply frames_as_names
              | apply frames_token_text | apply frames_token_texts
              | apply frames_first_child | apply frames_second_child
              | apply frames_new_class | apply frames_lift
              | frames_child IH
              | apply frames_weaken; frames_child IH ]
      | intro ]
  | |- frames _ (ret _) => apply frames_ret
  | |- frames _ (raise _) => apply frames_raise
  | |- frames _ (stop _) => apply frames_stop
  | |- frames _ index_error => apply frames_index_error
  end.

Lemma toast_frames : forall node matching, frames matching (toast host node matching).
Proof.
  intros node. induction node as [text line|data children IH] using parse_induction;
    intros matching.
  - apply frames_raise.
  - assert (IHm : forall mc,
               Forall (fun c => frames mc ((fun x => toast host x mc) c)) children).
    { intros mc. eapply Forall_impl; [|exact IH]. intros c Hc. apply Hc. }
    cbn [toast].
    repeat frames_step IHm.
    all: try (apply frames_first; apply IHm).
    all: try (destruct matching; repeat frames_step IHm).
    all: try (match goal with
              | |- frames _ (match opname_get ?a ?b with _ => _ end) =>
                  destruct (opname_get a b); repeat frames_step IHm
              | |- frames _ (bind (match opname_get ?a ?b with _ => _ end) _) =>
                  destruct (opname_get a b);
                  [apply frames_bind; [apply frames_ret | intro]
                  |apply frames_bind; [apply frames_stop | intro]];
                  repeat frames_step IHm
              | |- frames _ (match ?l with _ => _ end) =>
                  destruct l as [|? l']; [|destruct l']; repeat frames_step IHm
              end).
Qed.

End Frames.

(** X5. However a call of [toast] ends, each [Matching] that existed is
    still at its address with the same [i] and [row], and its candidate
    list has only been extended at the end: a [Placeholder] handed out
    earlier still indexes the same expression. Only the [Matching] given
    as context can have new candidates. *)
Theorem toast_only_appends_candidates :
  forall (host : PyHost) (node : parse) (mc : option nat) (h h' : heap)
         (r : outcome built) (k : nat) (x : Matching),
    toast host node mc h = (h', r) ->
    nth_error (matchings h) k = Some x ->
    exists x' suffix,
      nth_error (matchings h') k = Some x'
      /\ collections x' = (collections x ++ suffix)%list
      /\ Matching_i x' = Matching_i x
      /\ Matching_row x' = Matching_row x
      /\ (mc <> Some k -> x' = x)
      /\ (forall n e, nth_error (collections x) n = Some e ->
                      nth_error (collections x') n = Some e).
Proof.
  intros host node mc h h' r k x Ht Hx.
  destruct (toast_frames host node mc h h' r Ht) as (_ & E).
  destruct (E k x Hx) as (x' & s & H1 & C1 & I1 & R1 & N1).
  exists x', s. repeat split; auto.
  - intros Hk. rewrite (N1 Hk), app_nil_r in C1.
    destruct x', x. simpl in *. congruence.
  - intros n e Hn. rewrite C1. rewrite nth_error_app1; auto.
    apply nth_error_Some. congruence.
Qed.

(** [yi ~ y] built under the [Matching] at address 0, which has the
    candidate [x]; the [Matching] at address 1 is another join's. *)
Lemma toast_only_appends_candidates_witness :
  let node := Tree "symmetric" [Token "yi" (Some 4); Examples.name "y" 4] in
  let other := mkMatching [Symbol "z" (Some 9)] (Some 2) (Some [VInt 7]) in
  let h := mkHeap [mkMatching [Symbol "x" (Some 3)] None None; other] 0 in
  exists h' r,
    toast PyCore.host node (Some 0) h = (h', r)
    /\ nth_error (matchings h') 0
       = Some (mkMatching [Symbol "x" (Some 3); Symbol "y" (Some 4)] None None)
    /\ nth_error (matchings h') 1 = Some other.
Proof.
  intros node other h.
  destruct (toast PyCore.host node (Some 0) h) as [h' r] eqn:E.
  destruct (toast_only_appends_candidates PyCore.host node (Some 0) h h' r 1 other
              E eq_refl) as (x' & s & H1 & _ & _ & _ & H2 & _).
  exists h', r. split; [reflexivity|]. split.
  - vm_compute in E. inversion E. reflexivity.
  - rewrite H1. f_equal. apply H2. discriminate.
Defined.

(** X6. Building a [join] leaves every [Matching] that existed exactly as
    it was, whatever matching context the [join] itself is built under;
    when it succeeds, the [Join] node holds the address of a [Matching]
    created for it, which the store then has. *)
Theorem join_gets_its_own_matching :
  forall (host : PyHost) (children : list parse) (mc : option nat) (h h' : heap)
         (r : outcome built),
    toast host (Tree "join" children) mc h = (h', r) ->
    (forall k x, nth_error (matchings h) k = Some x -> nth_error (matchings h') k = Some x)
    /\ (forall b, r = Ok b ->
          exists e line x,
            b = BNode (Join e (List.length (matchings h)) line)
            /\ nth_error (matchings h') (List.length (matchings h)) = Some x).
Proof.
  intros host children mc h h' r H.
  assert (Hb : toast host (Tree "join" children) mc
               = bind new_Matching (fun m =>
                   bind (toast_first (fun x => toast host x (Some m)) children) (fun b =>
                     bind (as_node b) (fun e => ret (BNode (Join e m (line_of e)))))))
    by reflexivity.
  rewrite Hb in H. clear Hb.
  assert (Hk : forall m, frames (Some m)
                 (bind (toast_first (fun x => toast host x (Some m)) children) (fun b =>
                     bind (as_node b) (fun e => ret (BNode (Join e m (line_of e))))))).
  { intros m. apply frames_bind.
    - destruct children as [|c cs]; simpl; [apply frames_index_error|].
      apply toast_frames.
    - intros b. apply frames_bind; [apply frames_as_node | intro; apply frames_ret]. }
  split.
  - intros k x Hx.
    destruct (frames_join _ None _ Hk h h' r H) as (_ & E).
    destruct (E k x Hx) as (x' & s & H1 & C1 & I1 & R1 & N1).
    rewrite H1. f_equal.
    rewrite (N1 ltac:(discriminate)), app_nil_r in C1.
    destruct x', x. simpl in *. congruence.
  - intros b ->. unfold bind at 1, new_Matching in H.
    set (m := List.length (matchings h)) in *.
    set (h1 := mkHeap (matchings h ++ [mkMatching [] None None]) (classes h)) in *.
    destruct (Hk m h1 h' (Ok b) H) as (_ & E).
    destruct (E m (mkMatching [] None None)) as (x' & s & H1 & _).
    { unfold h1, m. simpl. rewrite nth_error_app2 by lia.
      now rewrite Nat.sub_diag. }
    apply bind_inv_ok in H. destruct H as (h2 & b0 & _ & H).
    apply bind_inv_ok in H. destruct H as (h3 & e & _ & H).
    inversion H; subst. exists e, (line_of e), x'. auto.
Qed.

(** [join x] built inside another join, whose [Matching] at address 0
    has a candidate: the new [Join] gets address 1 and the [Matching] at
    0 is untouched. *)
Lemma join_gets_its_own_matching_witness :
  let outer := mkMatching [Symbol "a" (Some 1)] None None in
  let h := mkHeap [outer] 0 in
  toast PyCore.host (Tree "join" [Examples.name "x" 2]) (Some 0) h
  = (mkHeap [outer; mkMatching [] None None] 0,
     Ok (BNode (Join (Symbol "x" (Some 2)) 1 (Some 2))))
  /\ nth_error (matchings (mkHeap [outer; mkMatching [] None None] 0)) 0 = Some outer.
Proof.
  intros outer h.
  assert (E : toast PyCore.host (Tree "join" [Examples.name "x" 2]) (Some 0) h
              = (mkHeap [outer; mkMatching [] None None] 0,
                 Ok (BNode (Join (Symbol "x" (Some 2)) 1 (Some 2)))))
    by reflexivity.
  split; [exact E|].
  destruct (join_gets_its_own_matching PyCore.host _ _ _ _ _ E) as (H & _).
  apply H. reflexivity.
Defined.

(** ** A join of bindings *)

Lemma dict_set_new : forall d k v,
  dict_mem d k = false -> dict_set d k v = (d ++ [(k, v)])%list.
Proof.
  unfold dict_mem.
  induction d as [|[k' v'] r IH]; intros k v H; simpl in *; auto.
  destruct (String.eqb k' k); [discriminate|]. f_equal. now apply IH.
Qed.

Lemma dict_mem_app_new : forall d k v k',
  dict_mem d k' = false -> k' <> k -> dict_mem (d ++ [(k, v)])%list k' = false.
Proof.
  unfold dict_mem.
  induction d as [|[k0 v0] r IH]; intros k v k' H Hne; simpl in *.
  - destruct (String.eqb k k') eqn:E; auto.
    apply String.eqb_eq in E. congruence.
  - destruct (String.eqb k0 k'); [discriminate|]. now apply IH.
Qed.

Lemma skipn_cons : forall A (l : list A) j v t,
  skipn j l = v :: t -> nth_error l j = Some v /\ skipn (S j) l = t.
Proof.
  intros A l. induction l as [|a l IH]; intros [|j] v t H; simpl in *;
    try discriminate.
  - inversion H; subst. auto.
  - destruct (IH j v t H) as (H1 & H2). split; auto.
Qed.

Section Bindings.

Variable host : PyHost.
Variable n : nat.
Variable m : nat.

Lemma slot_bindings_run : forall names j vals d p h x row,
  nth_error (matchings h) m = Some x ->
  Matching_row x = Some row ->
  skipn j row = vals ->
  List.length names = List.length vals ->
  NoDup (map fst names) ->
  (forall k, In k (map fst names) -> dict_mem d k = false) ->
  run_each (run host (S n)) (slot_bindings m j names) (mkState (mkSymbolTable p d) h)
  = (mkState (mkSymbolTable p (d ++ combine (map fst names) vals)%list) h, Ok tt).
Proof.
  induction names as [|[name op] names IH];
    intros j vals d p h x row Hx Hrow Hskip Hlen Hnd Hfresh.
  - destruct vals; [|discriminate]. simpl. now rewrite app_nil_r.
  - destruct vals as [|v vals]; [discriminate|].
    destruct (skipn_cons _ _ _ _ _ Hskip) as (Hv & Hskip').
    simpl in Hnd. apply NoDup_cons_iff in Hnd. destruct Hnd as (Hnotin & Hnd').
    cbn [slot_bindings run_each].
    assert (H1 : run host (S n) (Assignment name op (Placeholder m j) None)
                     (mkState (mkSymbolTable p d) h)
                 = (mkState (mkSymbolTable p (d ++ [(name, v)])%list) h, Ok VNone)).
    { cbn [run run_body].
      assert (Hp : Placeholder_value m j (mkState (mkSymbolTable p d) h)
                   = (mkState (mkSymbolTable p d) h, Ok v)).
      { unfold Placeholder_value, bind, the_matching. simpl.
        now rewrite Hx, Hrow, Hv. }
      rewrite (bind_ok _ _ _ _ _ _ _ _ Hp).
      unfold bind, assign, SymbolTable_setitem. simpl.
      rewrite (Hfresh name (or_introl eq_refl)).
      now rewrite dict_set_new by (apply Hfresh; now left). }
    rewrite (bind_ok _ _ _ _ _ _ _ _ H1).
    rewrite (IH (S j) vals (d ++ [(name, v)])%list p h x row Hx Hrow Hskip').
    + simpl. now rewrite <- app_assoc.
    + simpl in Hlen. lia.
    + exact Hnd'.
    + intros k Hk. apply dict_mem_app_new.
      * apply Hfresh. now right.
      * intros ->. contradiction.
Qed.

Lemma pattern_of_bindings : forall names cls line st x i row,
  nth_error (matchings (st_heap st)) m = Some x ->
  Matching_i x = Some i ->
  Matching_row x = Some row ->
  List.length names = List.length row ->
  NoDup (map fst names) ->
  run host (S (S n)) (Pattern (slot_bindings m 0 names) (Some m) cls line) st
  = (st, Ok (VObj (mkID cls (Line_name line) (Some i)) (combine (map fst names) row))).
Proof.
  intros names cls line [t h] x i row Hx Hi Hrow Hlen Hnd. simpl in Hx.
  cbn [run run_body].
  assert (Hc : bind (current_index m) (fun i0 => ret (Some i0)) (mkState t h)
               = (mkState t h, Ok (Some i))).
  { unfold current_index, bind, the_matching. simpl. now rewrite Hx, Hi. }
  rewrite (bind_ok _ _ _ _ _ _ _ _ Hc).
  assert (Hw : with_child [] (run_each (run host (S n)) (slot_bindings m 0 names))
                 (mkState t h)
               = (mkState t h, Ok (combine (map fst names) row, tt))).
  { unfold with_child. cbn [st_symbols st_heap].
    rewrite (slot_bindings_run names 0 row [] (Some t) h x row Hx Hrow eq_refl Hlen Hnd
               (fun k _ => eq_refl)).
    reflexivity. }
  rewrite (bind_ok _ _ _ _ _ _ _ _ Hw). reflexivity.
Qed.

Lemma rows_of_bindings : forall names cls line rows i st x,
  nth_error (matchings (st_heap st)) m = Some x ->
  (forall row, In row rows -> List.length names = List.length row) ->
  NoDup (map fst names) ->
  exists st',
    run_rows (run host (S (S n))) m
      (Pattern (slot_bindings m 0 names) (Some m) cls line) i rows st
    = (st', Ok (labelled cls (Line_name line) i (map fst names) rows))
    /\ st_symbols st' = st_symbols st.
Proof.
  intros names cls line rows.
  induction rows as [|row rows IH]; intros i st x Hx Hlen Hnd.
  - exists st. split; reflexivity.
  - cbn [run_rows labelled].
    rewrite (bind_ok _ _ _ _ _ _ _ _ (set_current_spec m i row st x Hx)).
    set (st0 := mkState (st_symbols st)
                  (heap_set (st_heap st) m (mkMatching (collections x) (Some i) (Some row)))).
    assert (Hx0 : nth_error (matchings (st_heap st0)) m
                  = Some (mkMatching (collections x) (Some i) (Some row))).
    { unfold st0. simpl. eapply nth_error_list_set_same; eauto. }
    rewrite (bind_ok _ _ _ _ _ _ _ _
               (pattern_of_bindings names cls line st0 _ i row Hx0 eq_refl eq_refl
                  (Hlen row (or_introl eq_refl)) Hnd)).
    destruct (IH (S i) st0 _ Hx0 (fun r Hr => Hlen r (or_intror Hr)) Hnd)
      as (st' & Hrun & Hsym).
    exists st'. rewrite (bind_ok _ _ _ _ _ _ _ _ Hrun). split; [reflexivity|].
    exact Hsym.
Qed.

End Bindings.

Lemma run_list_keeps_heap : forall host fuel l st st' r,
  run_list (run host fuel) l st = (st', r) -> heap_kept (st_heap st) (st_heap st').
Proof.
  intros host fuel l. induction l as [|a l IH]; intros st st' r H; simpl in H.
  - inversion H. apply heap_kept_refl.
  - apply bind_inv in H. destruct H as [(s1 & v & H1 & H2)|(r0 & H1)].
    + apply bind_inv in H2. destruct H2 as [(s2 & vs & H2 & H3)|(r0 & H2)].
      * inversion H3; subst.
        eapply heap_kept_trans; [eapply run_keeps_heap | eapply IH]; eauto.
      * eapply heap_kept_trans; [eapply run_keeps_heap | eapply IH]; eauto.
    + eapply run_keeps_heap; eauto.
Qed.

Lemma product_rows_length : forall A (pools : list (list A)) row,
  In row (product pools) -> List.length row = List.length pools.
Proof.
  intros A pools row H. apply In_nth_error in H. destruct H as (i & Hi).
  rewrite product_row_major in Hi. eapply row_major_length; eauto.
Qed.

(** X7. A join whose body is a pattern of bindings [name1 ~ ...; ...;
    namek ~ ...], one per candidate and with distinct names, gives the
    labelled Cartesian product: when the candidates evaluate to
    collections with the elements [pools], the [Join] returns one record
    per row of the product, in order, numbered from 0, whose fields are
    the names with the elements of the row; the table is as the
    candidates left it. *)
Theorem join_of_bindings_labels_product :
  forall (host : PyHost) (n m : nat) (names : list (string * string)) (cls : nat)
         (line jline : option nat) (st st1 : state) (x : Matching)
         (evaluated : list value) (pools : list (list value)),
    nth_error (matchings (st_heap st)) m = Some x ->
    run_list (run host (S (S n))) (collections x) st = (st1, Ok evaluated) ->
    iterate_all evaluated = Ok pools ->
    NoDup (map fst names) ->
    List.length names = List.length pools ->
    exists st',
      run host (S (S (S n)))
          (Join (Pattern (slot_bindings m 0 names) (Some m) cls line) m jline) st
      = (st', Ok (VList (labelled cls (Line_name line) 0 (map fst names) (product pools))))
      /\ st_symbols st' = st_symbols st1.
Proof.
  intros host n m names cls line jline st st1 x evaluated pools Hx Hl Hi Hnd Hlen.
  destruct (heap_kept_nth _ _ m x (run_list_keeps_heap _ _ _ _ _ _ Hl) Hx)
    as (x1 & Hx1 & _).
  destruct (rows_of_bindings host n m names cls line (product pools) 0 st1 x1 Hx1)
    as (st' & Hrun & Hsym).
  - intros row Hrow. rewrite (product_rows_length _ _ _ Hrow). exact Hlen.
  - exact Hnd.
  - exists st'. split; [|exact Hsym].
    cbn [run run_body].
    rewrite (bind_ok _ _ _ _ _ _ _ _
               (eq_trans (Matching_run_rows _ m _ st st1 x evaluated pools Hx Hl Hi) Hrun)).
    reflexivity.
Qed.

(** The second program of the source: [xi ~ x; yi ~ y] over three and two
    elements. *)
Lemma join_of_bindings_labels_product_witness :
  let heap := mkHeap [mkMatching [Symbol "x" (Some 3); Symbol "y" (Some 4)] None None] 1 in
  let names := [("xi", "~"); ("yi", "~")] in
  exists st',
    run PyCore.host 3 (Join (Pattern (slot_bindings 0 0 names) (Some 0) 0 None) 0 None)
        (mkState Examples.join_scope heap)
    = (st', Ok (VList (labelled 0 "LineNone" 0 ["xi"; "yi"]
                         (product [[VFloat 1.1; VFloat 2.2; VFloat 3.3];
                                   [VStr "A"; VStr "B"]]))))
    /\ st_symbols st' = Examples.join_scope.
Proof.
  intros heap names.
  assert (Hnd : NoDup (map fst names)).
  { repeat constructor; simpl; intuition discriminate. }
  exact (join_of_bindings_labels_product PyCore.host 0 0 names 0 None None
           (mkState Examples.join_scope heap) (mkState Examples.join_scope heap)
           (mkMatching [Symbol "x" (Some 3); Symbol "y" (Some 4)] None None)
           [VList [VFloat 1.1; VFloat 2.2; VFloat 3.3]; VList [VStr "A"; VStr "B"]]
           [[VFloat 1.1; VFloat 2.2; VFloat 3.3]; [VStr "A"; VStr "B"]]
           eq_refl eq_refl eq_refl Hnd eq_refl).
Defined.

(** ** Records *)

Lemma pattern_run_inv : forall host n assignments matching cls line st st' v,
  run host (S n) (Pattern assignments matching cls line) st = (st', Ok v) ->
  exists id fields child,
    v = VObj id fields
    /\ run_each (run host n) assignments
         (mkState (mkSymbolTable (Some (st_symbols st)) []) (st_heap st))
       = (child, Ok tt)
    /\ symbols (st_symbols child) = fields.
Proof.
  intros host n assignments matching cls line st st' v H.
  simpl in H. apply bind_inv_ok in H. destruct H as (s0 & idx & H0 & H).
  apply pattern_index_state in H0. subst s0.
  apply bind_inv_ok in H. destruct H as (s1 & out & Hw & H).
  inversion H; subst; clear H.
  unfold with_child in Hw.
  destruct (run_each (run host n) assignments _) as [child rc] eqn:Hc.
  destruct rc as [[]| |]; inversion Hw; subst; clear Hw. simpl.
  eexists. exists (symbols (st_symbols child)), child. auto.
Qed.

(** X8. When a [Pattern] returns a record, every name its assignments
    assign is a field of the record, and the record gives the field's
    value both for [record[name]] and, for a name that does not start
    with an underscore, for [record.name]. *)
Theorem assigned_names_are_fields :
  forall (host : PyHost) (n : nat) (assignments : list ast) (matching : option nat)
         (cls : nat) (line : option nat) (st st' : state) (id : ID) (fields : dict)
         (k op : string) (e : ast) (l : option nat),
    run host (S n) (Pattern assignments matching cls line) st = (st', Ok (VObj id fields)) ->
    In (Assignment k op e l) assignments ->
    exists v,
      dict_get fields k = Some v
      /\ getitem host (VObj id fields) (VStr k) = Ok v
      /\ (starts_with_underscore k = false -> getattr host (VObj id fields) k = Ok v).
Proof.
  intros host n assignments matching cls line st st' id fields k op e l H Hin.
  destruct (pattern_run_inv _ _ _ _ _ _ _ _ _ H) as (id' & fields' & child & Hv & Hrun & Hf).
  injection Hv as Hid Hfields.
  pose proof (run_each_binds host n assignments k op e l _ _ Hin Hrun) as Hk.
  rewrite Hf, <- Hfields in Hk. unfold dict_mem in Hk.
  destruct (dict_get fields k) as [v|] eqn:E; [|discriminate].
  exists v. split; [reflexivity|]. split.
  - simpl. now rewrite E.
  - intros Hu. simpl. now rewrite Hu, E.
Qed.

(** The record of [{a = 1; b = a}]. *)
Lemma assigned_names_are_fields_witness :
  let pattern := Pattern [Assignment "a" "=" (Literal (LInt 1) None) None;
                          Assignment "b" "=" (Symbol "a" None) None] None 7 (Some 4) in
  let record := VObj (mkID 7 "Line4" None) [("a", VInt 1); ("b", VInt 1)] in
  run PyCore.host 3 pattern Examples.fresh_state = (Examples.fresh_state, Ok record)
  /\ getattr PyCore.host record "b" = Ok (VInt 1).
Proof.
  intros pattern record.
  assert (E : run PyCore.host 3 pattern Examples.fresh_state
              = (Examples.fresh_state, Ok record)) by reflexivity.
  split; [exact E|].
  destruct (assigned_names_are_fields PyCore.host 2 _ _ _ _ _ _ _ _
              "b" "=" (Symbol "a" None) None E (or_intror (or_introl eq_refl)))
    as (v & Hv & _ & Ha).
  pose proof (Ha eq_refl) as Hb.
  assert (v = VInt 1) by (vm_compute in Hv; now inversion Hv).
  subst v. exact Hb.
Defined.

(** ** The builtins *)

(** X9. Called with no argument, every lambda of [builtins] but [union]
    raises the [IndexError] of [arguments[0]], and [union] returns the
    empty list; the state is not changed and nothing is evaluated. *)
Theorem builtins_without_arguments :
  forall (host : PyHost) (rec : ast -> M state value) (name : string) (st : state),
    In name (keys (symbols builtins)) ->
    call host rec (VBuiltin name) [] st
    = (st, if String.eqb name "union"
           then Ok (VList [])
           else Raise (Exn "IndexError" "list index out of range" None)).
Proof.
  intros host rec name st H. simpl in H.
  repeat (destruct H as [<-|H]; [reflexivity|]). destruct H.
Qed.

Lemma builtins_without_arguments_witness :
  run PyCore.host 2 (Call (Symbol "len" (Some 1)) [] (Some 1)) Examples.fresh_state
  = (Examples.fresh_state,
     Raise (wrap (Some 1) (Exn "IndexError" "list index out of range" None))).
Proof.
  pose proof (builtins_without_arguments PyCore.host (run PyCore.host 1) "len"
                Examples.fresh_state (or_introl eq_refl)) as H.
  change (try_except (Some 1)
            (bind (run PyCore.host 1 (Symbol "len" (Some 1)))
                  (fun f => call PyCore.host (run PyCore.host 1) f []))
            Examples.fresh_state
          = (Examples.fresh_state,
             Raise (wrap (Some 1) (Exn "IndexError" "list index out of range" None)))).
  apply try_except_raise.
  assert (Hs : run PyCore.host 1 (Symbol "len" (Some 1)) Examples.fresh_state
               = (Examples.fresh_state, Ok (VBuiltin "len"))) by reflexivity.
  rewrite (bind_ok _ _ _ _ _ _ _ _ Hs). exact H.
Defined.

Lemma union_from_concat : forall host rec,
  (forall a b, py_binary host "+" (VList a) (VList b) = Ok (VList (a ++ b)%list)) ->
  forall args lists acc st st1,
    run_list rec args st = (st1, Ok (map VList lists)) ->
    union_from host rec (VList acc) args st = (st1, Ok (VList (acc ++ List.concat lists)%list)).
Proof.
  intros host rec Hplus args.
  induction args as [|a args IH]; intros lists acc st st1 H; simpl in H.
  - inversion H as [[Hs Hl]]. destruct lists; [|discriminate].
    simpl. now rewrite app_nil_r.
  - apply bind_inv_ok in H. destruct H as (s1 & v & Ha & H).
    apply bind_inv_ok in H. destruct H as (s2 & vs & Hr & H).
    inversion H as [[Hs Hl]]. subst s2.
    destruct lists as [|l lists]; [discriminate|].
    simpl in Hl. inversion Hl; subst v vs.
    simpl. rewrite (bind_ok _ _ _ _ _ _ _ _ Ha).
    unfold bind at 1, lift. rewrite Hplus.
    rewrite (IH lists (acc ++ l)%list s1 st1 Hr). now rewrite app_assoc.
Qed.

(** X10. Where the host's [+] concatenates lists, [union] of arguments
    that evaluate to lists returns the concatenation of the lists, in the
    order of the arguments, after evaluating each argument once from left
    to right. *)
Theorem union_concatenates :
  forall (host : PyHost) (rec : ast -> M state value) (args : list ast)
         (lists : list (list value)) (st st1 : state),
    (forall a b, py_binary host "+" (VList a) (VList b) = Ok (VList (a ++ b)%list)) ->
    run_list rec args st = (st1, Ok (map VList lists)) ->
    call host rec (VBuiltin "union") args st = (st1, Ok (VList (List.concat lists))).
Proof.
  intros host rec args lists st st1 Hplus H.
  exact (union_from_concat host rec Hplus args lists [] st st1 H).
Qed.

Lemma union_concatenates_witness :
  let st := mkState (mkSymbolTable (Some builtins)
                       [("x", VList [VInt 1; VInt 2]); ("y", VList [VInt 3])])
                    empty_heap in
  call PyCore.host (run PyCore.host 1) (VBuiltin "union")
       [Symbol "x" None; Symbol "y" None; Symbol "x" None] st
  = (st, Ok (VList [VInt 1; VInt 2; VInt 3; VInt 1; VInt 2])).
Proof.
  intros st.
  exact (union_concatenates PyCore.host (run PyCore.host 1)
           [Symbol "x" None; Symbol "y" None; Symbol "x" None]
           [[VInt 1; VInt 2]; [VInt 3]; [VInt 1; VInt 2]] st st
           (fun a b => eq_refl) eq_refl).
Defined.

(** ** Calls *)

(** X11. Calling a name bound to a function with a number of arguments
    other than its number of parameters fails before any argument is
    evaluated: the state is unchanged and the error is the call's
    annotation of the [TypeError] that gives the function's line, the
    number expected and the number given. *)
Theorem arity_mismatch_is_reported :
  forall (host : PyHost) (n : nat) (f : string) (params : list string) (body : ast)
         (fline sline line : option nat) (args : list ast) (st : state),
    SymbolTable_getitem (st_symbols st) f = Ok (VFunction params body fline) ->
    List.length params <> List.length args ->
    run host (S (S n)) (Call (Symbol f sline) args line) st
    = (st, Raise (wrap line (arity_error fline (List.length params) (List.length args)))).
Proof.
  intros host n f params body fline sline line args st Hf Hlen.
  change (try_except line
            (bind (run host (S n) (Symbol f sline))
                  (fun v => call host (run host (S n)) v args)) st
          = (st, Raise (wrap line
                          (arity_error fline (List.length params) (List.length args))))).
  apply try_except_raise.
  assert (Hs : run host (S n) (Symbol f sline) st = (st, Ok (VFunction params body fline))).
  { simpl. unfold try_except, lookup. now rewrite Hf. }
  rewrite (bind_ok _ _ _ _ _ _ _ _ Hs). unfold call.
  apply Nat.eqb_neq in Hlen. now rewrite Hlen.
Qed.

(** [f(x) = a] called with two arguments. *)
Lemma arity_mismatch_is_reported_witness :
  let st := mkState (mkSymbolTable (Some builtins)
                       [("f", VFunction ["x"] (Symbol "a" (Some 2)) (Some 2))])
                    empty_heap in
  run PyCore.host 2
      (Call (Symbol "f" (Some 5)) [Symbol "missing" (Some 5); Literal (LInt 1) (Some 5)]
            (Some 5)) st
  = (st, Raise (wrap (Some 5)
                  (Exn "TypeError" "on line 2, function expects 1 arguments, got 2" None))).
Proof.
  intros st.
  exact (arity_mismatch_is_reported PyCore.host 0 "f" ["x"] (Symbol "a" (Some 2))
           (Some 2) (Some 5) (Some 5)
           [Symbol "missing" (Some 5); Literal (LInt 1) (Some 5)] st
           eq_refl ltac:(discriminate)).
Defined.

(** ** Printing and ordering *)

(** X12. [AST.__repr__] joins the values of the fields with [str.join],
    which takes strings only: it returns for a [Symbol] node, giving
    [Symbol(name)], and for no other node; on every other node of an AST
    class it raises a [TypeError]. *)
Theorem repr_works_for_symbols_only :
  forall (a : ast),
    (forall s, AST_repr a = Ok s <->
               exists name line, a = Symbol name line /\ s = "Symbol(" ++ name ++ ")")
    /\ (forall e, AST_repr a = Raise e -> exn_kind e = "TypeError")
    /\ (class_of a <> "Symbol" -> class_of a <> "Placeholder" ->
        exists e, AST_repr a = Raise e).
Proof.
  intros a.
  destruct a as [ss l|k op e l|ss mm c l|e mm l|ps b l|ss e l|f args l|o ix l
                |o fld l|s1 s2 l|name l|[z|fl] l|mm nn];
    (split; [|split]);
    try (intros s; split;
         [cbn; intros H; discriminate
         |intros (name' & line' & Ha & _); discriminate]);
    try (intros e' H; cbn in H; inversion H; reflexivity);
    try (intros _ _; cbn; eexists; reflexivity);
    try (intros e' H; cbn in H; discriminate).
  - intros s. split.
    + cbn. intros H. inversion H. eauto.
    + intros (name' & line' & Ha & ->). inversion Ha. reflexivity.
  - intros Hs. exfalso. apply Hs. reflexivity.
  - intros _ Hp. exfalso. apply Hp. reflexivity.
Qed.

Lemma repr_works_for_symbols_only_witness :
  AST_repr (Symbol "x" (Some 1)) = Ok "Symbol(x)"
  /\ AST_repr (Literal (LInt 5) (Some 1))
     = Raise (Exn "TypeError" "sequence item 0: expected str instance, int found" None)
  /\ AST_repr (Assignment "a" "=" (Symbol "x" (Some 1)) (Some 1))
     = Raise (Exn "TypeError" "sequence item 2: expected str instance, Symbol found" None).
Proof.
  destruct (repr_works_for_symbols_only (Symbol "x" (Some 1))) as (H & _).
  split; [|split; reflexivity].
  apply H. exists "x", (Some 1). split; reflexivity.
Defined.

(** X13. Identities of one class with indices are ordered by their
    indices, exactly one of "less", "equal" and "greater" holding; two
    identities of different classes with the same name, such as those of
    two pattern blocks on one line, are not equal and neither is less
    than the other. *)
Theorem identity_order :
  forall (c : nat) (name : string) (x y : nat),
    let a := mkID c name (Some x) in
    let b := mkID c name (Some y) in
    ID_lt a b = Ok (Nat.ltb x y)
    /\ ID_eq a b = Nat.eqb x y
    /\ ((ID_lt a b = Ok true /\ ID_eq a b = false /\ ID_lt b a = Ok false)
        \/ (ID_lt a b = Ok false /\ ID_eq a b = true /\ ID_lt b a = Ok false)
        \/ (ID_lt a b = Ok false /\ ID_eq a b = false /\ ID_lt b a = Ok true))
    /\ (forall c' n1 n2,
          c' <> c ->
          ID_eq (mkID c name n1) (mkID c' name n2) = false
          /\ ID_lt (mkID c name n1) (mkID c' name n2) = Ok false
          /\ ID_lt (mkID c' name n2) (mkID c name n1) = Ok false).
Proof.
  intros c name x y a b. subst a b.
  assert (Hlt : forall u v, ID_lt (mkID c name (Some u)) (mkID c name (Some v))
                            = Ok (Nat.ltb u v)).
  { intros u v. unfold ID_lt. simpl. now rewrite Nat.eqb_refl. }
  assert (Heq : ID_eq (mkID c name (Some x)) (mkID c name (Some y)) = Nat.eqb x y).
  { unfold ID_eq. simpl. now rewrite Nat.eqb_refl. }
  split; [apply Hlt|]. split; [exact Heq|]. split.
  - rewrite !Hlt, Heq.
    destruct (Nat.lt_trichotomy x y) as [H|[H|H]].
    + left. repeat split.
      * f_equal. apply Nat.ltb_lt. exact H.
      * apply Nat.eqb_neq. lia.
      * f_equal. apply Nat.ltb_ge. lia.
    + right. left. subst y. rewrite Nat.ltb_irrefl, Nat.eqb_refl. auto.
    + right. right. repeat split.
      * f_equal. apply Nat.ltb_ge. lia.
      * apply Nat.eqb_neq. lia.
      * f_equal. apply Nat.ltb_lt. exact H.
  - intros c' n1 n2 Hc.
    assert (Hn : String.ltb name name = false).
    { unfold String.ltb. pose proof (String.compare_antisym name name) as Ha.
      destruct (String.compare name name); [reflexivity | discriminate | reflexivity]. }
    unfold ID_eq, ID_lt. simpl.
    rewrite (proj2 (Nat.eqb_neq c c') (fun E => Hc (eq_sym E))).
    rewrite (proj2 (Nat.eqb_neq c' c) Hc). rewrite Hn. auto.
Qed.

(** The identities of the records of the two pattern blocks of
    [Examples.twin_text], both of a class named [Line1]. *)
Lemma identity_order_witness :
  ID_eq (mkID 0 "Line1" None) (mkID 1 "Line1" None) = false
  /\ ID_lt (mkID 0 "Line1" None) (mkID 1 "Line1" None) = Ok false
  /\ ID_lt (mkID 1 "Line1" None) (mkID 0 "Line1" None) = Ok false
  /\ ID_lt (mkID 0 "Line1" (Some 2)) (mkID 0 "Line1" (Some 5)) = Ok true.
Proof.
  destruct (identity_order 0 "Line1" 2 5) as (H1 & _ & _ & H2).
  destruct (H2 1 None None ltac:(discriminate)) as (Ha & Hb & Hc).
  repeat split; assumption.
Defined.

(** * Candidates, rows and placeholders *)

(** ** Where the joins of a state are *)

Lemma in_flat_map_list_set : forall A B (f : A -> list B) (l : list A) k x b,
  In b (flat_map f (list_set l k x)) -> In b (flat_map f l) \/ In b (f x).
Proof.
  intros A B f l. induction l as [|a l IH]; intros [|k] x b H; simpl in *; auto.
  - rewrite in_app_iff in *. tauto.
  - rewrite in_app_iff in *. destruct H as [H|H]; [tauto|].
    destruct (IH _ _ _ H); tauto.
Qed.

Lemma dict_get_joins : forall d k v,
  dict_get d k = Some v -> incl (value_joins v) (dict_joins d).
Proof.
  induction d as [|[k' v'] d IH]; intros k v H; simpl in H; [discriminate|].
  unfold dict_joins. simpl. intros a Ha. apply in_app_iff.
  destruct (String.eqb k' k).
  - inversion H; subst. now left.
  - right. eapply IH; eauto.
Qed.

Lemma dict_set_joins : forall d k v,
  incl (dict_joins (dict_set d k v)) (value_joins v ++ dict_joins d).
Proof.
  induction d as [|[k' v'] d IH]; intros k v a Ha; unfold dict_joins in *; simpl in *.
  - rewrite app_nil_r in *. assumption.
  - destruct (String.eqb k' k); simpl in Ha; rewrite !in_app_iff in *.
    + tauto.
    + destruct Ha as [Ha|Ha]; [tauto|].
      apply IH in Ha. rewrite in_app_iff in Ha. tauto.
Qed.

Lemma table_joins_cons : forall p d,
  table_joins (mkSymbolTable p d)
  = (dict_joins d ++ match p with Some up => table_joins up | None => [] end)%list.
Proof. reflexivity. Qed.

Lemma table_joins_own : forall t, incl (dict_joins (symbols t)) (table_joins t).
Proof. intros [p d] a Ha. rewrite table_joins_cons. apply in_app_iff. now left. Qed.

Lemma getitem_joins : forall t k v,
  SymbolTable_getitem t k = Ok v -> incl (value_joins v) (table_joins t).
Proof.
  intros t k v. induction t as [d|up d IH] using SymbolTable_induction;
    rewrite table_joins_cons; cbn [SymbolTable_getitem];
    destruct (dict_get d k) as [w|] eqn:E;
    intros H a Ha; try discriminate; apply in_app_iff.
  - inversion H; subst. left. eapply dict_get_joins; eauto.
  - inversion H; subst. left. eapply dict_get_joins; eauto.
  - right. now apply IH.
Qed.

Lemma setitem_joins : forall t k v t',
  SymbolTable_setitem t k v = Ok t' ->
  incl (table_joins t') (value_joins v ++ table_joins t).
Proof.
  intros [p d] k v t'. unfold SymbolTable_setitem. simpl.
  destruct (dict_mem d k); intros H; inversion H; subst; clear H.
  intros a. rewrite !table_joins_cons, !in_app_iff. intros [Ha|Ha]; [|tauto].
  apply dict_set_joins in Ha. rewrite in_app_iff in Ha. tauto.
Qed.

Lemma nth_error_store_joins : forall h j y,
  nth_error (matchings h) j = Some y -> incl (Matching_joins y) (store_joins h).
Proof.
  intros h j y H a Ha. unfold store_joins. apply in_flat_map.
  exists y. split; [eapply nth_error_In; eauto | assumption].
Qed.

Lemma iterate_joins : forall v pool,
  iterate v = Ok pool -> incl (flat_map value_joins pool) (value_joins v).
Proof.
  intros v pool H. destruct v; simpl in H; try discriminate; inversion H; subst.
  - intros a Ha. exfalso. induction (list_ascii_of_string s); simpl in Ha; auto.
  - intros a Ha. exact Ha.
Qed.

Lemma iterate_all_joins : forall vs pools,
  iterate_all vs = Ok pools ->
  forall pool, In pool pools -> incl (flat_map value_joins pool) (flat_map value_joins vs).
Proof.
  induction vs as [|v vs IH]; intros pools H pool Hp; simpl in H.
  - inversion H; subst. destruct Hp.
  - destruct (iterate v) as [p| |] eqn:Ev; try discriminate.
    destruct (iterate_all vs) as [ps| |] eqn:Es; try discriminate.
    inversion H; subst; clear H. simpl. intros a Ha. apply in_app_iff.
    destruct Hp as [<-|Hp].
    + left. eapply iterate_joins; eauto.
    + right. eapply IH; eauto.
Qed.

Lemma product_rows : forall A (pools : list (list A)) row e,
  In row (product pools) -> In e row -> exists pool, In pool pools /\ In e pool.
Proof.
  intros A. induction pools as [|p rest IH]; intros row e Hr He.
  - destruct Hr as [<-|[]]. destruct He.
  - rewrite product_cons in Hr. apply in_flat_map in Hr.
    destruct Hr as (y & Hy & Hr). apply in_map_iff in Hr.
    destruct Hr as (r & <- & Hr). destruct He as [<-|He].
    + exists p. split; [now left | assumption].
    + destruct (IH r e Hr He) as (pool & H1 & H2).
      exists pool. split; [now right | assumption].
Qed.

Lemma product_joins : forall vs pools row,
  iterate_all vs = Ok pools ->
  In row (product pools) ->
  incl (flat_map value_joins row) (flat_map value_joins vs).
Proof.
  intros vs pools row H Hr a Ha. apply in_flat_map in Ha.
  destruct Ha as (e & He & Ha).
  destruct (product_rows _ pools row e Hr He) as (pool & H1 & H2).
  apply (iterate_all_joins vs pools H pool H1). apply in_flat_map. eauto.
Qed.

(** ** Evaluation away from a [Matching] *)

(** Evaluation of a node that holds no [Join] of the [Matching] at [m], from
    a state that cannot reach one, never stores in that [Matching]. *)
Section Undisturbed.

Variable host : PyHost.
Variable m : nat.
Hypothesis host_ok : host_adds_no_join host.

Let quiet (v : value) : Prop := ~ In m (value_joins v).
Let quiet_all (vs : list value) : Prop := ~ In m (flat_map value_joins vs).

Lemma und_same : forall A (P : M state A) (Q : A -> Prop),
  (forall st st' r, P st = (st', r) -> st' = st) ->
  (forall st a, ~ In m (state_joins st) -> P st = (st, Ok a) -> Q a) ->
  undisturbed m P Q.
Proof.
  intros A P Q Hs Hq st st' r Hst H.
  pose proof (Hs _ _ _ H); subst st'. repeat split; auto.
  intros a ->. eauto.
Qed.

Lemma und_ret : forall A (a : A) (Q : A -> Prop), Q a -> undisturbed m (ret a) Q.
Proof.
  intros A a Q Ha. apply und_same.
  - intros st st' r H. now inversion H.
  - intros st b _ H. now inversion H; subst.
Qed.

Lemma und_raise : forall A e (Q : A -> Prop), undisturbed m (raise e) Q.
Proof.
  intros A e Q. apply und_same.
  - intros st st' r H. now inversion H.
  - intros st a _ H. inversion H.
Qed.

Lemma und_stop : forall A x (Q : A -> Prop), undisturbed m (stop x) Q.
Proof.
  intros A x Q. apply und_same.
  - intros st st' r H. now inversion H.
  - intros st a _ H. inversion H.
Qed.

Lemma und_lift : forall A (o : outcome A) (Q : A -> Prop),
  (forall a, o = Ok a -> Q a) -> undisturbed m (lift o) Q.
Proof.
  intros A o Q Ho. apply und_same.
  - intros st st' r H. now inversion H.
  - intros st a _ H. inversion H. auto.
Qed.

Lemma und_bind : forall A B (P : M state A) (k : A -> M state B)
                        (Q : A -> Prop) (Q' : B -> Prop),
  undisturbed m P Q ->
  (forall a, Q a -> undisturbed m (k a) Q') ->
  undisturbed m (bind P k) Q'.
Proof.
  intros A B P k Q Q' HP Hk st st' r Hst H. unfold bind in H.
  destruct (P st) as [s1 [a|e|x]] eqn:E;
    destruct (HP _ _ _ Hst E) as (C1 & E1 & Q1).
  - destruct (Hk a (Q1 a eq_refl) _ _ _ C1 H) as (C2 & E2 & Q2).
    repeat split; auto. congruence.
  - inversion H; subst. repeat split; auto. discriminate.
  - inversion H; subst. repeat split; auto. discriminate.
Qed.

Lemma und_weaken : forall A (P : M state A) (Q Q' : A -> Prop),
  undisturbed m P Q -> (forall a, Q a -> Q' a) -> undisturbed m P Q'.
Proof.
  intros A P Q Q' HP HQ st st' r Hst H.
  destruct (HP _ _ _ Hst H) as (C & E & Hq). repeat split; auto.
Qed.

Lemma und_try_except : forall A line (P : M state A) (Q : A -> Prop),
  undisturbed m P Q -> undisturbed m (try_except line P) Q.
Proof.
  intros A line P Q HP st st' r Hst. unfold try_except.
  destruct (P st) as [s1 [a|e|x]] eqn:E; intros H; inversion H; subst;
    destruct (HP _ _ _ Hst E) as (C & E1 & Hq); repeat split; auto.
  discriminate.
Qed.

Lemma und_lookup : forall k, undisturbed m (lookup k) quiet.
Proof.
  intros k. apply und_same.
  - intros st st' r H. now inversion H.
  - intros st v Hst H. inversion H as [E]. intros Hin. apply Hst.
    apply in_app_iff. left. eapply getitem_joins; eauto.
Qed.

Lemma und_assign : forall k v,
  quiet v -> undisturbed m (assign k v) (fun _ => True).
Proof.
  intros k v Hv st st' r Hst. unfold assign.
  destruct (SymbolTable_setitem (st_symbols st) k v) as [t| |] eqn:E;
    intros H; inversion H; subst; clear H; repeat split; auto.
  unfold state_joins in *. simpl. rewrite in_app_iff in *.
  intros [Hin|Hin]; [|tauto].
  apply (setitem_joins _ _ _ _ E) in Hin. rewrite in_app_iff in Hin.
  destruct Hin; [now apply Hv | tauto].
Qed.

Lemma und_with_child : forall A d (P : M state A) (Q : A -> Prop),
  grows P ->
  ~ In m (dict_joins d) ->
  undisturbed m P Q ->
  undisturbed m (with_child d P) (fun r => ~ In m (dict_joins (fst r)) /\ Q (snd r)).
Proof.
  intros A d P Q HG Hd HP st st' r Hst H.
  pose proof (with_child_restores A d P st st' r HG H) as Hs.
  unfold with_child in H.
  destruct (P _) as [s1 o] eqn:E. inversion H as [[H1 H2]]. clear H.
  assert (C0 : ~ In m (state_joins
                         (mkState (mkSymbolTable (Some (st_symbols st)) d) (st_heap st)))).
  { unfold state_joins in *. cbn [st_symbols st_heap].
    rewrite table_joins_cons, !in_app_iff. rewrite in_app_iff in Hst. tauto. }
  destruct (HP _ _ _ C0 E) as (C1 & E1 & Q1). simpl in E1.
  subst st' r. cbn [st_symbols st_heap] in *.
  split; [|split].
  - unfold state_joins in *. cbn [st_symbols st_heap]. rewrite Hs, in_app_iff.
    rewrite in_app_iff in Hst, C1. tauto.
  - exact E1.
  - intros a Ha. destruct o as [b| |]; try discriminate.
    inversion Ha; subst. simpl. split; [|auto].
    intros Hin. apply C1. apply in_app_iff. left. now apply table_joins_own.
Qed.

Lemma und_the_matching : forall m',
  undisturbed m (the_matching m') (fun y => ~ In m (Matching_joins y)).
Proof.
  intros m'. apply und_same; [apply the_matching_state|].
  intros st y Hst. unfold the_matching.
  destruct (nth_error (matchings (st_heap st)) m') as [x|] eqn:E; intros H;
    inversion H; subst.
  intros Hin. apply Hst, in_app_iff. right. eapply nth_error_store_joins; eauto.
Qed.

Lemma und_current_index : forall m',
  undisturbed m (current_index m') (fun _ => True).
Proof.
  intros m'. apply und_same; [|auto].
  intros st st' r H. apply current_index_spec in H. now destruct H.
Qed.

Lemma und_Placeholder_value : forall m' k,
  undisturbed m (Placeholder_value m' k) quiet.
Proof.
  intros m' k. apply und_same; [apply Placeholder_value_state|].
  intros st v Hst. unfold Placeholder_value, bind, the_matching.
  destruct (nth_error (matchings (st_heap st)) m') as [x|] eqn:E; [|discriminate].
  destruct (Matching_row x) as [row|] eqn:Er; [|discriminate].
  destruct (nth_error row k) as [e|] eqn:Ek; intros H; inversion H; subst.
  intros Hin. apply Hst, in_app_iff. right.
  apply (nth_error_store_joins _ _ _ E). unfold Matching_joins.
  rewrite Er. apply in_app_iff. right. apply in_flat_map.
  exists v. split; [eapply nth_error_In; eauto | assumption].
Qed.

Lemma set_current_joins : forall m' i row st st' r,
  ~ In m (state_joins st) ->
  quiet_all row ->
  set_current m' i row st = (st', r) ->
  ~ In m (state_joins st').
Proof.
  intros m' i row st st' r Hst Hrow. unfold set_current.
  destruct (nth_error (matchings (st_heap st)) m') as [x|] eqn:E; intros H;
    inversion H; subst; clear H; auto.
  unfold state_joins in *. simpl. rewrite in_app_iff in *.
  intros [Hin|Hin]; [tauto|].
  unfold store_joins, heap_set in Hin. simpl in Hin.
  apply in_flat_map_list_set in Hin. destruct Hin as [Hin|Hin]; [tauto|].
  unfold Matching_joins in Hin. simpl in Hin. apply in_app_iff in Hin.
  destruct Hin as [Hin|Hin]; [|now apply Hrow].
  apply Hst. right. apply (nth_error_store_joins _ _ _ E).
  unfold Matching_joins. apply in_app_iff. now left.
Qed.

Lemma und_set_current : forall m' i row,
  m' <> m -> quiet_all row ->
  undisturbed m (set_current m' i row) (fun _ => True).
Proof.
  intros m' i row Hm Hrow st st' r Hst H. repeat split; auto.
  - eapply set_current_joins; eauto.
  - unfold set_current in H.
    destruct (nth_error (matchings (st_heap st)) m') as [x|]; inversion H; subst; auto.
    simpl. apply nth_error_list_set_other. auto.
Qed.

Lemma und_argument : forall l k,
  ~ In m (flat_map joins l) ->
  undisturbed m (argument l k) (fun a => ~ In m (joins a)).
Proof.
  intros l k Hl. unfold argument.
  destruct (nth_error l k) as [a|] eqn:E; [apply und_ret | apply und_raise].
  intros Hin. apply Hl. apply in_flat_map. exists a.
  split; [eapply nth_error_In; eauto | assumption].
Qed.

Lemma quiet_unary : forall op v w,
  py_unary host op v = Ok w -> quiet v -> quiet w.
Proof.
  intros op v w H Hv Hin. destruct host_ok as (Hu & _).
  apply Hv. eapply Hu; eauto.
Qed.

Lemma quiet_binary : forall op a b w,
  py_binary host op a b = Ok w -> quiet a -> quiet b -> quiet w.
Proof.
  intros op a b w H Ha Hb Hin. destruct host_ok as (_ & Hbin & _).
  apply (Hbin _ _ _ _ H) in Hin. apply in_app_iff in Hin. destruct Hin; auto.
Qed.

Lemma quiet_getitem : forall o ix w,
  getitem host o ix = Ok w -> quiet o -> quiet ix -> quiet w.
Proof.
  intros o ix w H Ho Hix.
  assert (Hh : py_getitem host o ix = Ok w -> quiet w).
  { intros Hp Hin. destruct host_ok as (_ & _ & Hi & _).
    apply (Hi _ _ _ Hp) in Hin. apply in_app_iff in Hin. destruct Hin; auto. }
  destruct o; simpl in H; auto. destruct ix; auto.
  destruct (dict_get _fields s) as [v|] eqn:E; inversion H; subst.
  intros Hin. apply Ho. simpl. eapply dict_get_joins; eauto.
Qed.

Lemma quiet_getattr : forall o field w,
  getattr host o field = Ok w -> quiet o -> quiet w.
Proof.
  intros o field w H Ho.
  assert (Hh : py_getattr host o field = Ok w -> quiet w).
  { intros Hp Hin. destruct host_ok as (_ & _ & _ & Ha).
    apply Ho. eapply Ha; eauto. }
  destruct o; simpl in H; auto.
  destruct (starts_with_underscore field); auto.
  destruct (dict_get _fields field) as [v|] eqn:E; inversion H; subst.
  intros Hin. apply Ho. simpl. eapply dict_get_joins; eauto.
Qed.

Lemma und_unary : forall op v,
  quiet v -> undisturbed m (lift (py_unary host op v)) quiet.
Proof. intros op v Hv. apply und_lift. intros w Hw. eapply quiet_unary; eauto. Qed.

Lemma und_binary : forall op a b,
  quiet a -> quiet b -> undisturbed m (lift (py_binary host op a b)) quiet.
Proof. intros op a b Ha Hb. apply und_lift. intros w Hw. eapply quiet_binary; eauto. Qed.

Section UndisturbedBody.

Variable rec : ast -> M state value.
Hypothesis rec_grows : forall x, grows (rec x).
Hypothesis rec_und : forall x, ~ In m (joins x) -> undisturbed m (rec x) quiet.

Lemma und_run_each : forall l,
  ~ In m (flat_map joins l) -> undisturbed m (run_each rec l) (fun _ => True).
Proof.
  induction l as [|x l IH]; intros Hl; simpl.
  - now apply und_ret.
  - simpl in Hl. rewrite in_app_iff in Hl.
    eapply und_bind; [apply rec_und; tauto|]. intros _ _. apply IH. tauto.
Qed.

Lemma und_run_list : forall l,
  ~ In m (flat_map joins l) -> undisturbed m (run_list rec l) quiet_all.
Proof.
  induction l as [|x l IH]; intros Hl; simpl.
  - apply und_ret. intros [].
  - simpl in Hl. rewrite in_app_iff in Hl.
    eapply und_bind; [apply rec_und; tauto|]. intros v Hv.
    eapply und_bind; [apply IH; tauto|]. intros vs Hvs.
    apply und_ret. unfold quiet_all. simpl. rewrite in_app_iff.
    intros [H|H]; [now apply Hv | now apply Hvs].
Qed.

Lemma und_run_rows : forall m' node rows i,
  m' <> m -> ~ In m (joins node) ->
  (forall row, In row rows -> quiet_all row) ->
  undisturbed m (run_rows rec m' node i rows) quiet_all.
Proof.
  intros m' node rows. induction rows as [|row rows IH]; intros i Hm Hn Hr; simpl.
  - apply und_ret. intros [].
  - eapply und_bind; [apply und_set_current; auto; apply Hr; now left|]. intros _ _.
    eapply und_bind; [apply rec_und; auto|]. intros v Hv.
    eapply und_bind; [apply IH; auto; intros; apply Hr; now right|]. intros vs Hvs.
    apply und_ret. unfold quiet_all. simpl. rewrite in_app_iff.
    intros [H|H]; [now apply Hv | now apply Hvs].
Qed.

Lemma und_Matching_run : forall m' node,
  m' <> m -> ~ In m (joins node) ->
  undisturbed m (Matching_run rec m' node) quiet_all.
Proof.
  intros m' node Hm Hn. unfold Matching_run.
  eapply und_bind; [apply und_the_matching|]. intros y Hy.
  eapply und_bind; [apply und_run_list|].
  { unfold Matching_joins in Hy. rewrite in_app_iff in Hy. tauto. }
  intros evaluated He.
  eapply und_bind
    with (Q := fun pools => forall row, In row (product pools) -> quiet_all row).
  { apply und_lift. intros pools Hp row Hr Hin. apply He.
    eapply product_joins; eauto. }
  intros pools Hp. apply und_run_rows; auto.
Qed.

Lemma und_run_argument : forall l k,
  ~ In m (flat_map joins l) -> undisturbed m (run_argument rec l k) quiet.
Proof.
  intros l k Hl. unfold run_argument.
  eapply und_bind; [apply und_argument; auto|]. intros a Ha. now apply rec_und.
Qed.

Lemma und_bind_parameters : forall ps l d,
  ~ In m (flat_map joins l) -> ~ In m (dict_joins d) ->
  undisturbed m (bind_parameters rec ps l d) (fun d' => ~ In m (dict_joins d')).
Proof.
  induction ps as [|p ps IH]; intros [|a l] d Hl Hd; simpl; try (now apply und_ret).
  simpl in Hl. rewrite in_app_iff in Hl.
  eapply und_bind; [apply rec_und; tauto|]. intros v Hv.
  apply IH; [tauto|]. intros Hin. apply dict_set_joins in Hin.
  rewrite in_app_iff in Hin. destruct Hin; auto.
Qed.

Lemma und_union_from : forall l acc,
  ~ In m (flat_map joins l) -> quiet acc ->
  undisturbed m (union_from host rec acc l) quiet.
Proof.
  induction l as [|x l IH]; intros acc Hl Ha; simpl.
  - now apply und_ret.
  - simpl in Hl. rewrite in_app_iff in Hl.
    eapply und_bind; [apply rec_und; tauto|]. intros v Hv.
    eapply und_bind; [apply und_binary; auto|]. intros acc' Hacc.
    apply IH; [tauto | assumption].
Qed.

Ltac und_step Hl :=
  match goal with
  | |- undisturbed _ (bind _ _) _ => eapply und_bind; [|intros ? ?]
  | |- undisturbed _ (if ?b then _ else _) _ => destruct b
  | |- undisturbed _ (run_argument _ _ _) _ => apply und_run_argument; exact Hl
  | |- undisturbed _ (lift (py_unary _ _ _)) _ => apply und_unary; assumption
  | |- undisturbed _ (lift (py_binary _ _ _ _)) _ => apply und_binary; assumption
  | |- undisturbed _ (ret (VBool _)) _ => apply und_ret; intros []
  | |- undisturbed _ (ret _) _ => apply und_ret; assumption
  | |- undisturbed _ (stop _) _ => apply und_stop
  end.

Lemma und_builtin : forall name l,
  ~ In m (flat_map joins l) -> undisturbed m (builtin host rec name l) quiet.
Proof.
  intros name l Hl. unfold builtin. repeat und_step Hl.
  apply und_union_from; [exact Hl | intros []].
Qed.

Lemma und_call : forall f l,
  quiet f -> ~ In m (flat_map joins l) -> undisturbed m (call host rec f l) quiet.
Proof.
  intros f l Hf Hl. unfold call. destruct f; try apply und_raise.
  - destruct (negb _); [apply und_raise|].
    eapply und_bind; [apply und_bind_parameters; [exact Hl | intros []]|].
    intros scope Hs.
    eapply und_bind;
      [apply und_with_child; [apply rec_grows | exact Hs | apply rec_und; exact Hf]|].
    intros r [_ Hr]. now apply und_ret.
  - now apply und_builtin.
Qed.

Lemma und_run_body : forall node,
  ~ In m (joins node) -> undisturbed m (run_body host rec node) quiet.
Proof.
  intros node Hn.
  destruct node as [sts l|sy op e l|asg mt cls l|e mt l|ps b l|sts e l|f args l
                   |o ix l|o fld l|lo hi l|sy l|lit l|pm pn]; simpl in *.
  - eapply und_bind; [apply und_run_each; exact Hn|]. intros _ _.
    apply und_ret. intros [].
  - eapply und_bind with (Q := quiet).
    + destruct e; try (apply rec_und; exact Hn). apply und_Placeholder_value.
    + intros v Hv. eapply und_bind; [apply und_assign; exact Hv|]. intros _ _.
      apply und_ret. intros [].
  - eapply und_bind with (Q := fun _ => True).
    + destruct mt; [|now apply und_ret].
      eapply und_bind; [apply und_current_index|]. intros i _. now apply und_ret.
    + intros n _.
      eapply und_bind;
        [apply und_with_child;
         [apply grows_run_each; exact rec_grows | intros []
         | apply und_run_each; exact Hn]|].
      intros out [Ho _]. apply und_ret. exact Ho.
  - eapply und_bind; [apply und_Matching_run; intuition|]. intros vs Hvs.
    apply und_ret. exact Hvs.
  - apply und_ret. exact Hn.
  - rewrite in_app_iff in Hn.
    eapply und_bind with (Q := fun r => ~ In m (dict_joins (fst r)) /\ quiet (snd r)).
    + apply und_with_child; [|intros []|].
      * apply grows_bind; [apply grows_run_each; exact rec_grows | intros; apply rec_grows].
      * eapply und_bind; [apply und_run_each; tauto|]. intros _ _.
        apply rec_und. tauto.
    + intros r [_ Hr]. now apply und_ret.
  - rewrite in_app_iff in Hn. apply und_try_except.
    eapply und_bind; [apply rec_und; tauto|]. intros fv Hf.
    apply und_call; [exact Hf | tauto].
  - rewrite in_app_iff in Hn. apply und_try_except.
    eapply und_bind; [apply rec_und; tauto|]. intros ov Ho.
    eapply und_bind; [apply rec_und; tauto|]. intros iv Hix.
    apply und_lift. intros w Hw. eapply quiet_getitem; eauto.
  - apply und_try_except.
    eapply und_bind; [apply rec_und; exact Hn|]. intros ov Ho.
    apply und_lift. intros w Hw. eapply quiet_getattr; eauto.
  - rewrite in_app_iff in Hn.
    eapply und_bind with (Q := quiet).
    { destruct lo; simpl; [apply rec_und; tauto | apply und_ret; intros []]. }
    intros a Ha.
    eapply und_bind with (Q := quiet).
    { destruct hi; simpl; [apply rec_und; tauto | apply und_ret; intros []]. }
    intros c Hc. apply und_ret. unfold quiet. simpl. rewrite in_app_iff.
    intros [H|H]; [now apply Ha | now apply Hc].
  - apply und_try_except, und_lookup.
  - apply und_ret. destruct lit; intros [].
  - apply und_raise.
Qed.

End UndisturbedBody.

Lemma und_run : forall fuel node,
  ~ In m (joins node) -> undisturbed m (run host fuel node) quiet.
Proof.
  induction fuel as [|n IH]; intros node Hn; simpl.
  - apply und_stop.
  - apply und_run_body; [apply grows_run | exact IH | exact Hn].
Qed.

End Undisturbed.

(** ** The run of a [Matching] *)

Lemma PyCore_adds_no_join : host_adds_no_join PyCore.host.
Proof.
  unfold host_adds_no_join. simpl. repeat split.
  - intros op v w H. unfold PyCore.unary in H.
    destruct v; try discriminate;
      repeat match type of H with
             | (if ?b then _ else _) = _ => destruct b
             end; inversion H; subst; intros a [].
  - intros op a b w H. unfold PyCore.binary in H.
    destruct a; try discriminate; destruct b; try discriminate;
      repeat match type of H with
             | (if ?c then _ else _) = _ => destruct c
             end; inversion H; subst; try (intros a []).
    simpl. rewrite flat_map_app. apply incl_refl.
  - intros a b w H. unfold PyCore.item in H.
    destruct a; try discriminate; destruct b; try discriminate.
    destruct (_ && _)%bool; [|discriminate].
    destruct (nth_error l _) as [v|] eqn:E; inversion H; subst.
    intros c Hc. apply in_app_iff. left. simpl. apply in_flat_map.
    exists w. split; [eapply nth_error_In; eauto | assumption].
  - intros a f w H. discriminate.
Qed.

Lemma run_list_in_turn : forall rec l st st1 vs,
  run_list rec l st = (st1, Ok vs) <-> in_turn rec l st vs st1.
Proof.
  intros rec l. induction l as [|x l IH]; intros st st1 vs; simpl; split; intros H.
  - inversion H; subst. constructor.
  - inversion H; subst. reflexivity.
  - apply bind_inv_ok in H. destruct H as (s1 & v & Hv & H).
    apply bind_inv_ok in H. destruct H as (s2 & ws & Hr & H).
    inversion H; subst; clear H. econstructor; eauto. now apply IH.
  - inversion H as [|? ? ? s1 v ws ? Hv Hr]; subst.
    rewrite (bind_ok _ _ _ _ _ _ _ _ Hv).
    apply IH in Hr. rewrite (bind_ok _ _ _ _ _ _ _ _ Hr). reflexivity.
Qed.

Lemma in_turn_length : forall rec l st vs st1,
  in_turn rec l st vs st1 -> List.length vs = List.length l.
Proof. induction 1; simpl; auto. Qed.

Lemma in_turn_nth : forall rec,
  (forall x, grows (rec x)) ->
  forall l st vs st1,
    in_turn rec l st vs st1 ->
    table_grows (st_symbols st) (st_symbols st1)
    /\ forall k c, nth_error l k = Some c ->
         exists s s' v,
           rec c s = (s', Ok v)
           /\ table_grows (st_symbols st) (st_symbols s)
           /\ nth_error vs k = Some v.
Proof.
  intros rec Hg. induction 1 as [st|x r st s1 v vs st' Hv Hr [IH1 IH2]].
  - split; [apply table_grows_refl|]. intros [|k] c H; discriminate.
  - pose proof (Hg _ _ _ _ Hv) as G. split.
    + eapply table_grows_trans; eauto.
    + intros [|k] c Hk; simpl in Hk.
      * inversion Hk; subst. exists st, s1, v.
        split; [exact Hv | split; [apply table_grows_refl | reflexivity]].
      * destruct (IH2 k c Hk) as (s & s' & w & H1 & H2 & H3).
        exists s, s', w.
        split; [exact H1 | split; [eapply table_grows_trans; eauto | exact H3]].
Qed.

Lemma Matching_run_candidate_fails : forall rec m node st x s e,
  nth_error (matchings (st_heap st)) m = Some x ->
  run_list rec (collections x) st = (s, Raise e) ->
  Matching_run rec m node st = (s, Raise e).
Proof.
  intros rec m node st x s e Hx H. unfold Matching_run.
  assert (Hm : the_matching m st = (st, Ok x)) by (unfold the_matching; now rewrite Hx).
  rewrite (bind_ok _ _ _ _ _ _ _ _ Hm). now apply bind_raise.
Qed.

Lemma Matching_run_not_iterable : forall rec m node st x st1 evaluated e,
  nth_error (matchings (st_heap st)) m = Some x ->
  run_list rec (collections x) st = (st1, Ok evaluated) ->
  iterate_all evaluated = Raise e ->
  Matching_run rec m node st = (st1, Raise e).
Proof.
  intros rec m node st x st1 evaluated e Hx Hl Hi. unfold Matching_run.
  assert (Hm : the_matching m st = (st, Ok x)) by (unfold the_matching; now rewrite Hx).
  rewrite (bind_ok _ _ _ _ _ _ _ _ Hm), (bind_ok _ _ _ _ _ _ _ _ Hl).
  unfold bind, lift. now rewrite Hi.
Qed.

Lemma Placeholder_value_selected : forall m k s y row,
  nth_error (matchings (st_heap s)) m = Some y ->
  Matching_row y = Some row ->
  Placeholder_value m k s = (s, selected row k).
Proof.
  intros m k s y row Hy Hr. unfold Placeholder_value, bind, the_matching, selected.
  rewrite Hy, Hr. now destruct (nth_error row k).
Qed.

(** What holds at the combination [i + k] of an enumeration that starts
    from index [i]. *)
Lemma enumerated_combination : forall host n m node rows i st out st',
  enumerated (run host n) m node i rows st out st' ->
  forall k row,
    nth_error rows k = Some row ->
    exists s y s1 v,
      nth_error (matchings (st_heap s)) m = Some y
      /\ (forall y0, nth_error (matchings (st_heap st)) m = Some y0 ->
            collections y = collections y0)
      /\ run host n node
           (mkState (st_symbols s)
              (heap_set (st_heap s) m (mkMatching (collections y) (Some (i + k)) (Some row))))
         = (s1, Ok v)
      /\ nth_error out k = Some v
      /\ (host_adds_no_join host ->
          ~ In m (joins node) ->
          ~ In m (state_joins st) ->
          (forall r, In r rows -> ~ In m (flat_map value_joins r)) ->
          ~ In m (state_joins
                    (mkState (st_symbols s)
                       (heap_set (st_heap s) m
                          (mkMatching (collections y) (Some (i + k)) (Some row)))))
          /\ nth_error (matchings (st_heap s1)) m
             = Some (mkMatching (collections y) (Some (i + k)) (Some row))).
Proof.
  intros host n m node rows i st out st' H.
  induction H as [|i row0 rows st x st1 v out st' Hx Hv He IH]; intros k row Hk.
  - now destruct k.
  - pose proof (set_current_spec m i row0 st x Hx) as Hset.
    assert (Hstep : host_adds_no_join host ->
                    ~ In m (joins node) ->
                    ~ In m (state_joins st) ->
                    ~ In m (flat_map value_joins row0) ->
                    ~ In m (state_joins
                              (mkState (st_symbols st)
                                 (heap_set (st_heap st) m
                                    (mkMatching (collections x) (Some i) (Some row0)))))
                    /\ ~ In m (state_joins st1)
                    /\ nth_error (matchings (st_heap st1)) m
                       = Some (mkMatching (collections x) (Some i) (Some row0))).
    { intros Hh Hn Hst Hrow.
      pose proof (set_current_joins m m i row0 _ _ _ Hst Hrow Hset) as C.
      destruct (und_run host m Hh n node Hn _ _ _ C Hv) as (C1 & E1 & _).
      repeat split; auto. rewrite E1. simpl.
      eapply nth_error_list_set_same; eauto. }
    destruct k as [|k]; simpl in Hk.
    + inversion Hk; subst. exists st, x, st1, v. rewrite Nat.add_0_r.
      split; [exact Hx|]. split; [intros y0 Hy0; congruence|].
      split; [exact Hv|]. split; [reflexivity|].
      intros Hh Hn Hst Hr.
      destruct (Hstep Hh Hn Hst (Hr row (or_introl eq_refl))) as (C & _ & E).
      split; assumption.
    + destruct (IH k row Hk) as (s & y & s1 & w & H1 & H2 & H3 & H4 & H5).
      exists s, y, s1, w. rewrite Nat.add_succ_r.
      split; [exact H1|]. split.
      { intros y0 Hy0. assert (y0 = x) by congruence. subst y0.
        pose proof (run_keeps_heap host n node _ _ _ Hv) as K. simpl in K.
        destruct (heap_kept_nth _ _ m _ K (nth_error_list_set_same _ _ _ _ _ Hx))
          as (x1 & Hx1 & Hc1).
        rewrite (H2 x1 Hx1). exact Hc1. }
      split; [exact H3|]. split; [exact H4|].
      intros Hh Hn Hst Hr.
      destruct (Hstep Hh Hn Hst (Hr row0 (or_introl eq_refl))) as (_ & C & _).
      apply H5; auto. intros r Hin. apply Hr. now right.
Qed.

Lemma current_index_stored : forall m s y i,
  nth_error (matchings (st_heap s)) m = Some y ->
  Matching_i y = Some i ->
  current_index m s = (s, Ok i).
Proof.
  intros m s y i Hy Hi. unfold current_index, bind, the_matching.
  now rewrite Hy, Hi.
Qed.



